(** * PyVCAM camera wrapper (camera.py): configuration and acquisition lifecycle

    A shallow embedding of the [Camera] class of camera.py.  A method of the
    class is a computation in the monad [Py]: it threads the attributes of
    the object ([Camera]) and the state of the external collaborators
    ([World]: the pvc driver module, the StreamSaver engines, the file
    system), and it either returns a value or raises a Python exception.
    Attribute writes made before an exception is raised stay in the state,
    as they do in Python. *)

From stdpp Require Import gmap strings list fin_maps pretty.

Local Open Scope Z_scope.

(** ** Python values and exceptions *)

(** The exception classes that the modelled methods can raise. *)
Inductive exn :=
  | ValueError
  | RuntimeError
  | TypeError
  | AttributeError
  | ZeroDivisionError
  | IndexError
  | StopIteration
  | OSError.

Global Instance exn_eq_dec : EqDecision exn.
Proof. solve_decision. Defined.

(** Arguments of the property setters are arbitrary Python objects; the
    setters inspect them with [isinstance].  (bool, a subclass of int, and
    float are not modelled.) *)
#[local] Set Warnings "-register-all".
Inductive pyobj :=
  | PNone
  | PInt (z : Z)
  | PStr (s : string)
  | PTuple (items : list pyobj).

(** [isinstance(x, int)] together with the integer it holds. *)
Definition as_int (x : pyobj) : option Z :=
  match x with PInt z => Some z | _ => None end.

(** [v in range(lo, hi)] for an integer [v]. *)
Definition in_range (v lo hi : Z) : bool := (lo <=? v) && (v <? hi).

(** [value in d.values()] for a dictionary whose values are integers: the
    integer held by [value] when it is one of the values. *)
Definition in_values (value : pyobj) (d : gmap string Z) : option Z :=
  match value with
  | PInt z => if bool_decide (z ∈ (map_img d : gset Z)) then Some z else None
  | _ => None
  end.

(** [int(a / b)] on two integers: true division, then truncation toward
    zero.  The quotient of two integers is correctly rounded, so for
    [|a| < 2^53] the truncation of the float is the truncation of the exact
    quotient, [Z.quot a b]; the model is exact on that range, which covers
    every sensor coordinate.  Division by zero raises. *)
Definition int_truediv (a b : Z) : exn + Z :=
  if decide (b = 0) then inl ZeroDivisionError else inr (Z.quot a b).

(** ** The external collaborators *)

(** Parameter identifiers of constants.py that the modelled methods use
    (their numeric values play no role). *)
Inductive param :=
  | PARAM_SER_SIZE
  | PARAM_PAR_SIZE
  | PARAM_BINNING_SER
  | PARAM_BINNING_PAR
  | PARAM_EXP_RES
  | PARAM_EXP_TIME.

Global Instance param_eq_dec : EqDecision param.
Proof. solve_decision. Defined.

Definition param_code (p : param) : nat :=
  match p with
  | PARAM_SER_SIZE => 0 | PARAM_PAR_SIZE => 1 | PARAM_BINNING_SER => 2
  | PARAM_BINNING_PAR => 3 | PARAM_EXP_RES => 4 | PARAM_EXP_TIME => 5
  end%nat.

Definition param_of_code (n : nat) : param :=
  match n with
  | 0 => PARAM_SER_SIZE | 1 => PARAM_PAR_SIZE | 2 => PARAM_BINNING_SER
  | 3 => PARAM_BINNING_PAR | 4 => PARAM_EXP_RES | _ => PARAM_EXP_TIME
  end%nat.

Lemma param_of_code_code p : param_of_code (param_code p) = p.
Proof. by destruct p. Qed.

Global Instance param_countable : Countable param :=
  inj_countable' param_code param_of_code param_of_code_code.

(** A StreamSaver object, identified by the order of its construction. *)
Inductive StreamSaver := Saver (id : nat).

Definition saver_id (s : StreamSaver) : nat := let 'Saver i := s in i.

(** A frame buffer returned by the driver, identified by the position of the
    capture call in the call log (pixel data is not modelled). *)
Definition frame := nat.

(** The calls with an effect that the camera object issues to its
    collaborators, in the order of the arguments in the source. *)
Inductive call :=
  | Call_set_param (h : Z) (id : param) (v : Z)
  | Call_set_exp_modes (h : Z) (mode : Z)
  | Call_get_frame (h x0 x1 bx y0 y1 by_ exp : Z) (mode : option Z)
  | Call_close_camera (h : Z)
  | Call_uninit_pvcam
  | Call_StreamSaver (s : StreamSaver)
  | Call_attach_camera (s : StreamSaver) (name : string)
  | Call_setup_acquisition (s : StreamSaver) (n exp res x0 x1 bx y0 y1 by_ : Z)
      (outdir : string)
  | Call_setup_live (s : StreamSaver) (exp res x0 x1 bx y0 y1 by_ : Z)
  | Call_start_acquisition (s : StreamSaver)
  | Call_abort_acquisition (s : StreamSaver)
  | Call_join_acquisition (s : StreamSaver)
  | Call_mkdir (d : string)
  | Call_sleep (ms : Z).

Global Instance StreamSaver_eq_dec : EqDecision StreamSaver.
Proof. solve_decision. Defined.

Global Instance call_eq_dec : EqDecision call.
Proof. solve_decision. Defined.

(** The calls that touch a StreamSaver engine. *)
Definition engine_call (c : call) : bool :=
  match c with
  | Call_StreamSaver _ | Call_attach_camera _ _
  | Call_setup_acquisition _ _ _ _ _ _ _ _ _ _ _
  | Call_setup_live _ _ _ _ _ _ _ _ _
  | Call_start_acquisition _ | Call_abort_acquisition _
  | Call_join_acquisition _ => true
  | _ => false
  end.

(** Modelled from the spec: the native driver module pvc, the StreamSaver
    engine and the file system are collaborators whose code is not part of
    camera.py.  The state they hold is
    - [params]: the current value of each parameter the camera supports;
    - [enums]: the name -> value dictionary of each enumerated parameter;
    - [engines]: for each StreamSaver constructed so far, whether its
      acquisition is active (true from start until a join completes);
    - [dirs]: the directories that exist;
    - [faults]: a script of failures: an effectful call takes the head of
      the script and raises when it holds an exception (an empty script
      means that every call succeeds);
    - [calls]: the log of the effectful calls issued, oldest first. *)
Record World := mkWorld {
  params : gmap param Z;
  enums : gmap param (gmap string Z);
  engines : gmap nat bool;
  dirs : gset string;
  faults : list (option exn);
  calls : list call;
}.

Definition with_params (p : gmap param Z) (w : World) : World :=
  mkWorld p (enums w) (engines w) (dirs w) (faults w) (calls w).
Definition with_engines (e : gmap nat bool) (w : World) : World :=
  mkWorld (params w) (enums w) e (dirs w) (faults w) (calls w).
Definition with_dirs (d : gset string) (w : World) : World :=
  mkWorld (params w) (enums w) (engines w) d (faults w) (calls w).
Definition with_faults (f : list (option exn)) (w : World) : World :=
  mkWorld (params w) (enums w) (engines w) (dirs w) f (calls w).
Definition with_calls (c : list call) (w : World) : World :=
  mkWorld (params w) (enums w) (engines w) (dirs w) (faults w) c.

(** ** The camera object *)

(** The attributes set by [Camera.__init__], under the names of the source.
    [__exp_mode] and [__exp_out_mode] do not exist before [open] assigns
    them ([None] here: reading them raises AttributeError).
    [__exposure_bytes] is never used and is left out. *)
Record Camera := mkCamera {
  __name : string;
  __handle : Z;
  __is_open : bool;
  __mode : option Z;
  __exp_time : Z;
  __binning : Z * Z;
  __roi : option (Z * Z * Z * Z);
  __shape : option (Z * Z);
  __stream_saver : option StreamSaver;
  __stream_mode : option string;
  __exp_mode : option Z;
  __exp_out_mode : option Z;
}.

(** [Camera.__init__(name)]. *)
Definition init (name : string) : Camera :=
  {| __name := name; __handle := -1; __is_open := false;
     __mode := None; __exp_time := 0;
     __binning := (1, 1); __roi := None; __shape := None;
     __stream_saver := None; __stream_mode := None;
     __exp_mode := None; __exp_out_mode := None |}.

Definition with_handle (v : Z) (c : Camera) : Camera :=
  mkCamera (__name c) v (__is_open c) (__mode c) (__exp_time c) (__binning c)
    (__roi c) (__shape c) (__stream_saver c) (__stream_mode c) (__exp_mode c)
    (__exp_out_mode c).
Definition with_is_open (v : bool) (c : Camera) : Camera :=
  mkCamera (__name c) (__handle c) v (__mode c) (__exp_time c) (__binning c)
    (__roi c) (__shape c) (__stream_saver c) (__stream_mode c) (__exp_mode c)
    (__exp_out_mode c).
Definition with_mode (v : option Z) (c : Camera) : Camera :=
  mkCamera (__name c) (__handle c) (__is_open c) v (__exp_time c) (__binning c)
    (__roi c) (__shape c) (__stream_saver c) (__stream_mode c) (__exp_mode c)
    (__exp_out_mode c).
Definition with_binning (v : Z * Z) (c : Camera) : Camera :=
  mkCamera (__name c) (__handle c) (__is_open c) (__mode c) (__exp_time c) v
    (__roi c) (__shape c) (__stream_saver c) (__stream_mode c) (__exp_mode c)
    (__exp_out_mode c).
Definition with_roi (v : option (Z * Z * Z * Z)) (c : Camera) : Camera :=
  mkCamera (__name c) (__handle c) (__is_open c) (__mode c) (__exp_time c)
    (__binning c) v (__shape c) (__stream_saver c) (__stream_mode c)
    (__exp_mode c) (__exp_out_mode c).
Definition with_shape (v : option (Z * Z)) (c : Camera) : Camera :=
  mkCamera (__name c) (__handle c) (__is_open c) (__mode c) (__exp_time c)
    (__binning c) (__roi c) v (__stream_saver c) (__stream_mode c)
    (__exp_mode c) (__exp_out_mode c).
Definition with_stream_saver (v : option StreamSaver) (c : Camera) : Camera :=
  mkCamera (__name c) (__handle c) (__is_open c) (__mode c) (__exp_time c)
    (__binning c) (__roi c) (__shape c) v (__stream_mode c) (__exp_mode c)
    (__exp_out_mode c).
Definition with_stream_mode (v : option string) (c : Camera) : Camera :=
  mkCamera (__name c) (__handle c) (__is_open c) (__mode c) (__exp_time c)
    (__binning c) (__roi c) (__shape c) (__stream_saver c) v (__exp_mode c)
    (__exp_out_mode c).
Definition with_exp_mode (v : option Z) (c : Camera) : Camera :=
  mkCamera (__name c) (__handle c) (__is_open c) (__mode c) (__exp_time c)
    (__binning c) (__roi c) (__shape c) (__stream_saver c) (__stream_mode c) v
    (__exp_out_mode c).
Definition with_exp_out_mode (v : option Z) (c : Camera) : Camera :=
  mkCamera (__name c) (__handle c) (__is_open c) (__mode c) (__exp_time c)
    (__binning c) (__roi c) (__shape c) (__stream_saver c) (__stream_mode c)
    (__exp_mode c) v.

(** ** The monad of methods *)

Inductive outcome (A : Type) :=
  | Return (a : A)
  | Raise (e : exn).
Arguments Return {A} a.
Arguments Raise {A} e.

Definition St : Type := Camera * World.

Definition Py (A : Type) : Type := St → outcome A * St.

Global Instance Py_ret : MRet Py := λ A a s, (Return a, s).

Global Instance Py_bind : MBind Py := λ A B f m s,
  match m s with
  | (Return a, s') => f a s'
  | (Raise e, s') => (Raise e, s')
  end.

Definition raise {A} (e : exn) : Py A := λ s, (Raise e, s).

(** [self.attr]. *)
Definition self {A} (attr : Camera → A) : Py A := λ s, (Return (attr s.1), s).

(** [self.attr = v], as an update of the object. *)
Definition assign (upd : Camera → Camera) : Py unit :=
  λ s, (Return (), (upd s.1, s.2)).

Definition world {A} (field : World → A) : Py A := λ s, (Return (field s.2), s).

(** [try: body  except: handler] with a bare except clause, which catches
    every exception. *)
Definition try_except {A} (body handler : Py A) : Py A := λ s,
  match body s with
  | (Return a, s') => (Return a, s')
  | (Raise _, s') => handler s'
  end.

(** [try: body  except E: handler]. *)
Definition try_except_on {A} (E : exn) (body handler : Py A) : Py A := λ s,
  match body s with
  | (Return a, s') => (Return a, s')
  | (Raise e, s') => if decide (e = E) then handler s' else (Raise e, s')
  end.

(** [a and b], evaluated left to right with short circuit. *)
Definition and_then (a b : Py bool) : Py bool :=
  x ← a; if (x : bool) then b else mret false.

(** Unwrapping of a value that is [None] when the Python expression raises
    [e] (subscripting None, calling a method of None, a missing key). *)
Definition or_raise {A} (e : exn) (o : option A) : Py A :=
  match o with Some a => mret a | None => raise e end.

Definition lift_sum {A} (r : exn + A) : Py A :=
  match r with inl e => raise e | inr a => mret a end.

(** An effectful call to a collaborator: it is logged, it raises when the
    fault script says so, and otherwise it has its effect on the world. *)
Definition external (c : call) (effect : World → World) : Py unit := λ s,
  let w := with_calls (calls s.2 ++ [c]) s.2 in
  match faults w with
  | Some e :: fs => (Raise e, (s.1, with_faults fs w))
  | None :: fs => (Return (), (s.1, effect (with_faults fs w)))
  | [] => (Return (), (s.1, effect w))
  end.

(** ** The pvc module *)

(** Modelled from the spec: [pvc.get_param(handle, id, ATTR_CURRENT)]
    returns the current value of the parameter and raises AttributeError for
    a parameter the camera does not support; it has no effect. *)
Definition pvc_get_param (h : Z) (id : param) : Py Z :=
  p ← world params; or_raise AttributeError (p !! id).

(** Modelled from the spec: [pvc.set_param(handle, id, value)] makes [value]
    the current value of the parameter, unless the driver rejects the
    call. *)
Definition pvc_set_param (h : Z) (id : param) (value : Z) : Py unit :=
  external (Call_set_param h id value)
           (λ w, with_params (<[id := value]> (params w)) w).

(** Modelled from the spec: [pvc.read_enum(handle, id)] returns the
    name -> value dictionary of an enumerated parameter. *)
Definition pvc_read_enum (h : Z) (id : param) : Py (gmap string Z) :=
  e ← world enums; or_raise AttributeError (e !! id).

(** Modelled from the spec: [pvc.set_exp_modes(handle, mode)] arms the device
    with the composed mode. *)
Definition pvc_set_exp_modes (h : Z) (mode : Z) : Py unit :=
  external (Call_set_exp_modes h mode) id.

(** Modelled from the spec: [pvc.get_frame(...)] is one blocking capture; the
    buffer it returns is named after the position of the call in the log. *)
Definition pvc_get_frame (h x0 x1 bx y0 y1 by_ exp : Z) (mode : option Z)
  : Py frame :=
  n ← world (λ w, length (calls w));
  external (Call_get_frame h x0 x1 bx y0 y1 by_ exp mode) id;;
  mret n.

(** Modelled from the spec: [pvc.close_camera(handle)]. *)
Definition pvc_close_camera (h : Z) : Py unit :=
  external (Call_close_camera h) id.

(** ** Parameter access (camera.py, lines 129-185) *)

(** [Camera.get_param(param_id)], with the default attribute ATTR_CURRENT;
    it reads the handle through the [handle] property. *)
Definition get_param (param_id : param) : Py Z :=
  h ← self __handle; pvc_get_param h param_id.

Definition set_param (param_id : param) (value : Z) : Py unit :=
  h ← self __handle; pvc_set_param h param_id value.

Definition read_enum (param_id : param) : Py (gmap string Z) :=
  h ← self __handle; pvc_read_enum h param_id.

(** ** Geometry: binning, region of interest, shape *)

(** The [bin_x], [bin_y], [sensor_size] properties. *)
Definition bin_x : Py Z := b ← self __binning; mret b.1.
Definition bin_y : Py Z := b ← self __binning; mret b.2.

Definition sensor_size : Py (Z * Z) :=
  ser ← get_param PARAM_SER_SIZE;
  par ← get_param PARAM_PAR_SIZE;
  mret (ser, par).

(** [Camera.calculate_reshape] (lines 203-216). *)
Definition calculate_reshape : Py unit :=
  r ← self __roi;
  '(x_start, x_end, y_start, y_end) ← or_raise TypeError r;
  let width := x_end - x_start in
  let height := y_end - y_start in
  bx ← bin_x;
  sx ← lift_sum (int_truediv width bx);
  by_ ← bin_y;
  sy ← lift_sum (int_truediv height by_);
  assign (with_shape (Some (sx, sy))).

(** The guard of the [roi] setter:
    [isinstance(value, tuple) and all(isinstance(x, int) for x in value)
     and len(value) == 4], with the four integers when it holds. *)
Definition roi_tuple (value : pyobj) : option (Z * Z * Z * Z) :=
  match value with
  | PTuple items =>
      match mapM as_int items with
      | Some [a; b; c; d] => Some (a, b, c, d)
      | _ => None
      end
  | _ => None
  end.

(** [v in range(0, self.sensor_size[axis] + 1)]: every test reads the
    sensor size from the driver again. *)
Definition in_sensor (v : Z) (axis : Z * Z → Z) : Py bool :=
  s ← sensor_size; mret (in_range v 0 (axis s + 1)).

(** The inner condition of the [roi] setter (lines 767-770). *)
Definition inside_sensor (v0 v1 v2 v3 : Z) : Py bool :=
  and_then (in_sensor v0 fst)
    (and_then (in_sensor v1 fst)
      (and_then (in_sensor v2 snd) (in_sensor v3 snd))).

(** The [roi] setter (lines 760-778). *)
Definition set_roi (value : pyobj) : Py unit :=
  match roi_tuple value with
  | Some (v0, v1, v2, v3) =>
      inside ← inside_sensor v0 v1 v2 v3;
      if (inside : bool) then
        assign (with_roi (Some (v0, v1, v2, v3)));;
        calculate_reshape
      else raise ValueError
  | None => raise ValueError
  end.

(** The [bin_x] setter (lines 730-739).  The message of the error is built
    from a second read of the enumeration. *)
Definition set_bin_x (value : pyobj) : Py unit :=
  vals ← read_enum PARAM_BINNING_SER;
  match in_values value vals with
  | Some v =>
      b ← self __binning;
      assign (with_binning (v, b.2));;
      calculate_reshape
  | None => read_enum PARAM_BINNING_SER;; raise ValueError
  end.

(** The [bin_y] setter (lines 745-754): the value is looked up in the
    parallel enumeration, the message lists the serial one. *)
Definition set_bin_y (value : pyobj) : Py unit :=
  vals ← read_enum PARAM_BINNING_PAR;
  match in_values value vals with
  | Some v =>
      b ← self __binning;
      assign (with_binning (b.1, v));;
      calculate_reshape
  | None => read_enum PARAM_BINNING_SER;; raise ValueError
  end.

(** [value[i]] on a tuple. *)
Definition subscript (items : list pyobj) (i : nat) : Py pyobj :=
  or_raise IndexError (items !! i).

(** The [binning] setter (lines 712-724): a tuple goes through the two axis
    setters in turn, any other value is a symmetric binning. *)
Definition set_binning (value : pyobj) : Py unit :=
  match value with
  | PTuple items =>
      v0 ← subscript items 0; set_bin_x v0;;
      v1 ← subscript items 1; set_bin_y v1
  | _ =>
      vals ← read_enum PARAM_BINNING_SER;
      match in_values value vals with
      | Some v =>
          assign (with_binning (v, v));;
          calculate_reshape
      | None => read_enum PARAM_BINNING_SER;; raise ValueError
      end
  end.

(** ** Exposure modes and exposure resolution *)

Section constants.
(** The name -> value tables [exp_resolutions], [exp_modes] and
    [exp_out_modes] of constants.py. *)
Context (exp_resolutions exp_modes exp_out_modes : gmap string Z).

(** [Camera.update_mode] (lines 218-234). *)
Definition update_mode : Py unit :=
  em ← self __exp_mode; em ← or_raise AttributeError em;
  eom ← self __exp_out_mode; eom ← or_raise AttributeError eom;
  assign (with_mode (Some (Z.lor em eom)));;
  h ← self __handle;
  m ← self __mode; m ← or_raise TypeError m;
  pvc_set_exp_modes h m.

(** The [exp_mode] setter (lines 844-874): by name, or by value. *)
Definition set_exp_mode (value : pyobj) : Py unit :=
  match value with
  | PStr name =>
      match exp_modes !! name with
      | None => raise ValueError
      | Some v => assign (with_exp_mode (Some v));; update_mode
      end
  | _ =>
      match in_values value exp_modes with
      | None => raise ValueError
      | Some v => assign (with_exp_mode (Some v));; update_mode
      end
  end.

(** The [exp_out_mode] setter (lines 880-908). *)
Definition set_exp_out_mode (value : pyobj) : Py unit :=
  match value with
  | PStr name =>
      match exp_out_modes !! name with
      | None => raise ValueError
      | Some v => assign (with_exp_out_mode (Some v));; update_mode
      end
  | _ =>
      match in_values value exp_out_modes with
      | None => raise ValueError
      | Some v => assign (with_exp_out_mode (Some v));; update_mode
      end
  end.

(** The [exp_res] property (lines 788-817). *)
Definition exp_res : Py Z := get_param PARAM_EXP_RES.

Definition set_exp_res (value : pyobj) : Py unit :=
  match value with
  | PStr name =>
      match exp_resolutions !! name with
      | None => raise ValueError
      | Some v => set_param PARAM_EXP_RES v
      end
  | _ =>
      match in_values value exp_resolutions with
      | None => raise ValueError
      | Some v => set_param PARAM_EXP_RES v
      end
  end.

(** The [vtm_exp_time] setter (lines 914-919). *)
Definition set_vtm_exp_time (value : Z) : Py unit :=
  if in_range value 0 (2 ^ 16) then set_param PARAM_EXP_TIME value
  else raise ValueError.

(** ** The VTM sequence (lines 283-324) *)

(** The validation loop over [time_list]. *)
Fixpoint check_times (time_list : list Z) : Py unit :=
  match time_list with
  | [] => mret ()
  | t :: rest =>
      if in_range t 0 (2 ^ 16) then check_times rest else raise ValueError
  end.

(** [np.empty(dims)] refuses a negative dimension. *)
Definition np_empty (dims : list Z) : Py unit :=
  if forallb (Z.leb 0) dims then mret () else raise ValueError.

(** [time.sleep(ms / 1000)] refuses a negative length. *)
Definition time_sleep (ms : Z) : Py unit := λ s,
  if ms <? 0 then (Raise ValueError, s)
  else (Return (), (s.1, with_calls (calls s.2 ++ [Call_sleep ms]) s.2)).

(** [self.vtm_exp_time = next(t)] on an iterator [t] over a list, given by
    the elements it has not produced yet; the result is the iterator
    after the step. *)
Definition next_exposure (t : list Z) : Py (list Z) :=
  match t with
  | [] => raise StopIteration
  | v :: rest => set_vtm_exp_time v;; mret rest
  end.

(** The body of [for i in range(num_frames)], for the [n] iterations that
    remain, with the local iterator [t]. *)
Fixpoint vtm_loop (time_list : list Z) (x_start x_end y_start y_end : Z)
    (interval : pyobj) (n : nat) (t : list Z) : Py (list frame) :=
  match n with
  | O => mret []
  | S n' =>
      t' ← try_except (next_exposure t) (next_exposure time_list);
      h ← self __handle;
      bx ← bin_x;
      by_ ← bin_y;
      exp ← self __exp_time;
      mode ← self __mode;
      f ← pvc_get_frame h x_start (x_end - 1) bx y_start (y_end - 1) by_
            exp mode;
      sh ← self __shape; or_raise TypeError sh;;
      match interval with PInt ms => time_sleep ms | _ => mret () end;;
      stack ← vtm_loop time_list x_start x_end y_start y_end interval n' t';
      mret (f :: stack)
  end.

Definition get_vtm_sequence (time_list : list Z) (res : pyobj)
    (num_frames : Z) (interval : pyobj) : Py (list frame) :=
  check_times time_list;;
  r ← self __roi;
  '(x_start, x_end, y_start, y_end) ← or_raise TypeError r;
  old_res ← exp_res;
  set_exp_res res;;
  sh ← self __shape; sh ← or_raise TypeError sh;
  np_empty [num_frames; sh.2; sh.1];;
  stack ← vtm_loop time_list x_start x_end y_start y_end interval
             (Z.to_nat num_frames) time_list;
  set_exp_res (PInt old_res);;
  mret stack.

End constants.

(** ** The acquisition lifecycle (lines 326-469) *)

(** Modelled from the spec: [os.path.isdir] and [os.mkdir]. *)
Definition os_path_isdir (d : string) : Py bool :=
  ds ← world dirs; mret (bool_decide (d ∈ ds)).

Definition os_mkdir (d : string) : Py unit :=
  external (Call_mkdir d) (λ w, with_dirs ({[d]} ∪ dirs w) w).

(** Modelled from the spec: the StreamSaver engine.  [pvc.StreamSaver()]
    makes a new, inactive engine; [start_acquisition] makes it active and it
    stays active until [join_acquisition] completes; [abort_acquisition]
    only asks it to stop; [acquisition_status] reads the flag. *)
Definition new_StreamSaver : Py StreamSaver :=
  e ← world engines;
  let s := Saver (fresh (dom e)) in
  external (Call_StreamSaver s)
           (λ w, with_engines (<[saver_id s := false]> (engines w)) w);;
  mret s.

Definition set_active (s : StreamSaver) (b : bool) (w : World) : World :=
  with_engines (<[saver_id s := b]> (engines w)) w.

Definition saver_attach_camera (s : StreamSaver) (name : string) : Py unit :=
  external (Call_attach_camera s name) id.

Definition saver_setup_acquisition (s : StreamSaver)
    (n exp res x0 x1 bx y0 y1 by_ : Z) (outdir : string) : Py unit :=
  external (Call_setup_acquisition s n exp res x0 x1 bx y0 y1 by_ outdir) id.

Definition saver_setup_live (s : StreamSaver)
    (exp res x0 x1 bx y0 y1 by_ : Z) : Py unit :=
  external (Call_setup_live s exp res x0 x1 bx y0 y1 by_) id.

Definition saver_start_acquisition (s : StreamSaver) : Py unit :=
  external (Call_start_acquisition s) (set_active s true).

Definition saver_abort_acquisition (s : StreamSaver) : Py unit :=
  external (Call_abort_acquisition s) id.

Definition saver_join_acquisition (s : StreamSaver) : Py unit :=
  external (Call_join_acquisition s) (set_active s false).

Definition saver_acquisition_status (s : StreamSaver) : Py bool :=
  e ← world engines; mret (default false (e !! saver_id s)).

Definition pvc_uninit_pvcam : Py unit := external Call_uninit_pvcam id.

(** [self.__stream_saver.method]: AttributeError when the attribute holds
    None. *)
Definition the_stream_saver : Py StreamSaver :=
  s ← self __stream_saver; or_raise AttributeError s.

(** [Camera.check_acquisition] (lines 437-447). *)
Definition check_acquisition : Py bool :=
  m ← self __stream_mode;
  match m with
  | None => mret false
  | Some _ => s ← the_stream_saver; saver_acquisition_status s
  end.

(** [Camera.abort_acquisition] (lines 449-458). *)
Definition abort_acquisition : Py unit :=
  m ← self __stream_mode;
  match m with
  | None => raise RuntimeError
  | Some _ => s ← the_stream_saver; saver_abort_acquisition s
  end.

(** [Camera.join_acquisition] (lines 460-469). *)
Definition join_acquisition : Py unit :=
  m ← self __stream_mode;
  match m with
  | None => raise RuntimeError
  | Some _ =>
      s ← the_stream_saver; saver_join_acquisition s;;
      assign (with_stream_mode None)
  end.

(** [Camera.stop_live] (lines 334-346). *)
Definition stop_live : Py unit :=
  m ← self __stream_mode;
  if decide (m ≠ Some "live"%string) then mret ()
  else try_except_on RuntimeError
         (abort_acquisition;; join_acquisition)
         (mret ()).

(** The creation of the engine, shared by the two start methods:
    [self.__stream_saver = pvc.StreamSaver(); pvc.uninit_pvcam();
     self.__stream_saver.attach_camera(self.name)]. *)
Definition create_stream_saver : Py unit :=
  s ← new_StreamSaver;
  assign (with_stream_saver (Some s));;
  pvc_uninit_pvcam;;
  s ← the_stream_saver;
  name ← self __name;
  saver_attach_camera s name.

(** [Camera.start_live_acquisition] (lines 391-411). *)
Definition start_live_acquisition : Py unit :=
  r ← self __roi;
  '(x_start, x_end, y_start, y_end) ← or_raise TypeError r;
  sv ← self __stream_saver;
  match sv with
  | None => create_stream_saver
  | Some _ => mret ()
  end;;
  s ← the_stream_saver;
  exp ← self __exp_time;
  bx ← bin_x;
  by_ ← bin_y;
  saver_setup_live s exp 0 x_start (x_end - 1) bx y_start (y_end - 1) by_;;
  s ← the_stream_saver;
  saver_start_acquisition s;;
  assign (with_stream_mode (Some "live"%string)).

(** [Camera.start_live] (lines 326-332). *)
Definition start_live : Py unit :=
  active ← check_acquisition;
  if (active : bool) then mret () else start_live_acquisition.

(** [Camera.start_acquisition] (lines 357-389). *)
Definition start_acquisition (num_frames : Z) (outdir : string) : Py unit :=
  isdir ← os_path_isdir outdir;
  (if (isdir : bool) then mret () else os_mkdir outdir);;
  r ← self __roi;
  '(x_start, x_end, y_start, y_end) ← or_raise TypeError r;
  sv ← self __stream_saver;
  m ← self __stream_mode;
  match sv with
  | None => create_stream_saver
  | Some _ =>
      if decide (m = Some "live"%string) then stop_live
      else if decide (m ≠ None) then raise RuntimeError
      else mret ()
  end;;
  s ← the_stream_saver;
  exp ← self __exp_time;
  bx ← bin_x;
  by_ ← bin_y;
  saver_setup_acquisition s num_frames exp 0 x_start (x_end - 1) bx
    y_start (y_end - 1) by_ outdir;;
  s ← the_stream_saver;
  saver_start_acquisition s;;
  assign (with_stream_mode (Some "acquisition"%string)).

(** [Camera.close] (lines 111-127): the whole body is under a bare except
    clause that raises RuntimeError. *)
Definition close : Py unit :=
  try_except
    (h ← self __handle;
     pvc_close_camera h;;
     assign (with_handle (-1));;
     assign (with_is_open false);;
     assign (with_stream_saver None))
    (raise RuntimeError).

(** ** Single capture and version (lines 236-254, 484-493, 910-912) *)

(** [Camera.get_frame(exp_time)]: the exposure time of the call is the
    argument when it is an int, the stored one otherwise.  The reshape needs
    the stored shape; [np.copy] returns the frame. *)
Definition get_frame (exp_time : pyobj) : Py frame :=
  r ← self __roi;
  '(x_start, x_end, y_start, y_end) ← or_raise TypeError r;
  exp ← match exp_time with PInt t => mret t | _ => self __exp_time end;
  h ← self __handle;
  bx ← bin_x;
  by_ ← bin_y;
  mode ← self __mode;
  f ← pvc_get_frame h x_start (x_end - 1) bx y_start (y_end - 1) by_ exp mode;
  sh ← self __shape; or_raise TypeError sh;;
  mret f.

(** The [vtm_exp_time] property. *)
Definition vtm_exp_time : Py Z := get_param PARAM_EXP_TIME.

(** The string that the [driver_version] property builds from the value
    [dd_ver] that the driver reports for PARAM_DD_VERSION:
    ['{}.{}.{}'.format(dd_ver & 0xff00 >> 8, dd_ver & 0x00f0 >> 4,
                       dd_ver & 0x000f)].
    In Python [>>] binds tighter than [&]. *)
Definition driver_version (dd_ver : Z) : string :=
  pretty (Z.land dd_ver (Z.shiftr 0xff00 8)) +:+ "." +:+
  pretty (Z.land dd_ver (Z.shiftr 0x00f0 4)) +:+ "." +:+
  pretty (Z.land dd_ver 0x000f).

(** * Vocabulary of the properties *)

(** The shape that [calculate_reshape] derives from a region and a
    binning: both quotients are truncated toward zero. *)
Definition shape_of (roi : Z * Z * Z * Z) (binning : Z * Z) : Z * Z :=
  let '(x_start, x_end, y_start, y_end) := roi in
  ((x_end - x_start) `quot` binning.1, (y_end - y_start) `quot` binning.2).

(** The stored shape is the one derived from the stored region and
    binning. *)
Definition shape_fresh (c : Camera) : Prop :=
  ∃ roi, __roi c = Some roi ∧ __shape c = Some (shape_of roi (__binning c)).

(** The four range tests of the [roi] setter against a sensor of
    [sw] x [sh] pixels. *)
Definition roi_inside (roi : Z * Z * Z * Z) (sw sh : Z) : bool :=
  let '(v0, v1, v2, v3) := roi in
  in_range v0 0 (sw + 1) && in_range v1 0 (sw + 1) &&
  in_range v2 0 (sh + 1) && in_range v3 0 (sh + 1).

(** The three scalar binning setters share one body: look the value up in
    the enumeration [chk], store the binning [upd v b], recompute the shape;
    or read the enumeration [msg] for the message and raise. *)
Definition axis_setter (chk msg : param) (upd : Z → Z * Z → Z * Z)
    (value : pyobj) : Py unit :=
  vals ← read_enum chk;
  match in_values value vals with
  | Some v =>
      b ← self __binning;
      assign (with_binning (upd v b));;
      calculate_reshape
  | None => read_enum msg;; raise ValueError
  end.

(** The calls that change the geometry. *)
Inductive geometry_call :=
  | Set_roi (value : pyobj)
  | Set_binning (value : pyobj)
  | Set_bin_x (value : pyobj)
  | Set_bin_y (value : pyobj).

Definition run_geometry (k : geometry_call) : Py unit :=
  match k with
  | Set_roi value => set_roi value
  | Set_binning value => set_binning value
  | Set_bin_x value => set_bin_x value
  | Set_bin_y value => set_bin_y value
  end.

(** The shape that the specification words give: both quotients rounded
    down. *)
Definition floor_shape (c : Camera) : Prop :=
  ∃ x0 x1 y0 y1, __roi c = Some (x0, x1, y0, y1) ∧
    __shape c = Some ((x1 - x0) `div` (__binning c).1,
                      (y1 - y0) `div` (__binning c).2).

(** A driver for a 2048 x 2048 sensor with the binnings 1 and 2 on both
    axes and the exposure resolution 0, no fault scripted, empty log. *)
Definition demo_world : World :=
  {| params := <[PARAM_SER_SIZE := 2048]> (<[PARAM_PAR_SIZE := 2048]>
                 (<[PARAM_EXP_RES := 0]> ∅));
     enums := <[PARAM_BINNING_SER := <["1x1" := 1]> (<["2x2" := 2]> ∅)]>
                (<[PARAM_BINNING_PAR := <["1x1" := 1]> (<["2x2" := 2]> ∅)]> ∅);
     engines := ∅; dirs := ∅; faults := []; calls := [] |}.

(** An open camera on that sensor: full-frame region, binning (1,1),
    exposure time 10, no session. *)
Definition demo_camera : Camera :=
  {| __name := "cam0"; __handle := 0; __is_open := true;
     __mode := Some 0; __exp_time := 10;
     __binning := (1, 1); __roi := Some (0, 2048, 0, 2048);
     __shape := Some (2048, 2048);
     __stream_saver := None; __stream_mode := None;
     __exp_mode := Some 0; __exp_out_mode := Some 0 |}.

(** The camera of [demo_camera] after [binning = 2]. *)
Definition binned_camera : Camera :=
  with_shape (Some (1024, 1024)) (with_binning (2, 2) demo_camera).

(** The calls of the binning setters. *)
Definition binning_call (k : geometry_call) : bool :=
  match k with Set_roi _ => false | _ => true end.

(** The world after a call [k] that succeeded with the effect [effect],
    [fs] being what is left of the fault script. *)
Definition called (k : call) (effect : World → World)
    (fs : list (option exn)) (w : World) : World :=
  effect (with_faults fs (with_calls (calls w ++ [k]) w)).

(** The value that a mode setter stores for an argument: the entry of the
    table for a name, the integer itself when it is one of the values. *)
Definition mode_value (table : gmap string Z) (value : pyobj) : option Z :=
  match value with
  | PStr name => table !! name
  | _ => in_values value table
  end.

(** The calls of the mode composer. *)
Inductive mode_call :=
  | Set_exp_mode (value : pyobj)
  | Set_exp_out_mode (value : pyobj).

Definition run_mode (exp_modes exp_out_modes : gmap string Z)
    (k : mode_call) : Py unit :=
  match k with
  | Set_exp_mode value => set_exp_mode exp_modes value
  | Set_exp_out_mode value => set_exp_out_mode exp_out_modes value
  end.

(** Tables in the style of constants.py. *)
Definition demo_exp_modes : gmap string Z :=
  <["Timed" := 1792]> (<["Ext Trig Internal" := 2048]> ∅).
Definition demo_exp_out_modes : gmap string Z :=
  <["First Row" := 0]> (<["All Rows" := 1]> (<["Any Row" := 2]> ∅)).
Definition demo_exp_resolutions : gmap string Z :=
  <["One Millisecond" := 0]> (<["One Microsecond" := 1]> ∅).

(** The demo camera in a live session, in a sequence session, and closed
    during the sequence session. *)
Definition live_camera : Camera :=
  with_stream_mode (Some "live"%string)
    (with_stream_saver (Some (Saver 0)) demo_camera).

Definition live_calls : list call :=
  [Call_StreamSaver (Saver 0); Call_uninit_pvcam;
   Call_attach_camera (Saver 0) "cam0";
   Call_setup_live (Saver 0) 10 0 0 2047 1 0 2047 1;
   Call_start_acquisition (Saver 0)].

Definition live_world : World :=
  with_calls live_calls (with_engines {[0%nat := true]} demo_world).

Definition sequence_camera : Camera :=
  with_stream_mode (Some "acquisition"%string)
    (with_stream_saver (Some (Saver 0)) demo_camera).

Definition sequence_calls : list call :=
  [Call_mkdir "/tmp/out"; Call_StreamSaver (Saver 0); Call_uninit_pvcam;
   Call_attach_camera (Saver 0) "cam0";
   Call_setup_acquisition (Saver 0) 100 10 0 0 2047 1 0 2047 1 "/tmp/out";
   Call_start_acquisition (Saver 0)].

Definition sequence_world : World :=
  with_calls sequence_calls
    (with_dirs {["/tmp/out"%string]}
       (with_engines {[0%nat := true]} demo_world)).

Definition closed_camera : Camera :=
  with_stream_saver None
    (with_is_open false (with_handle (-1) sequence_camera)).

Definition closed_world : World :=
  with_calls (sequence_calls ++ [Call_close_camera 0]) sequence_world.

(** A sequence session is running: the state tag says so and the attached
    engine reports that it is active. *)
Definition sequence_running (c : Camera) (w : World) : Prop :=
  __stream_mode c = Some "acquisition"%string ∧
  ∃ s, __stream_saver c = Some s ∧ engines w !! saver_id s = Some true.

(** The call [os.mkdir(outdir)] that [start_acquisition] issues when the
    directory does not exist. *)
Definition mkdir_calls (outdir : string) (w : World) : list call :=
  if bool_decide (outdir ∈ dirs w) then [] else [Call_mkdir outdir].

(** The [setup_acquisition] call of [start_acquisition] on the engine [s]. *)
Definition setup_call (s : StreamSaver) (num_frames : Z) (outdir : string)
    (c : Camera) (roi : Z * Z * Z * Z) : call :=
  let '(x_start, x_end, y_start, y_end) := roi in
  Call_setup_acquisition s num_frames (__exp_time c) 0
    x_start (x_end - 1) (__binning c).1
    y_start (y_end - 1) (__binning c).2 outdir.

(** No fault among the first [m] entries of a script. *)
Definition quiet (m : nat) (fs : list (option exn)) : Prop :=
  Forall (λ f, f = None) (take m fs).

(** [w'] extends [w]: calls were appended to the log and the exposure
    resolution held by the driver is the same. *)
Definition extends (w w' : World) : Prop :=
  params w' !! PARAM_EXP_RES = params w !! PARAM_EXP_RES ∧
  ∃ l, calls w' = calls w ++ l.

(** A computation that leaves the object alone and only extends the
    world. *)
Definition keeps {A} (m : Py A) : Prop :=
  ∀ c w r c' w', m (c, w) = (r, (c', w')) → c' = c ∧ extends w w'.

(** The exposure time of frame [i]: [time_list[i mod len(time_list)]]. *)
Definition schedule (time_list : list Z) (i : nat) : Z :=
  default 0 (time_list !! (i mod length time_list)%nat).

(** The calls of one frame: the exposure time, then the capture, then the
    sleep when an interval is given. *)
Definition frame_calls (c : Camera) (roi : Z * Z * Z * Z) (interval : pyobj)
    (t : Z) : list call :=
  let '(x_start, x_end, y_start, y_end) := roi in
  [Call_set_param (__handle c) PARAM_EXP_TIME t;
   Call_get_frame (__handle c) x_start (x_end - 1) (__binning c).1
     y_start (y_end - 1) (__binning c).2 (__exp_time c) (__mode c)] ++
  match interval with PInt ms => [Call_sleep ms] | _ => [] end.

(** The local iterator [t] at the start of iteration [i]: it has produced
    [k] elements of [time_list], with [k] congruent to [i]. *)
Definition iter_ok (time_list t : list Z) (i : nat) : Prop :=
  ∃ k, t = drop k time_list ∧ (k ≤ length time_list)%nat ∧
       (k mod length time_list = i mod length time_list)%nat.

(** A list of times that passes the validation loop. *)
Definition valid_times (time_list : list Z) : Prop :=
  Forall (λ t, 0 ≤ t < 2 ^ 16) time_list.

(** An interval that [time.sleep] accepts. *)
Definition valid_interval (interval : pyobj) : Prop :=
  ∀ ms, interval = PInt ms → 0 ≤ ms.

(** The run of the specification: [get_vtm_sequence([10, 20, 30], 1, 7)] on
    the demo camera, whose resolution is 0 on entry. *)
Definition vtm_demo_calls : list call :=
  [Call_set_param 0 PARAM_EXP_RES 1;
   Call_set_param 0 PARAM_EXP_TIME 10;
   Call_get_frame 0 0 2047 1 0 2047 1 10 (Some 0);
   Call_set_param 0 PARAM_EXP_TIME 20;
   Call_get_frame 0 0 2047 1 0 2047 1 10 (Some 0);
   Call_set_param 0 PARAM_EXP_TIME 30;
   Call_get_frame 0 0 2047 1 0 2047 1 10 (Some 0);
   Call_set_param 0 PARAM_EXP_TIME 10;
   Call_get_frame 0 0 2047 1 0 2047 1 10 (Some 0);
   Call_set_param 0 PARAM_EXP_TIME 20;
   Call_get_frame 0 0 2047 1 0 2047 1 10 (Some 0);
   Call_set_param 0 PARAM_EXP_TIME 30;
   Call_get_frame 0 0 2047 1 0 2047 1 10 (Some 0);
   Call_set_param 0 PARAM_EXP_TIME 10;
   Call_get_frame 0 0 2047 1 0 2047 1 10 (Some 0);
   Call_set_param 0 PARAM_EXP_RES 0].

Definition vtm_demo_world : World :=
  with_calls vtm_demo_calls
    (with_params (<[PARAM_EXP_TIME := 10]> (params demo_world)) demo_world).

(** The same call when the second capture fails. *)
Definition faulty_world : World :=
  with_faults [None; None; None; None; Some RuntimeError] demo_world.

(** The stored region, when there is one, lies inside the sensor whose
    size the driver reports. *)
Definition roi_in_sensor (c : Camera) (w : World) : Prop :=
  ∀ roi, __roi c = Some roi →
    ∃ sw sh, params w !! PARAM_SER_SIZE = Some sw ∧
             params w !! PARAM_PAR_SIZE = Some sh ∧
             roi_inside roi sw sh = true.

(** The driver enumerates no binning factor 0. *)
Definition no_zero_binning (w : World) : Prop :=
  ∀ id d, id = PARAM_BINNING_SER ∨ id = PARAM_BINNING_PAR →
    enums w !! id = Some d → 0 ∉ (map_img d : gset Z).

(** The geometry is consistent: the binning factors are not zero and the
    stored shape is the one derived from the stored region and binning. *)
Definition geometry_ok (c : Camera) : Prop :=
  shape_fresh c ∧ (__binning c).1 ≠ 0 ∧ (__binning c).2 ≠ 0.

(** The stored mode is the bitwise or of the two stored sub-modes. *)
Definition mode_consistent (c : Camera) : Prop :=
  ∃ em eom, __exp_mode c = Some em ∧ __exp_out_mode c = Some eom ∧
            __mode c = Some (Z.lor em eom).

(** The calls of the acquisition lifecycle, [close] apart. *)
Inductive lifecycle_call :=
  | Start_live
  | Start_acquisition (num_frames : Z) (outdir : string)
  | Stop_live
  | Abort_acquisition
  | Join_acquisition.

Definition run_lifecycle (k : lifecycle_call) : Py unit :=
  match k with
  | Start_live => start_live
  | Start_acquisition num_frames outdir => start_acquisition num_frames outdir
  | Stop_live => stop_live
  | Abort_acquisition => abort_acquisition
  | Join_acquisition => join_acquisition
  end.

(** An engine is attached whenever the state tag names a session. *)
Definition attached_when_active (c : Camera) : Prop :=
  __stream_mode c ≠ None → is_Some (__stream_saver c).

(** The engine-creation calls of the two start methods. *)
Definition creation_calls (c : Camera) (s : StreamSaver) : list call :=
  match __stream_saver c with
  | Some _ => []
  | None => [Call_StreamSaver s; Call_uninit_pvcam;
             Call_attach_camera s (__name c)]
  end.

(** The capture call of [get_frame] with the exposure time [exp]. *)
Definition capture_call (c : Camera) (roi : Z * Z * Z * Z) (exp : Z) : call :=
  let '(x_start, x_end, y_start, y_end) := roi in
  Call_get_frame (__handle c) x_start (x_end - 1) (__binning c).1
    y_start (y_end - 1) (__binning c).2 exp (__mode c).

(** The exposure time that [get_frame] uses. *)
Definition frame_exposure (c : Camera) (exp_time : pyobj) : Z :=
  match exp_time with PInt t => t | _ => __exp_time c end.

(** The driver of [demo_world] with a serial binning 4 that the parallel
    enumeration does not have. *)
Definition wide_serial_world : World :=
  {| params := params demo_world;
     enums := <[PARAM_BINNING_SER :=
                  <["1x1" := 1]> (<["2x2" := 2]> (<["4x4" := 4]> ∅))]>
                (<[PARAM_BINNING_PAR := <["1x1" := 1]> (<["2x2" := 2]> ∅)]> ∅);
     engines := ∅; dirs := ∅; faults := []; calls := [] |}.

(** [w'] is [w] but for the driver parameters [ids] and for calls appended
    to the log. *)
Definition unchanged_but (ids : list param) (w w' : World) : Prop :=
  (∀ id, id ∉ ids → params w' !! id = params w !! id) ∧
  enums w' = enums w ∧ engines w' = engines w ∧ dirs w' = dirs w ∧
  ∃ l, calls w' = calls w ++ l.

(** A computation that leaves the object alone and, in the world, writes
    at most the driver parameters [ids] and appends to the log. *)
Definition touches_only {A} (ids : list param) (m : Py A) : Prop :=
  ∀ c w r c' w', m (c, w) = (r, (c', w')) → c' = c ∧ unchanged_but ids w w'.

(** The [setup_live] call of [start_live_acquisition] on the engine [s]. *)
Definition live_setup_call (s : StreamSaver) (c : Camera)
    (roi : Z * Z * Z * Z) : call :=
  let '(x_start, x_end, y_start, y_end) := roi in
  Call_setup_live s (__exp_time c) 0
    x_start (x_end - 1) (__binning c).1
    y_start (y_end - 1) (__binning c).2.

(** From [c] to [c'] an attached engine stayed attached, and the state tag
    is as it was, or cleared, or an engine is attached. *)
Definition engine_kept (c c' : Camera) : Prop :=
  (∀ s, __stream_saver c = Some s → __stream_saver c' = Some s) ∧
  (__stream_mode c' = __stream_mode c ∨ __stream_mode c' = None ∨
   is_Some (__stream_saver c')).

(** A computation that keeps the engine, whatever its outcome. *)
Definition keeps_engine {A} (m : Py A) : Prop :=
  ∀ c w r c' w', m (c, w) = (r, (c', w')) → engine_kept c c'.

(** The demo camera after a live session that was stopped: the engine is
    attached and inactive. *)
Definition stopped_camera : Camera :=
  with_stream_saver (Some (Saver 0)) demo_camera.

Definition stopped_world : World :=
  with_calls (live_calls ++ [Call_abort_acquisition (Saver 0);
                             Call_join_acquisition (Saver 0)])
    (with_engines {[0%nat := false]} demo_world).

(** A computation that never writes the object. *)
Definition object_kept {A} (m : Py A) : Prop :=
  ∀ c w r c' w', m (c, w) = (r, (c', w')) → c' = c.

(** * Properties *)

(** The scenario of the specification: binning (2,2) then ROI
    (0,1024,0,1024). *)
Example scenario_shape :
  let s1 := (set_binning (PTuple [PInt 2; PInt 2]) (demo_camera, demo_world)).2 in
  let s2 := (set_roi (PTuple [PInt 0; PInt 1024; PInt 0; PInt 1024]) s1).2 in
  __shape s1.1 = Some (1024, 1024) ∧ __shape s2.1 = Some (512, 512).
Proof. split; reflexivity. Qed.

(** A bind that produced a result either ran both halves or stopped at an
    exception of the first. *)
Lemma bind_inv {A B} (m : Py A) (f : A → Py B) s r s' :
  (m ≫= f) s = (r, s') →
  (∃ a s1, m s = (Return a, s1) ∧ f a s1 = (r, s'))
  ∨ (∃ e, m s = (Raise e, s') ∧ r = Raise e).
Proof.
  unfold mbind, Py_bind. destruct (m s) as [[a|e] s1].
  - intros H. left. by exists a, s1.
  - intros [= <- <-]. right. by exists e.
Qed.

Lemma bind_Return {A B} (m : Py A) (f : A → Py B) s a s1 :
  m s = (Return a, s1) → (m ≫= f) s = f a s1.
Proof. intros H. unfold mbind, Py_bind. by rewrite H. Qed.

Lemma bind_Raise {A B} (m : Py A) (f : A → Py B) s e s1 :
  m s = (Raise e, s1) → (m ≫= f) s = (Raise e, s1).
Proof. intros H. unfold mbind, Py_bind. by rewrite H. Qed.

(** Unfolding of the monad and of the attribute accessors. *)
Ltac py_unfold :=
  unfold and_then, or_raise, lift_sum, self, assign, world, raise,
    try_except, try_except_on, mbind, mret, Py_bind, Py_ret in *.

Ltac py_step := py_unfold; cbn -[Z.quot Z.lor Z.pow] in *.

(** ** Geometry *)

(** What one call of [calculate_reshape] does: it never touches the world;
    it returns with the shape rewritten, or raises something other than
    ValueError with the object as it was. *)
Lemma calculate_reshape_inv c w r c' w' :
  calculate_reshape (c, w) = (r, (c', w')) →
  w' = w ∧
  ((r = Return () ∧ (__binning c).1 ≠ 0 ∧ (__binning c).2 ≠ 0 ∧
    ∃ roi, __roi c = Some roi ∧
           c' = with_shape (Some (shape_of roi (__binning c))) c)
   ∨ (∃ e, r = Raise e ∧ e ≠ ValueError ∧ c' = c)).
Proof.
  unfold calculate_reshape, bin_x, bin_y, int_truediv. py_step.
  destruct (__roi c) as [[[[x0 x1] y0] y1]|] eqn:Hroi; cbn -[Z.quot].
  - destruct (decide ((__binning c).1 = 0)) as [Hx|Hx]; cbn -[Z.quot].
    { intros [= <- <- <-]. split; [done|]. right. by exists ZeroDivisionError. }
    destruct (decide ((__binning c).2 = 0)) as [Hy|Hy]; cbn -[Z.quot].
    { intros [= <- <- <-]. split; [done|]. right. by exists ZeroDivisionError. }
    intros [= <- <- <-]. split; [done|]. left.
    repeat split; try done. by exists (x0, x1, y0, y1).
  - intros [= <- <- <-]. split; [done|]. right. by exists TypeError.
Qed.

Lemma calculate_reshape_Return c w roi :
  __roi c = Some roi → (__binning c).1 ≠ 0 → (__binning c).2 ≠ 0 →
  calculate_reshape (c, w)
  = (Return (), (with_shape (Some (shape_of roi (__binning c))) c, w)).
Proof.
  intros Hroi Hx Hy.
  unfold calculate_reshape, bin_x, bin_y, int_truediv. py_step.
  rewrite Hroi. destruct roi as [[[x0 x1] y0] y1]. cbn -[Z.quot].
  destruct (decide ((__binning c).1 = 0)); [done|]. cbn -[Z.quot].
  destruct (decide ((__binning c).2 = 0)); [done|]. done.
Qed.

(** Reads of the driver leave the state alone and can only raise
    AttributeError. *)
Lemma get_param_inv id c w r s' :
  get_param id (c, w) = (r, s') →
  s' = (c, w) ∧ (r = Raise AttributeError ∨ ∃ v, params w !! id = Some v ∧ r = Return v).
Proof.
  unfold get_param, pvc_get_param. py_step.
  destruct (params w !! id) as [v|] eqn:Hv; cbn; intros [= <- <-];
    (split; [done|]); [right; by exists v | by left].
Qed.

Lemma get_param_Some id c w v :
  params w !! id = Some v → get_param id (c, w) = (Return v, (c, w)).
Proof. intros Hv. unfold get_param, pvc_get_param. py_step. by rewrite Hv. Qed.

Lemma read_enum_inv id c w r s' :
  read_enum id (c, w) = (r, s') →
  s' = (c, w) ∧ (r = Raise AttributeError ∨ ∃ d, enums w !! id = Some d ∧ r = Return d).
Proof.
  unfold read_enum, pvc_read_enum. py_step.
  destruct (enums w !! id) as [d|] eqn:Hd; cbn; intros [= <- <-];
    (split; [done|]); [right; by exists d | by left].
Qed.

Lemma read_enum_Some id c w d :
  enums w !! id = Some d → read_enum id (c, w) = (Return d, (c, w)).
Proof. intros Hd. unfold read_enum, pvc_read_enum. py_step. by rewrite Hd. Qed.

Lemma sensor_size_inv c w r s' :
  sensor_size (c, w) = (r, s') →
  s' = (c, w) ∧
  (r = Raise AttributeError ∨
   ∃ sw sh, params w !! PARAM_SER_SIZE = Some sw ∧
            params w !! PARAM_PAR_SIZE = Some sh ∧ r = Return (sw, sh)).
Proof.
  unfold sensor_size. unfold mbind at 1, Py_bind at 1.
  destruct (get_param PARAM_SER_SIZE (c, w)) as [r1 s1] eqn:H1.
  apply get_param_inv in H1 as [-> [-> | (sw & Hsw & ->)]].
  { intros [= <- <-]. split; [done|]. by left. }
  unfold mbind at 1, Py_bind at 1.
  destruct (get_param PARAM_PAR_SIZE (c, w)) as [r2 s2] eqn:H2.
  apply get_param_inv in H2 as [-> [-> | (sh & Hsh & ->)]].
  { intros [= <- <-]. split; [done|]. by left. }
  intros [= <- <-]. split; [done|]. right. by exists sw, sh.
Qed.

Lemma sensor_size_Some c w sw sh :
  params w !! PARAM_SER_SIZE = Some sw → params w !! PARAM_PAR_SIZE = Some sh →
  sensor_size (c, w) = (Return (sw, sh), (c, w)).
Proof.
  intros Hsw Hsh. unfold sensor_size. unfold mbind, Py_bind.
  rewrite (get_param_Some _ _ _ _ Hsw), (get_param_Some _ _ _ _ Hsh). done.
Qed.

Lemma in_range_spec v lo hi : in_range v lo hi = true ↔ lo ≤ v < hi.
Proof. unfold in_range. rewrite andb_true_iff, Z.leb_le, Z.ltb_lt. done. Qed.

Lemma roi_inside_spec v0 v1 v2 v3 sw sh :
  roi_inside (v0, v1, v2, v3) sw sh = true ↔
  (0 ≤ v0 ≤ sw ∧ 0 ≤ v1 ≤ sw) ∧ (0 ≤ v2 ≤ sh ∧ 0 ≤ v3 ≤ sh).
Proof.
  unfold roi_inside. rewrite !andb_true_iff, !in_range_spec. lia.
Qed.

Lemma in_sensor_inv v axis c w r s' :
  in_sensor v axis (c, w) = (r, s') →
  s' = (c, w) ∧
  (r = Raise AttributeError ∨
   ∃ sw sh, params w !! PARAM_SER_SIZE = Some sw ∧
            params w !! PARAM_PAR_SIZE = Some sh ∧
            r = Return (in_range v 0 (axis (sw, sh) + 1))).
Proof.
  unfold in_sensor. unfold mbind at 1, Py_bind at 1.
  destruct (sensor_size (c, w)) as [r1 s1] eqn:H1.
  apply sensor_size_inv in H1 as [-> [-> | (sw & sh & Hsw & Hsh & ->)]].
  - intros [= <- <-]. split; [done|]. by left.
  - intros [= <- <-]. split; [done|]. right. by exists sw, sh.
Qed.

Lemma in_sensor_Some v axis c w sw sh :
  params w !! PARAM_SER_SIZE = Some sw → params w !! PARAM_PAR_SIZE = Some sh →
  in_sensor v axis (c, w) = (Return (in_range v 0 (axis (sw, sh) + 1)), (c, w)).
Proof.
  intros Hsw Hsh. unfold in_sensor, mbind, Py_bind.
  by rewrite (sensor_size_Some _ _ _ _ Hsw Hsh).
Qed.

Lemma inside_sensor_Some v0 v1 v2 v3 c w sw sh :
  params w !! PARAM_SER_SIZE = Some sw → params w !! PARAM_PAR_SIZE = Some sh →
  inside_sensor v0 v1 v2 v3 (c, w)
  = (Return (roi_inside (v0, v1, v2, v3) sw sh), (c, w)).
Proof.
  intros Hsw Hsh. unfold inside_sensor, and_then, mbind, Py_bind, roi_inside.
  rewrite !(in_sensor_Some _ _ _ _ _ _ Hsw Hsh). cbn [fst snd].
  destruct (in_range v0 0 (sw + 1)); cbn; [|done].
  rewrite !(in_sensor_Some _ _ _ _ _ _ Hsw Hsh). cbn [fst snd].
  destruct (in_range v1 0 (sw + 1)); cbn; [|done].
  rewrite !(in_sensor_Some _ _ _ _ _ _ Hsw Hsh). cbn [fst snd].
  destruct (in_range v2 0 (sh + 1)); cbn; [|done].
  by rewrite !(in_sensor_Some _ _ _ _ _ _ Hsw Hsh).
Qed.

(** The condition has no effect, and when it holds the sensor size was
    read and the four components are inside. *)
Lemma inside_sensor_inv v0 v1 v2 v3 c w r s' :
  inside_sensor v0 v1 v2 v3 (c, w) = (r, s') →
  s' = (c, w) ∧
  (r = Raise AttributeError ∨ r = Return false ∨
   ∃ sw sh, params w !! PARAM_SER_SIZE = Some sw ∧
            params w !! PARAM_PAR_SIZE = Some sh ∧
            roi_inside (v0, v1, v2, v3) sw sh = true ∧ r = Return true).
Proof.
  intros H.
  destruct (in_sensor v0 fst (c, w)) as [r1 s1] eqn:H1.
  pose proof H1 as H1'.
  apply in_sensor_inv in H1' as [-> [-> | (sw & sh & Hsw & Hsh & ->)]].
  - unfold inside_sensor, and_then in H. unfold mbind at 1, Py_bind at 1 in H.
    rewrite H1 in H. injection H as <- <-. split; [done|]. by left.
  - rewrite (inside_sensor_Some _ _ _ _ _ _ _ _ Hsw Hsh) in H.
    destruct (roi_inside (v0, v1, v2, v3) sw sh) eqn:E;
      injection H as <- <-; (split; [done|]).
    + right; right. by exists sw, sh.
    + right. by left.
Qed.

(** What the [roi] setter does when it returns. *)
Lemma set_roi_Return_inv value c w c' w' :
  set_roi value (c, w) = (Return (), (c', w')) →
  w' = w ∧ (__binning c).1 ≠ 0 ∧ (__binning c).2 ≠ 0 ∧
  ∃ v0 v1 v2 v3 sw sh,
    roi_tuple value = Some (v0, v1, v2, v3) ∧
    params w !! PARAM_SER_SIZE = Some sw ∧
    params w !! PARAM_PAR_SIZE = Some sh ∧
    roi_inside (v0, v1, v2, v3) sw sh = true ∧
    c' = with_shape (Some (shape_of (v0, v1, v2, v3) (__binning c)))
           (with_roi (Some (v0, v1, v2, v3)) c).
Proof.
  unfold set_roi.
  destruct (roi_tuple value) as [[[[v0 v1] v2] v3]|]; [|by py_step].
  unfold mbind at 1, Py_bind at 1.
  destruct (inside_sensor v0 v1 v2 v3 (c, w)) as [r1 s1] eqn:H1.
  apply inside_sensor_inv in H1
    as [-> [-> | [-> | (sw & sh & Hsw & Hsh & Hin & ->)]]];
    [by py_step|by py_step|].
  unfold mbind at 1, Py_bind at 1. unfold assign at 1. cbn [fst snd].
  intros H. apply calculate_reshape_inv in H
    as [-> [(_ & Hx & Hy & roi & Hroi & ->) | (e & [=] & _)]].
  cbn in Hroi. injection Hroi as <-.
  repeat split; try done. by exists v0, v1, v2, v3, sw, sh.
Qed.

(** What the [roi] setter does on a tuple of four integers when the driver
    reports the sensor size. *)
Lemma set_roi_run v0 v1 v2 v3 c w sw sh :
  params w !! PARAM_SER_SIZE = Some sw → params w !! PARAM_PAR_SIZE = Some sh →
  set_roi (PTuple [PInt v0; PInt v1; PInt v2; PInt v3]) (c, w)
  = if roi_inside (v0, v1, v2, v3) sw sh
    then calculate_reshape (with_roi (Some (v0, v1, v2, v3)) c, w)
    else (Raise ValueError, (c, w)).
Proof.
  intros Hsw Hsh. unfold set_roi.
  change (roi_tuple (PTuple [PInt v0; PInt v1; PInt v2; PInt v3]))
    with (Some (v0, v1, v2, v3)). cbv beta iota.
  unfold mbind at 1, Py_bind at 1.
  rewrite (inside_sensor_Some _ _ _ _ _ _ _ _ Hsw Hsh).
  by destruct (roi_inside (v0, v1, v2, v3) sw sh).
Qed.

Lemma set_bin_x_axis value :
  set_bin_x value
  = axis_setter PARAM_BINNING_SER PARAM_BINNING_SER (λ v b, (v, b.2)) value.
Proof. reflexivity. Qed.

Lemma set_bin_y_axis value :
  set_bin_y value
  = axis_setter PARAM_BINNING_PAR PARAM_BINNING_SER (λ v b, (b.1, v)) value.
Proof. reflexivity. Qed.

Lemma set_binning_scalar value :
  (∀ items, value ≠ PTuple items) →
  set_binning value
  = axis_setter PARAM_BINNING_SER PARAM_BINNING_SER (λ v _, (v, v)) value.
Proof. intros Hnt. destruct value; try reflexivity. by destruct (Hnt items). Qed.

(** The outcomes of a scalar binning setter: it returns with the binning
    and the shape rewritten, or raises ValueError with nothing changed, or
    raises another exception. *)
Lemma axis_setter_inv chk msg upd value c w r c' w' :
  axis_setter chk msg upd value (c, w) = (r, (c', w')) →
  w' = w ∧
  ((∃ d v roi, enums w !! chk = Some d ∧ in_values value d = Some v ∧
      r = Return () ∧ __roi c = Some roi ∧
      (upd v (__binning c)).1 ≠ 0 ∧ (upd v (__binning c)).2 ≠ 0 ∧
      c' = with_shape (Some (shape_of roi (upd v (__binning c))))
             (with_binning (upd v (__binning c)) c))
   ∨ (∃ d, enums w !! chk = Some d ∧ in_values value d = None ∧
      r = Raise ValueError ∧ c' = c)
   ∨ (∃ e, r = Raise e ∧ e ≠ ValueError)).
Proof.
  unfold axis_setter. unfold mbind at 1, Py_bind at 1.
  destruct (read_enum chk (c, w)) as [r1 s1] eqn:H1.
  apply read_enum_inv in H1 as [-> [-> | (d & Hd & ->)]].
  { intros [= <- <- <-]. split; [done|]. right; right.
    by exists AttributeError. }
  destruct (in_values value d) as [v|] eqn:Hv.
  - unfold mbind at 1, Py_bind at 1, self at 1.
    unfold mbind at 1, Py_bind at 1, assign at 1. cbn [fst snd].
    intros H. apply calculate_reshape_inv in H
      as [-> [(-> & Hx & Hy & roi & Hroi & ->) | (e & -> & He & _)]].
    + split; [done|]. left. exists d, v, roi. by repeat split.
    + split; [done|]. right; right. by exists e.
  - unfold mbind at 1, Py_bind at 1.
    destruct (read_enum msg (c, w)) as [r2 s2] eqn:H2.
    apply read_enum_inv in H2 as [-> [-> | (d2 & Hd2 & ->)]].
    + intros [= <- <- <-]. split; [done|]. right; right.
      by exists AttributeError.
    + intros [= <- <- <-]. split; [done|]. right; left. by exists d.
Qed.

(** A binning setter that returns leaves a fresh shape. *)
Lemma axis_setter_fresh chk msg upd value c w c' w' :
  axis_setter chk msg upd value (c, w) = (Return (), (c', w')) →
  shape_fresh c' ∧ (__binning c').1 ≠ 0 ∧ (__binning c').2 ≠ 0.
Proof.
  intros H. apply axis_setter_inv in H
    as [-> [(d & v & roi & _ & _ & _ & Hroi & Hx & Hy & ->)
           | [(d & _ & _ & [=] & _) | (e & [=] & _)]]].
  split; [by exists roi|done].
Qed.

Lemma subscript_inv items i s r s' :
  subscript items i s = (r, s') →
  s' = s ∧ ((r = Raise IndexError ∧ items !! i = None)
            ∨ ∃ v, items !! i = Some v ∧ r = Return v).
Proof.
  unfold subscript. destruct (items !! i) as [v|]; py_step;
    intros [= <- <-]; (split; [done|]); [right; by exists v|by left].
Qed.

Lemma set_binning_tuple_inv items c w r c' w' :
  set_binning (PTuple items) (c, w) = (r, (c', w')) →
  (∃ e, r = Raise e ∧ e ≠ ValueError ∧
        (e = IndexError → (items = [] ∧ c' = c ∧ w' = w) ∨ length items = 1%nat))
  ∨ ∃ v0, items !! 0%nat = Some v0 ∧
     ((set_bin_x v0 (c, w) = (r, (c', w')) ∧ r ≠ Return ())
      ∨ ∃ c1 v1, set_bin_x v0 (c, w) = (Return (), (c1, w)) ∧
                 items !! 1%nat = Some v1 ∧
                 set_bin_y v1 (c1, w) = (r, (c', w'))).
Proof.
  cbn [set_binning]. intros H.
  apply bind_inv in H as [(v0 & s1 & H0 & H) | (e & H0 & ->)]; cycle 1.
  { apply subscript_inv in H0 as [[= -> ->] [[[= ->] Hnone]|(? & ? & [=])]].
    left. exists IndexError. repeat split; try done. intros _. left.
    by destruct items. }
  apply subscript_inv in H0 as [-> [[[=] _]|(? & Hv0 & [= <-])]].
  apply bind_inv in H as [([] & [c1 w1] & H0 & H) | (e & H0 & ->)]; cycle 1.
  { right. exists v0. split; [done|]. by left. }
  pose proof H0 as H0'. rewrite set_bin_x_axis in H0'.
  apply axis_setter_inv in H0' as [-> _].
  apply bind_inv in H as [(v1 & s1 & H1 & H) | (e & H1 & ->)]; cycle 1.
  { apply subscript_inv in H1 as [_ [[[= ->] Hnone]|(? & ? & [=])]].
    left. exists IndexError. repeat split; try done. intros _. right.
    by destruct items as [|? [|? ?]]. }
  apply subscript_inv in H1 as [-> [[[=] _]|(? & Hv1 & [= <-])]].
  right. exists v0. split; [done|]. right. by exists c1, v1.
Qed.

Lemma tuple_or_not (value : pyobj) :
  (∃ items, value = PTuple items) ∨ ∀ items, value ≠ PTuple items.
Proof. destruct value; [by right..|left; by eexists]. Qed.

Lemma shape_fresh_set_roi value c w c' w' :
  set_roi value (c, w) = (Return (), (c', w')) → shape_fresh c'.
Proof.
  intros H. apply set_roi_Return_inv in H
    as (-> & _ & _ & v0 & v1 & v2 & v3 & sw & sh & _ & _ & _ & _ & ->).
  by exists (v0, v1, v2, v3).
Qed.

Lemma shape_fresh_set_binning value c w c' w' :
  set_binning value (c, w) = (Return (), (c', w')) → shape_fresh c'.
Proof.
  intros H.
  destruct (tuple_or_not value) as [[items ->] | Hnt].
  - apply set_binning_tuple_inv in H
      as [(e & [=] & _) | (v0 & _ & [[_ Hne] | (c1 & v1 & _ & _ & H)])];
      [done|].
    rewrite set_bin_y_axis in H. by apply axis_setter_fresh in H as [? _].
  - rewrite (set_binning_scalar _ Hnt) in H.
    by apply axis_setter_fresh in H as [? _].
Qed.

(** Truncation and floor agree on a non-negative difference and a positive
    binning. *)
Lemma shape_of_floor x0 x1 y0 y1 bx by_ :
  x0 ≤ x1 → y0 ≤ y1 → 0 < bx → 0 < by_ →
  shape_of (x0, x1, y0, y1) (bx, by_)
  = ((x1 - x0) `div` bx, (y1 - y0) `div` by_).
Proof.
  intros. unfold shape_of. cbn [fst snd].
  rewrite !Z.quot_div_nonneg by lia. done.
Qed.

Lemma quot_nonpos a b : a ≤ 0 → 0 < b → a `quot` b ≤ 0.
Proof.
  intros Ha Hb. replace a with (- (- a)) by lia.
  rewrite Z.quot_opp_l by lia.
  pose proof (Z.quot_pos (- a) b). lia.
Qed.

Lemma quot_negative a b : 0 < b → a ≤ - b → a `quot` b < 0.
Proof.
  intros Hb Ha. replace a with (- (- a)) by lia.
  rewrite Z.quot_opp_l by lia.
  pose proof (Z.quot_str_pos (- a) b). lia.
Qed.

Example binned_camera_reached :
  set_binning (PInt 2) (demo_camera, demo_world)
  = (Return (), (binned_camera, demo_world)).
Proof. reflexivity. Qed.

(** C1, as stated, fails: on a 2048 x 2048 sensor with binning (2,2) the
    region (3, 0, 0, 0) is accepted and the stored width is
    int(-3 / 2) = -1, while floor(-3 / 2) = -2. *)
Lemma shape_floor_counterexample :
  ¬ (∀ k c w c' w',
       run_geometry k (c, w) = (Return (), (c', w')) → floor_shape c').
Proof.
  intros H.
  destruct (H (Set_roi (PTuple [PInt 3; PInt 0; PInt 0; PInt 0]))
              binned_camera demo_world
              (with_shape (Some (-1, 0))
                 (with_roi (Some (3, 0, 0, 0)) binned_camera))
              demo_world eq_refl)
    as (x0 & x1 & y0 & y1 & Hroi & Hshape).
  cbn in Hroi, Hshape. injection Hroi as <- <- <- <-. discriminate Hshape.
Qed.

(** C1 (amended): after every ROI or binning setter call that returns, the
    stored shape is the one derived from the stored region and binning,
    with both quotients truncated toward zero; it is the floor of the
    quotients whenever the region is not reversed and the binning is
    positive. *)
Theorem shape_after_geometry_call k c w c' w' :
  run_geometry k (c, w) = (Return (), (c', w')) →
  shape_fresh c' ∧
  ∀ x0 x1 y0 y1,
    __roi c' = Some (x0, x1, y0, y1) → x0 ≤ x1 → y0 ≤ y1 →
    0 < (__binning c').1 → 0 < (__binning c').2 →
    __shape c' = Some ((x1 - x0) `div` (__binning c').1,
                       (y1 - y0) `div` (__binning c').2).
Proof.
  intros H.
  assert (shape_fresh c') as Hfresh.
  { destruct k; cbn [run_geometry] in H.
    - by eapply shape_fresh_set_roi.
    - by eapply shape_fresh_set_binning.
    - rewrite set_bin_x_axis in H. by apply axis_setter_fresh in H as [? _].
    - rewrite set_bin_y_axis in H. by apply axis_setter_fresh in H as [? _]. }
  split; [done|].
  intros x0 x1 y0 y1 Hroi Hx Hy Hbx Hby.
  destruct Hfresh as (roi & Hroi' & ->). rewrite Hroi in Hroi'.
  injection Hroi' as <-. destruct (__binning c') as [bx by_].
  by rewrite shape_of_floor.
Qed.

Lemma shape_after_geometry_call_witness :
  shape_fresh binned_camera ∧
  ∀ x0 x1 y0 y1,
    __roi binned_camera = Some (x0, x1, y0, y1) → x0 ≤ x1 → y0 ≤ y1 →
    0 < (__binning binned_camera).1 → 0 < (__binning binned_camera).2 →
    __shape binned_camera
    = Some ((x1 - x0) `div` (__binning binned_camera).1,
            (y1 - y0) `div` (__binning binned_camera).2).
Proof.
  apply (shape_after_geometry_call (Set_binning (PInt 2))
           demo_camera demo_world binned_camera demo_world).
  reflexivity.
Defined.

(** C3: a tuple of four integers with a component outside the sensor, whose
    size the driver reports as [sw] x [sh], makes the [roi] setter raise
    ValueError, and neither the object (its [__roi] and [__shape] in
    particular) nor the world has changed. *)
Theorem roi_outside_sensor_rejected v0 v1 v2 v3 sw sh c w :
  params w !! PARAM_SER_SIZE = Some sw →
  params w !! PARAM_PAR_SIZE = Some sh →
  (v0 < 0 ∨ sw < v0) ∨ (v1 < 0 ∨ sw < v1) ∨
  (v2 < 0 ∨ sh < v2) ∨ (v3 < 0 ∨ sh < v3) →
  ∃ c' w',
    set_roi (PTuple [PInt v0; PInt v1; PInt v2; PInt v3]) (c, w)
    = (Raise ValueError, (c', w')) ∧
    __roi c' = __roi c ∧ __shape c' = __shape c ∧ c' = c ∧ w' = w.
Proof.
  intros Hsw Hsh Hout. exists c, w.
  rewrite (set_roi_run _ _ _ _ _ _ _ _ Hsw Hsh).
  destruct (roi_inside (v0, v1, v2, v3) sw sh) eqn:E; [|done].
  apply roi_inside_spec in E. lia.
Qed.

Lemma roi_outside_sensor_rejected_witness :
  ∃ c' w',
    set_roi (PTuple [PInt 0; PInt 2049; PInt 0; PInt 2048])
      (demo_camera, demo_world)
    = (Raise ValueError, (c', w')) ∧
    __roi c' = __roi demo_camera ∧ __shape c' = __shape demo_camera ∧
    c' = demo_camera ∧ w' = demo_world.
Proof.
  apply (roi_outside_sensor_rejected 0 2049 0 2048 2048 2048
           demo_camera demo_world); [reflexivity | reflexivity | lia].
Defined.

(** C10: a tuple of four integers inside the sensor is accepted whatever
    the order of its end points (the binning being non-zero): the region is
    stored as given and the shape is computed from the signed differences,
    so that a reversed or empty axis gives a component that is zero or
    negative. *)
Theorem roi_inside_sensor_accepted v0 v1 v2 v3 sw sh c w :
  params w !! PARAM_SER_SIZE = Some sw →
  params w !! PARAM_PAR_SIZE = Some sh →
  0 ≤ v0 ≤ sw → 0 ≤ v1 ≤ sw → 0 ≤ v2 ≤ sh → 0 ≤ v3 ≤ sh →
  (__binning c).1 ≠ 0 → (__binning c).2 ≠ 0 →
  ∃ c',
    set_roi (PTuple [PInt v0; PInt v1; PInt v2; PInt v3]) (c, w)
    = (Return (), (c', w)) ∧
    __roi c' = Some (v0, v1, v2, v3) ∧
    __binning c' = __binning c ∧
    __shape c' = Some ((v1 - v0) `quot` (__binning c).1,
                       (v3 - v2) `quot` (__binning c).2) ∧
    (v1 = v0 → (v1 - v0) `quot` (__binning c).1 = 0) ∧
    (v3 = v2 → (v3 - v2) `quot` (__binning c).2 = 0) ∧
    (0 < (__binning c).1 → v1 ≤ v0 → (v1 - v0) `quot` (__binning c).1 ≤ 0) ∧
    (0 < (__binning c).2 → v3 ≤ v2 → (v3 - v2) `quot` (__binning c).2 ≤ 0) ∧
    (0 < (__binning c).1 → v1 + (__binning c).1 ≤ v0 →
       (v1 - v0) `quot` (__binning c).1 < 0) ∧
    (0 < (__binning c).2 → v3 + (__binning c).2 ≤ v2 →
       (v3 - v2) `quot` (__binning c).2 < 0).
Proof.
  intros Hsw Hsh H0 H1 H2 H3 Hbx Hby.
  eexists. rewrite (set_roi_run _ _ _ _ _ _ _ _ Hsw Hsh).
  assert (roi_inside (v0, v1, v2, v3) sw sh = true) as ->
    by (apply roi_inside_spec; lia).
  split; [by apply calculate_reshape_Return|].
  cbn [__roi __binning __shape with_shape with_roi shape_of].
  repeat split; try done.
  - intros ->. rewrite Z.sub_diag. by apply Z.quot_0_l.
  - intros ->. rewrite Z.sub_diag. by apply Z.quot_0_l.
  - intros ? ?. apply quot_nonpos; lia.
  - intros ? ?. apply quot_nonpos; lia.
  - intros ? ?. apply quot_negative; lia.
  - intros ? ?. apply quot_negative; lia.
Qed.

(** On the demo sensor with binning (2,2) the region (10, 2, 5, 5) is
    accepted and gives the shape (-4, 0). *)
Lemma roi_inside_sensor_accepted_witness :
  ∃ c',
    set_roi (PTuple [PInt 10; PInt 2; PInt 5; PInt 5])
      (binned_camera, demo_world)
    = (Return (), (c', demo_world)) ∧
    __roi c' = Some (10, 2, 5, 5) ∧
    __shape c' = Some (-4, 0).
Proof.
  destruct (roi_inside_sensor_accepted 10 2 5 5 2048 2048
              binned_camera demo_world)
    as (c' & Hrun & Hroi & _ & Hshape & _);
    [reflexivity | reflexivity | lia | lia | lia | lia | done | done |].
  exists c'. repeat split; [exact Hrun | exact Hroi | exact Hshape].
Defined.

(** ** Failure of the binning setters *)

(** C9, as stated, fails: with the enumerations {1, 2} on both axes,
    [binning = (2, 3)] raises ValueError from the [bin_y] setter after the
    [bin_x] setter has stored the binning (2, 1) and the shape
    (1024, 2048). *)
Lemma binning_tuple_counterexample :
  ¬ (∀ k c w c' w',
       binning_call k = true →
       run_geometry k (c, w) = (Raise ValueError, (c', w')) →
       __binning c' = __binning c ∧ __shape c' = __shape c).
Proof.
  intros H.
  destruct (H (Set_binning (PTuple [PInt 2; PInt 3])) demo_camera demo_world
              (with_shape (Some (1024, 2048))
                 (with_binning (2, 1) demo_camera))
              demo_world eq_refl eq_refl) as [Hb _].
  discriminate Hb.
Qed.

(** ** Effectful calls *)

Lemma external_inv k effect c w r c' w' :
  external k effect (c, w) = (r, (c', w')) →
  c' = c ∧
  ((r = Return () ∧ ∃ fs, w' = called k effect fs w ∧
                          (faults w = None :: fs ∨ faults w = [] ∧ fs = []))
   ∨ (∃ e fs, r = Raise e ∧ faults w = Some e :: fs ∧
              w' = called k id fs w)).
Proof.
  unfold external, called. cbn [fst snd faults with_calls].
  destruct (faults w) as [|[e|] fs] eqn:Hf; intros [= <- <- <-];
    (split; [done|]).
  - left. split; [done|]. exists []. split; [|by right].
    by destruct w; cbn in *; subst.
  - right. by exists e, fs.
  - left. split; [done|]. exists fs. split; [done|by left].
Qed.

(** ** The exposure mode composer *)

Section modes.
Context (exp_modes exp_out_modes : gmap string Z).

Lemma set_exp_mode_eq value :
  set_exp_mode exp_modes value
  = match mode_value exp_modes value with
    | None => raise ValueError
    | Some v => assign (with_exp_mode (Some v));; update_mode
    end.
Proof. by destruct value. Qed.

Lemma set_exp_out_mode_eq value :
  set_exp_out_mode exp_out_modes value
  = match mode_value exp_out_modes value with
    | None => raise ValueError
    | Some v => assign (with_exp_out_mode (Some v));; update_mode
    end.
Proof. by destruct value. Qed.

(** [update_mode], when it returns, has stored the bitwise or of the two
    sub-modes and has issued [set_exp_modes] with it as its one call. *)
Lemma update_mode_Return_inv c w c' w' :
  update_mode (c, w) = (Return (), (c', w')) →
  ∃ em eom, __exp_mode c = Some em ∧ __exp_out_mode c = Some eom ∧
    c' = with_mode (Some (Z.lor em eom)) c ∧
    calls w' = calls w ++ [Call_set_exp_modes (__handle c) (Z.lor em eom)] ∧
    params w' = params w ∧ engines w' = engines w.
Proof.
  unfold update_mode, pvc_set_exp_modes. py_step.
  destruct (__exp_mode c) as [em|]; cbn -[Z.lor]; [|done].
  destruct (__exp_out_mode c) as [eom|]; cbn -[Z.lor]; [|done].
  intros H. apply external_inv in H
    as [-> [(_ & fs & -> & _) | (e & fs & [=] & _)]].
  by exists em, eom.
Qed.

(** C2: after every call of the [exp_mode] or [exp_out_mode] setter that
    returns, by name or by value, the stored mode is the bitwise or of
    the stored exposure mode and the stored expose-out mode, the setter
    has stored the value of its argument, and the call
    [set_exp_modes(handle, mode)] with that mode is the one call issued
    to the driver. *)
Theorem mode_composed_after_setter k c w c' w' :
  run_mode exp_modes exp_out_modes k (c, w) = (Return (), (c', w')) →
  ∃ em eom,
    __exp_mode c' = Some em ∧ __exp_out_mode c' = Some eom ∧
    __mode c' = Some (Z.lor em eom) ∧
    calls w' = calls w ++ [Call_set_exp_modes (__handle c') (Z.lor em eom)] ∧
    match k with
    | Set_exp_mode value =>
        mode_value exp_modes value = Some em ∧
        __exp_out_mode c = Some eom
    | Set_exp_out_mode value =>
        mode_value exp_out_modes value = Some eom ∧
        __exp_mode c = Some em
    end.
Proof.
  destruct k as [value|value]; cbn [run_mode].
  - rewrite set_exp_mode_eq.
    destruct (mode_value exp_modes value) as [v|]; [|done].
    unfold mbind at 1, Py_bind at 1, assign at 1. cbn [fst snd].
    intros H. apply update_mode_Return_inv in H
      as (em & eom & Hem & Heom & -> & Hcalls & _).
    cbn in Hem, Heom. injection Hem as ->. by exists em, eom.
  - rewrite set_exp_out_mode_eq.
    destruct (mode_value exp_out_modes value) as [v|]; [|done].
    unfold mbind at 1, Py_bind at 1, assign at 1. cbn [fst snd].
    intros H. apply update_mode_Return_inv in H
      as (em & eom & Hem & Heom & -> & Hcalls & _).
    cbn in Hem, Heom. injection Heom as ->. by exists em, eom.
Qed.
End modes.

(** Setting the expose-out mode by name on the demo camera, whose exposure
    mode was set to 1792 by value: the mode 1792 | 1 = 1793 is stored and
    pushed. *)
Lemma mode_composed_after_setter_witness :
  ∃ em eom,
    Some 1792 = Some em ∧ Some 1 = Some eom ∧
    Some 1793 = Some (Z.lor em eom) ∧
    [Call_set_exp_modes 0 1792; Call_set_exp_modes 0 1793]
    = [Call_set_exp_modes 0 1792] ++ [Call_set_exp_modes 0 (Z.lor em eom)] ∧
    (mode_value demo_exp_out_modes (PStr "All Rows") = Some eom ∧
     Some 1792 = Some em).
Proof.
  pose (s1 := (set_exp_mode demo_exp_modes (PInt 1792)
                 (demo_camera, demo_world)).2).
  exact (mode_composed_after_setter demo_exp_modes demo_exp_out_modes
           (Set_exp_out_mode (PStr "All Rows")) s1.1 s1.2
           (with_mode (Some 1793) (with_exp_out_mode (Some 1) s1.1))
           (with_calls [Call_set_exp_modes 0 1792; Call_set_exp_modes 0 1793]
              demo_world)
           eq_refl).
Defined.

(** ** The acquisition lifecycle *)

Example live_reached :
  start_live (demo_camera, demo_world) = (Return (), (live_camera, live_world)).
Proof. vm_compute. reflexivity. Qed.

Example sequence_reached :
  start_acquisition 100 "/tmp/out" (demo_camera, demo_world)
  = (Return (), (sequence_camera, sequence_world)).
Proof. vm_compute. reflexivity. Qed.

Example closed_reached :
  close (sequence_camera, sequence_world)
  = (Return (), (closed_camera, closed_world)).
Proof. vm_compute. reflexivity. Qed.

Lemma sequence_world_running : sequence_running sequence_camera sequence_world.
Proof. split; [reflexivity|]. exists (Saver 0). split; reflexivity. Qed.

(** C5, as stated, fails: [start_live] during the sequence session of the
    demo camera returns normally. *)
Lemma start_live_counterexample :
  ¬ (∀ c w, sequence_running c w → ∃ e s', start_live (c, w) = (Raise e, s')).
Proof.
  intros H.
  destruct (H sequence_camera sequence_world sequence_world_running)
    as (e & s' & Hrun).
  vm_compute in Hrun. discriminate Hrun.
Qed.

(** C5 (amended): [start_live] while a sequence session is running does
    nothing: it returns without an error, issues no call and leaves the
    object and the world as they were. *)
Theorem start_live_during_sequence c w :
  sequence_running c w → start_live (c, w) = (Return (), (c, w)).
Proof.
  intros (Hm & s & Hs & Ha).
  unfold start_live, check_acquisition, the_stream_saver,
    saver_acquisition_status.
  py_step. rewrite Hm. cbn. rewrite Hs. cbn. rewrite Ha. done.
Qed.

Lemma start_live_during_sequence_witness :
  start_live (sequence_camera, sequence_world)
  = (Return (), (sequence_camera, sequence_world)).
Proof.
  apply (start_live_during_sequence sequence_camera sequence_world).
  split; [reflexivity|]. exists (Saver 0). split; reflexivity.
Defined.

(** C6, as stated, fails: closing the camera during the live session of the
    demo camera leaves the state tag at "live" and issues neither an abort
    nor a join. *)
Lemma close_active_counterexample :
  ¬ (∀ c w c' w',
       __stream_mode c ≠ None →
       close (c, w) = (Return (), (c', w')) →
       __stream_mode c' = None ∧ __stream_saver c' = None ∧
       ∃ s, Call_abort_acquisition s ∈ calls w' ∧
            Call_join_acquisition s ∈ calls w').
Proof.
  intros H.
  destruct (H live_camera live_world
              (with_stream_saver None
                 (with_is_open false (with_handle (-1) live_camera)))
              (with_calls (live_calls ++ [Call_close_camera 0]) live_world))
    as [Hm _]; [done| by vm_compute |].
  discriminate Hm.
Qed.

(** C6 (amended): a [close] that returns has issued one call, the close of
    the driver handle, and neither an abort nor a join: the activity of
    every engine is as it was.  The handle is -1, the open flag is false
    and the reference to the engine is dropped. *)
Theorem close_effect c w c' w' :
  close (c, w) = (Return (), (c', w')) →
  __handle c' = -1 ∧ __is_open c' = false ∧ __stream_saver c' = None ∧
  calls w' = calls w ++ [Call_close_camera (__handle c)] ∧
  engines w' = engines w.
Proof.
  unfold close, pvc_close_camera. py_step.
  destruct (external _ _ _) as [[[]|e] [c1 w1]] eqn:Hc; cbn; [|done].
  apply external_inv in Hc as [-> [(_ & fs & -> & _) | (e & fs & [=] & _)]].
  by intros [= <- <-].
Qed.

Lemma close_effect_witness :
  __handle closed_camera = -1 ∧ __is_open closed_camera = false ∧
  __stream_saver closed_camera = None ∧
  calls closed_world
  = calls sequence_world ++ [Call_close_camera (__handle sequence_camera)] ∧
  engines closed_world = engines sequence_world.
Proof.
  apply (close_effect sequence_camera sequence_world closed_camera closed_world).
  vm_compute. reflexivity.
Defined.

(** *** start_acquisition *)

(** Read on the state tag alone, the rejection of a start during a
    sequence session does not hold in every state: after [close] during a
    sequence session the tag still says "acquisition" while the engine
    reference is gone, and [start_acquisition] returns instead of raising. *)
Lemma start_acquisition_counterexample :
  ¬ (∀ c w n outdir,
       __stream_mode c = Some "acquisition"%string →
       __roi c ≠ None → faults w = [] →
       ∃ c' w',
         start_acquisition n outdir (c, w) = (Raise RuntimeError, (c', w')) ∧
         filter engine_call (calls w') = filter engine_call (calls w)).
Proof.
  intros H.
  destruct (H closed_camera closed_world 100 "/tmp/out"%string)
    as (c' & w' & Hrun & _); [done..|].
  vm_compute in Hrun. discriminate Hrun.
Qed.

(** The table of the lifecycle, where an engine is attached whenever a
    session is named.  With the region set and every call to the
    collaborators succeeding, [start_acquisition]
    - in state "acquisition" raises RuntimeError; the object, the engines
      and the log are as they were, apart from the creation of the output
      directory;
    - in state "live" issues abort and join on the engine, then the setup and
      the start of the bounded capture, and the state is "acquisition";
    - in the idle state issues the setup and the start of the bounded
      capture, after creating and attaching an engine when none is
      attached, and the state is "acquisition". *)
Theorem start_acquisition_by_state num_frames outdir c w roi :
  faults w = [] → __roi c = Some roi →
  (__stream_mode c ≠ None → is_Some (__stream_saver c)) →
  ∃ r c' w',
    start_acquisition num_frames outdir (c, w) = (r, (c', w')) ∧
    (__stream_mode c = Some "acquisition"%string →
       r = Raise RuntimeError ∧ c' = c ∧ engines w' = engines w ∧
       calls w' = calls w ++ mkdir_calls outdir w) ∧
    (__stream_mode c = Some "live"%string →
       ∃ s, __stream_saver c = Some s ∧ r = Return () ∧
         c' = with_stream_mode (Some "acquisition"%string) c ∧
         calls w' = calls w ++ mkdir_calls outdir w ++
                    [Call_abort_acquisition s; Call_join_acquisition s;
                     setup_call s num_frames outdir c roi;
                     Call_start_acquisition s] ∧
         engines w' !! saver_id s = Some true) ∧
    (__stream_mode c = None →
       ∃ s, r = Return () ∧
         c' = with_stream_mode (Some "acquisition"%string)
                (with_stream_saver (Some s) c) ∧
         calls w' = calls w ++ mkdir_calls outdir w ++
                    match __stream_saver c with
                    | Some _ => []
                    | None => [Call_StreamSaver s; Call_uninit_pvcam;
                               Call_attach_camera s (__name c)]
                    end ++
                    [setup_call s num_frames outdir c roi;
                     Call_start_acquisition s] ∧
         (∀ s0, __stream_saver c = Some s0 → s = s0) ∧
         engines w' !! saver_id s = Some true).
Proof.
  intros Hf Hroi Hsaver.
  destruct (start_acquisition _ _ _) as [r [c' w']] eqn:Hrun.
  exists r, c', w'. split; [done|].
  destruct c as [name h op mode exp [bx by_] r0 sh sv sm em eom].
  destruct w as [ps es eng ds fs cl].
  cbn in Hf, Hroi, Hsaver. subst fs r0. destruct roi as [[[x0 x1] y0] y1].
  unfold start_acquisition, mkdir_calls, setup_call, os_path_isdir, os_mkdir,
    stop_live, abort_acquisition, join_acquisition, create_stream_saver,
    new_StreamSaver, the_stream_saver, saver_setup_acquisition,
    saver_start_acquisition, saver_abort_acquisition, saver_join_acquisition,
    saver_attach_camera, pvc_uninit_pvcam, bin_x, bin_y, external, set_active
    in Hrun |- *.
  py_step.
  destruct (bool_decide (outdir ∈ ds)) eqn:Hd;
    (split; [|split]); intros ->.
  all: try (destruct Hsaver as [s ->]; [done|]).
  all: try destruct sv as [s|].
  all: py_step; injection Hrun as <- <- <-.
  all: try exists s; try exists (Saver (fresh (dom eng))).
  all: repeat split; cbn; rewrite <- ?app_assoc, ?app_nil_r; try done.
  all: try apply lookup_insert_eq.
  all: by intros ? [= ->].
Qed.

(** Starting an acquisition during the live session of the demo camera:
    the live session is stopped and the state becomes "acquisition". *)
Lemma start_acquisition_by_state_witness :
  ∃ w',
    start_acquisition 100 "/tmp/out" (live_camera, live_world)
    = (Return (), (with_stream_mode (Some "acquisition"%string) live_camera, w')) ∧
    calls w' = calls live_world ++
               [Call_mkdir "/tmp/out";
                Call_abort_acquisition (Saver 0);
                Call_join_acquisition (Saver 0);
                Call_setup_acquisition (Saver 0) 100 10 0 0 2047 1 0 2047 1
                  "/tmp/out";
                Call_start_acquisition (Saver 0)].
Proof.
  destruct (start_acquisition_by_state 100 "/tmp/out" live_camera live_world
              (0, 2048, 0, 2048))
    as (r & c' & w' & Hrun & _ & Hlive & _);
    [reflexivity | reflexivity | intros _; by exists (Saver 0) |].
  destruct (Hlive eq_refl) as (s & Hs & -> & -> & Hcalls & _).
  injection Hs as <-. exists w'. split; [exact Hrun | exact Hcalls].
Defined.

(** C4: the failing input.  The demo camera starts a bounded capture and
    is closed while the capture runs.  [close] drops the engine reference
    and leaves the state tag at "acquisition", engine 0 still being active.
    A second [start_acquisition] then finds no engine reference, so it
    never reaches the test of the state tag that raises RuntimeError: it
    creates and attaches a second engine, sets it up and starts it, and
    returns, with the two engines active. *)
Theorem start_acquisition_after_close :
  (start_acquisition 100 "/tmp/out";; close) (demo_camera, demo_world)
  = (Return (), (closed_camera, closed_world)) ∧
  __stream_mode closed_camera = Some "acquisition"%string ∧
  __stream_saver closed_camera = None ∧
  engines closed_world !! 0%nat = Some true ∧
  ∃ w',
    start_acquisition 100 "/tmp/out" (closed_camera, closed_world)
    = (Return (),
       (with_stream_mode (Some "acquisition"%string)
          (with_stream_saver (Some (Saver 1)) closed_camera), w')) ∧
    calls w' = calls closed_world ++
               [Call_StreamSaver (Saver 1); Call_uninit_pvcam;
                Call_attach_camera (Saver 1) "cam0";
                Call_setup_acquisition (Saver 1) 100 10 0 0 2047 1 0 2047 1
                  "/tmp/out";
                Call_start_acquisition (Saver 1)] ∧
    engines w' !! 0%nat = Some true ∧ engines w' !! 1%nat = Some true.
Proof.
  split; [by vm_compute|]. do 3 (split; [reflexivity|]).
  eexists. split; [vm_compute; reflexivity|].
  split; [reflexivity|]. split; reflexivity.
Qed.

(** ** The fault script *)

Lemma quiet_nil m : quiet m [].
Proof. unfold quiet. rewrite take_nil. constructor. Qed.

Lemma quiet_replicate m fs : quiet m (replicate m None ++ fs).
Proof.
  unfold quiet. rewrite take_app_length' by by rewrite length_replicate.
  apply Forall_forall. intros f Hf. by apply elem_of_replicate in Hf as [-> _].
Qed.

Lemma quiet_S m fs :
  quiet (S m) fs → (fs = [] ∨ ∃ fs', fs = None :: fs') ∧ quiet m (drop 1 fs).
Proof.
  unfold quiet. destruct fs as [|f fs]; cbn.
  - intros _. split; [by left|]. rewrite take_nil. constructor.
  - intros H. apply Forall_cons in H as [-> H]. split; [right; by eexists|].
    by rewrite drop_0.
Qed.

Lemma quiet_le m m' fs : (m' ≤ m)%nat → quiet m fs → quiet m' fs.
Proof.
  unfold quiet. intros Hle H. rewrite <- (Nat.min_l m' m) by done.
  rewrite <- take_take. by apply Forall_take.
Qed.

Lemma quiet_drop k : ∀ m fs, quiet (k + m) fs → quiet m (drop k fs).
Proof.
  induction k as [|k IH]; intros m fs H; [by rewrite drop_0|].
  apply quiet_S in H as [_ H]. apply IH in H. by rewrite drop_drop in H.
Qed.

(** An effectful call under a quiet script succeeds and consumes one entry
    of the script. *)
Lemma external_quiet k effect c w m :
  quiet (S m) (faults w) →
  external k effect (c, w)
  = (Return (), (c, called k effect (drop 1 (faults w)) w)).
Proof.
  intros [[Hf | [fs Hf]] _]%quiet_S; unfold external, called;
    cbn [fst snd faults with_calls]; rewrite Hf; cbn [drop]; [|done].
  by destruct w; cbn in *; subst.
Qed.

Lemma external_fault k effect c w e fs :
  faults w = Some e :: fs →
  external k effect (c, w) = (Raise e, (c, called k id fs w)).
Proof.
  intros Hf. unfold external, called. cbn [fst snd faults with_calls].
  by rewrite Hf.
Qed.

(** ** Frame conditions *)

Lemma extends_refl w : extends w w.
Proof. split; [done|]. exists []. by rewrite app_nil_r. Qed.

Lemma extends_trans w1 w2 w3 : extends w1 w2 → extends w2 w3 → extends w1 w3.
Proof.
  intros [Hp1 [l1 Hl1]] [Hp2 [l2 Hl2]]. split; [congruence|].
  exists (l1 ++ l2). by rewrite Hl2, Hl1, app_assoc.
Qed.

Lemma keeps_pure {A} (m : Py A) :
  (∀ s, ∃ r, m s = (r, s)) → keeps m.
Proof.
  intros Hm c w r c' w' H. destruct (Hm (c, w)) as [r0 Hr0].
  rewrite Hr0 in H. injection H as _ <- <-. split; [done|apply extends_refl].
Qed.

Lemma keeps_ret {A} (a : A) : keeps (mret a).
Proof. apply keeps_pure. intros s. by eexists. Qed.

Lemma keeps_raise {A} e : keeps (raise (A:=A) e).
Proof. apply keeps_pure. intros s. by eexists. Qed.

Lemma keeps_self {A} (f : Camera → A) : keeps (self f).
Proof. apply keeps_pure. intros s. by eexists. Qed.

Lemma keeps_or_raise {A} e (o : option A) : keeps (or_raise e o).
Proof. destruct o; [apply keeps_ret|apply keeps_raise]. Qed.

Lemma keeps_bind {A B} (m : Py A) (f : A → Py B) :
  keeps m → (∀ a, keeps (f a)) → keeps (m ≫= f).
Proof.
  intros Hm Hf c w r c' w' H.
  apply bind_inv in H as [(a & [c1 w1] & H1 & H2) | (e & H1 & ->)].
  - apply Hm in H1 as [-> Hw1]. apply Hf in H2 as [-> Hw2].
    split; [done|]. by eapply extends_trans.
  - by apply Hm in H1.
Qed.

Lemma keeps_try_except {A} (body handler : Py A) :
  keeps body → keeps handler → keeps (try_except body handler).
Proof.
  intros Hb Hh c w r c' w'. unfold try_except.
  destruct (body (c, w)) as [[a|e] [c1 w1]] eqn:H1;
    apply Hb in H1 as [-> Hw1].
  - by intros [= <- <- <-].
  - intros [-> Hw2]%Hh. split; [done|]. by eapply extends_trans.
Qed.

Lemma keeps_external k effect :
  (∀ w, params (effect w) !! PARAM_EXP_RES = params w !! PARAM_EXP_RES ∧
        calls (effect w) = calls w) →
  keeps (external k effect).
Proof.
  intros He c w r c' w' H.
  apply external_inv in H
    as [-> [(_ & fs & -> & _) | (e & fs & _ & _ & ->)]];
    (split; [done|]); unfold called; split.
  - by rewrite (proj1 (He _)).
  - exists [k]. by rewrite (proj2 (He _)).
  - done.
  - by exists [k].
Qed.

(** ** The VTM sequence *)

Lemma iter_ok_start time_list : iter_ok time_list time_list 0.
Proof. exists 0%nat. rewrite drop_0. repeat split. lia. Qed.

Lemma succ_mod_congr (k i n : nat) :
  (k mod n = i mod n → S k mod n = S i mod n)%nat.
Proof.
  intros H. rewrite <- (Nat.add_1_r k), <- (Nat.add_1_r i).
  rewrite <- (Nat.Div0.add_mod_idemp_l k), <- (Nat.Div0.add_mod_idemp_l i).
  by rewrite H.
Qed.

Lemma check_times_inv time_list s r s' :
  check_times time_list s = (r, s') →
  s' = s ∧ (r = Raise ValueError ∨ r = Return () ∧ valid_times time_list).
Proof.
  induction time_list as [|t rest IH]; cbn [check_times].
  - intros [= <- <-]. split; [done|]. right. split; [done|constructor].
  - destruct (in_range t 0 (2 ^ 16)) eqn:Ht.
    + intros [-> [-> | [-> Hv]]]%IH; (split; [done|]); [by left|right].
      split; [done|]. constructor; [|done]. by apply in_range_spec in Ht.
    + intros [= <- <-]. split; [done|]. by left.
Qed.

Lemma check_times_valid time_list s :
  valid_times time_list → check_times time_list s = (Return (), s).
Proof.
  induction 1 as [|t rest Ht _ IH]; cbn [check_times]; [done|].
  apply in_range_spec in Ht. by rewrite Ht.
Qed.

Lemma set_param_quiet id v c w m :
  quiet (S m) (faults w) →
  ∃ w', set_param id v (c, w) = (Return (), (c, w')) ∧
    calls w' = calls w ++ [Call_set_param (__handle c) id v] ∧
    params w' = <[id := v]> (params w) ∧
    faults w' = drop 1 (faults w).
Proof.
  intros Hq. unfold set_param, pvc_set_param. py_step.
  rewrite (external_quiet _ _ _ _ _ Hq). by eexists.
Qed.

Lemma set_param_Return_inv id v c w c' w' :
  set_param id v (c, w) = (Return (), (c', w')) →
  c' = c ∧ calls w' = calls w ++ [Call_set_param (__handle c) id v] ∧
  params w' = <[id := v]> (params w).
Proof.
  unfold set_param, pvc_set_param. py_step.
  by intros [-> [(_ & fs & -> & _) | (e & fs & [=] & _)]]%external_inv.
Qed.

Lemma keeps_set_param id v : id ≠ PARAM_EXP_RES → keeps (set_param id v).
Proof.
  intros Hid. unfold set_param, pvc_set_param.
  apply keeps_bind; [apply keeps_self|]. intros h.
  apply keeps_external. intros w. cbn. by rewrite lookup_insert_ne.
Qed.

Lemma keeps_set_vtm_exp_time v : keeps (set_vtm_exp_time v).
Proof.
  unfold set_vtm_exp_time. destruct (in_range _ _ _);
    [by apply keeps_set_param|apply keeps_raise].
Qed.

Lemma keeps_next_exposure t : keeps (next_exposure t).
Proof.
  destruct t as [|v rest]; cbn [next_exposure]; [apply keeps_raise|].
  apply keeps_bind; [apply keeps_set_vtm_exp_time|]. intros _. apply keeps_ret.
Qed.

Lemma keeps_time_sleep ms : keeps (time_sleep ms).
Proof.
  intros c w r c' w'. unfold time_sleep. destruct (ms <? 0).
  - intros [= <- <- <-]. split; [done|apply extends_refl].
  - intros [= <- <- <-]. split; [done|]. split; [done|]. by eexists.
Qed.

Lemma keeps_get_frame h x0 x1 bx y0 y1 by_ exp mode :
  keeps (pvc_get_frame h x0 x1 bx y0 y1 by_ exp mode).
Proof.
  unfold pvc_get_frame. apply keeps_bind.
  { apply keeps_pure. intros s. by eexists. }
  intros n. apply keeps_bind; [|intros _; apply keeps_ret].
  by apply keeps_external.
Qed.

Ltac keeps_tac :=
  lazymatch goal with
  | |- keeps (_ ≫= _) => apply keeps_bind; [keeps_tac | intros ?; keeps_tac]
  | |- keeps (match ?x with _ => _ end) => destruct x; keeps_tac
  | |- _ =>
      first [ apply keeps_self | apply keeps_get_frame | apply keeps_or_raise
            | apply keeps_ret | apply keeps_raise | apply keeps_time_sleep
            | match goal with H : ∀ t, keeps _ |- _ => apply H end ]
  end.

(** The loop never writes the object, keeps the exposure resolution and
    only appends to the log, whatever the fault script. *)
Lemma keeps_vtm_loop time_list x0 x1 y0 y1 interval n :
  ∀ t, keeps (vtm_loop time_list x0 x1 y0 y1 interval n t).
Proof.
  induction n as [|n IH]; intros t; cbn [vtm_loop]; [apply keeps_ret|].
  apply keeps_bind.
  { apply keeps_try_except; apply keeps_next_exposure. }
  intros t'. unfold bin_x, bin_y. keeps_tac.
Qed.

Lemma get_frame_quiet h x0 x1 bx y0 y1 by_ exp mode c w m :
  quiet (S m) (faults w) →
  ∃ w', pvc_get_frame h x0 x1 bx y0 y1 by_ exp mode (c, w)
        = (Return (length (calls w)), (c, w')) ∧
    calls w' = calls w ++ [Call_get_frame h x0 x1 bx y0 y1 by_ exp mode] ∧
    params w' = params w ∧
    faults w' = drop 1 (faults w).
Proof.
  intros Hq. unfold pvc_get_frame. py_step.
  rewrite (external_quiet _ _ _ _ _ Hq). by eexists.
Qed.

Lemma get_frame_fault h x0 x1 bx y0 y1 by_ exp mode c w e fs :
  faults w = Some e :: fs →
  ∃ w', pvc_get_frame h x0 x1 bx y0 y1 by_ exp mode (c, w)
        = (Raise e, (c, w')) ∧
    calls w' = calls w ++ [Call_get_frame h x0 x1 bx y0 y1 by_ exp mode] ∧
    params w' = params w.
Proof.
  intros Hf. unfold pvc_get_frame. py_step.
  rewrite (external_fault _ _ _ _ _ _ Hf). by eexists.
Qed.

Lemma sleep_step interval c w :
  valid_interval interval →
  ∃ w', match interval with PInt ms => time_sleep ms | _ => mret () end (c, w)
        = (Return (), (c, w')) ∧
    calls w' = calls w ++
               match interval with PInt ms => [Call_sleep ms] | _ => [] end ∧
    params w' = params w ∧ faults w' = faults w.
Proof.
  intros Hi.
  destruct interval as [|ms| |]; try (exists w; by rewrite app_nil_r).
  unfold time_sleep. pose proof (Hi ms eq_refl).
  destruct (ms <? 0) eqn:Hms; [lia|]. by eexists.
Qed.

Lemma bind_self {A B} (f : Camera → A) (g : A → Py B) c w :
  (self f ≫= g) (c, w) = g (f c) (c, w).
Proof. reflexivity. Qed.

Lemma bin_x_bind {B} (g : Z → Py B) c w :
  (bin_x ≫= g) (c, w) = g (__binning c).1 (c, w).
Proof. reflexivity. Qed.

Lemma bin_y_bind {B} (g : Z → Py B) c w :
  (bin_y ≫= g) (c, w) = g (__binning c).2 (c, w).
Proof. reflexivity. Qed.

Lemma bind_or_raise_Some {A B} e (a : A) (g : A → Py B) s :
  (or_raise e (Some a) ≫= g) s = g a s.
Proof. reflexivity. Qed.

Lemma next_exposure_lookup (l : list Z) v :
  l !! 0%nat = Some v →
  next_exposure l = (set_vtm_exp_time v;; mret (drop 1 l)).
Proof. destruct l as [|v' rest]; [done|]. by intros [= ->]. Qed.

Section vtm_run.
Context (time_list : list Z) (interval : pyobj) (c : Camera).
Context (x0 x1 y0 y1 : Z) (sh : Z * Z).
Hypothesis Hne : time_list ≠ [].
Hypothesis Hvalid : valid_times time_list.
Hypothesis Hshape : __shape c = Some sh.
Hypothesis Hint : valid_interval interval.

Lemma set_vtm_exp_time_quiet v w m :
  v ∈ time_list → quiet (S m) (faults w) →
  ∃ w', set_vtm_exp_time v (c, w) = (Return (), (c, w')) ∧
    calls w' = calls w ++ [Call_set_param (__handle c) PARAM_EXP_TIME v] ∧
    params w' !! PARAM_EXP_RES = params w !! PARAM_EXP_RES ∧
    faults w' = drop 1 (faults w).
Proof.
  intros Hv Hq. unfold set_vtm_exp_time.
  assert (in_range v 0 (2 ^ 16) = true) as ->.
  { apply in_range_spec. by eapply (proj1 (Forall_forall _ _) Hvalid). }
  destruct (set_param_quiet PARAM_EXP_TIME v c w m Hq)
    as (w' & Hrun & Hcalls & Hparams & Hfaults).
  exists w'. repeat split; try done. by rewrite Hparams, lookup_insert_ne.
Qed.

(** One step of the iterator: the exposure time of frame [i] is set, by
    the [try] branch or, at the end of the list, by the restart in the
    [except] branch. *)
Lemma next_exposure_quiet t i w m :
  iter_ok time_list t i → quiet (S m) (faults w) →
  ∃ t' w',
    try_except (next_exposure t) (next_exposure time_list) (c, w)
    = (Return t', (c, w')) ∧
    iter_ok time_list t' (S i) ∧
    calls w' = calls w ++ [Call_set_param (__handle c) PARAM_EXP_TIME
                             (schedule time_list i)] ∧
    params w' !! PARAM_EXP_RES = params w !! PARAM_EXP_RES ∧
    faults w' = drop 1 (faults w).
Proof.
  intros (k & -> & Hk & Hmod) Hq.
  destruct (decide (k = length time_list)) as [->|Hlt].
  - rewrite drop_all. unfold try_except. cbn [next_exposure raise].
    assert (0 < length time_list)%nat as Hpos
      by (destruct time_list; [done|cbn; lia]).
    destruct (lookup_lt_is_Some_2 _ _ Hpos) as [v Hv].
    rewrite (next_exposure_lookup _ _ Hv).
    destruct (set_vtm_exp_time_quiet v w m) as (w' & Hrun & Hc & Hp & Hf);
      [by eapply list_elem_of_lookup_2|done|].
    rewrite (bind_Return _ _ _ _ _ Hrun). exists (drop 1 time_list), w'.
    split; [done|]. split; [|split; [|done]].
    + exists 1%nat. split; [done|]. split; [lia|].
      apply (succ_mod_congr 0). rewrite <- Hmod.
      by rewrite Nat.Div0.mod_same, Nat.Div0.mod_0_l.
    + rewrite Hc. unfold schedule.
      by rewrite <- Hmod, Nat.Div0.mod_same, Hv.
  - assert (k < length time_list)%nat as Hklt by lia.
    destruct (lookup_lt_is_Some_2 _ _ Hklt) as [v Hv].
    rewrite (drop_S _ _ _ Hv). unfold try_except. cbn [next_exposure].
    destruct (set_vtm_exp_time_quiet v w m) as (w' & Hrun & Hc & Hp & Hf);
      [by eapply list_elem_of_lookup_2|done|].
    rewrite (bind_Return _ _ _ _ _ Hrun). exists (drop (S k) time_list), w'.
    split; [done|]. split; [|split; [|done]].
    + exists (S k). split; [done|]. split; [lia|]. by apply succ_mod_congr.
    + rewrite Hc. unfold schedule.
      rewrite <- Hmod, Nat.mod_small by done. by rewrite Hv.
Qed.

(** One iteration under a script whose first two entries are no fault:
    the exposure time of frame [i] is set, the frame is captured, and
    the loop goes on with the next iterator. *)
Lemma vtm_iteration_quiet n t i w :
  iter_ok time_list t i → quiet 2 (faults w) →
  ∃ t' f w',
    vtm_loop time_list x0 x1 y0 y1 interval (S n) t (c, w)
    = (vtm_loop time_list x0 x1 y0 y1 interval n t'
         ≫= λ stack, mret (f :: stack)) (c, w') ∧
    iter_ok time_list t' (S i) ∧
    calls w' = calls w ++ frame_calls c (x0, x1, y0, y1) interval
                            (schedule time_list i) ∧
    params w' !! PARAM_EXP_RES = params w !! PARAM_EXP_RES ∧
    faults w' = drop 2 (faults w).
Proof.
  intros Hit Hq. cbn [vtm_loop].
  destruct (next_exposure_quiet t i w _ Hit Hq)
    as (t' & w1 & Hrun1 & Hit' & Hc1 & Hp1 & Hf1).
  rewrite (bind_Return _ _ _ _ _ Hrun1).
  apply quiet_S in Hq as [_ Hq]. rewrite <- Hf1 in Hq.
  rewrite bind_self, bin_x_bind, bin_y_bind, !bind_self.
  destruct (get_frame_quiet (__handle c) x0 (x1 - 1) (__binning c).1
              y0 (y1 - 1) (__binning c).2 (__exp_time c) (__mode c)
              c w1 _ Hq) as (w2 & Hrun2 & Hc2 & Hp2 & Hf2).
  rewrite (bind_Return _ _ _ _ _ Hrun2).
  rewrite bind_self, Hshape, bind_or_raise_Some.
  destruct (sleep_step interval c w2 Hint) as (w3 & Hrun3 & Hc3 & Hp3 & Hf3).
  rewrite (bind_Return _ _ _ _ _ Hrun3).
  exists t', (length (calls w1)), w3. split; [done|]. split; [done|].
  split; [|split].
  - rewrite Hc3, Hc2, Hc1. cbn [frame_calls]. by rewrite <- !app_assoc.
  - by rewrite Hp3, Hp2, Hp1.
  - by rewrite Hf3, Hf2, Hf1, drop_drop.
Qed.

(** One iteration whose capture call fails: the exposure time of frame
    [i] is set and the exception of the capture leaves the loop. *)
Lemma vtm_iteration_fault n t i w e rest :
  iter_ok time_list t i → faults w = None :: Some e :: rest →
  ∃ w',
    vtm_loop time_list x0 x1 y0 y1 interval (S n) t (c, w)
    = (Raise e, (c, w')) ∧
    calls w' = calls w ++
               take 2 (frame_calls c (x0, x1, y0, y1) interval
                         (schedule time_list i)) ∧
    params w' !! PARAM_EXP_RES = params w !! PARAM_EXP_RES.
Proof.
  intros Hit Hfw. cbn [vtm_loop].
  assert (quiet 1 (faults w)) as Hq.
  { rewrite Hfw. apply (quiet_replicate 1). }
  destruct (next_exposure_quiet t i w _ Hit Hq)
    as (t' & w1 & Hrun1 & Hit' & Hc1 & Hp1 & Hf1).
  rewrite (bind_Return _ _ _ _ _ Hrun1).
  rewrite Hfw in Hf1. cbn [drop] in Hf1.
  rewrite bind_self, bin_x_bind, bin_y_bind, !bind_self.
  destruct (get_frame_fault (__handle c) x0 (x1 - 1) (__binning c).1
              y0 (y1 - 1) (__binning c).2 (__exp_time c) (__mode c)
              c w1 _ _ Hf1) as (w2 & Hrun2 & Hc2 & Hp2).
  rewrite (bind_Raise _ _ _ _ _ Hrun2).
  exists w2. split; [done|]. split.
  - rewrite Hc2, Hc1. cbn [frame_calls take app]. by rewrite <- !app_assoc.
  - by rewrite Hp2, Hp1.
Qed.

(** The loop under a script with no fault in its first [2 * n] entries. *)
Lemma vtm_loop_quiet n : ∀ i t w,
  iter_ok time_list t i → quiet (2 * n) (faults w) →
  ∃ frames w',
    vtm_loop time_list x0 x1 y0 y1 interval n t (c, w)
    = (Return frames, (c, w')) ∧
    length frames = n ∧
    calls w' = calls w ++
               flat_map (λ j, frame_calls c (x0, x1, y0, y1) interval
                                (schedule time_list j)) (seq i n) ∧
    params w' !! PARAM_EXP_RES = params w !! PARAM_EXP_RES ∧
    faults w' = drop (2 * n) (faults w).
Proof.
  induction n as [|n IH]; intros i t w Hit Hq.
  { exists [], w. cbn. by rewrite app_nil_r. }
  replace (2 * S n)%nat with (2 + 2 * n)%nat in * by lia.
  destruct (vtm_iteration_quiet n t i w Hit)
    as (t' & f & w1 & -> & Hit' & Hc1 & Hp1 & Hf1).
  { eapply quiet_le; [|done]. lia. }
  assert (quiet (2 * n) (faults w1)) as Hq1.
  { rewrite Hf1. by apply quiet_drop. }
  destruct (IH (S i) t' w1 Hit' Hq1)
    as (frames & w2 & Hrun2 & Hlen & Hc2 & Hp2 & Hf2).
  rewrite (bind_Return _ _ _ _ _ Hrun2).
  exists (f :: frames), w2. split; [done|].
  split; [by rewrite length_cons, Hlen|]. split; [|split].
  - rewrite Hc2, Hc1. cbn [seq flat_map]. by rewrite <- !app_assoc.
  - by rewrite Hp2, Hp1.
  - rewrite Hf2, Hf1, drop_drop. f_equal; lia.
Qed.

(** The loop when the capture of frame [k] is the first call to fail:
    the frames before it went through the schedule, the exposure time
    of frame [k] was set, and the exception of the capture leaves the
    loop. *)
Lemma vtm_loop_capture_fault n : ∀ k i t w e rest,
  (k < n)%nat →
  faults w = replicate (2 * k + 1) None ++ Some e :: rest →
  iter_ok time_list t i →
  ∃ w',
    vtm_loop time_list x0 x1 y0 y1 interval n t (c, w)
    = (Raise e, (c, w')) ∧
    calls w' = calls w ++
               flat_map (λ j, frame_calls c (x0, x1, y0, y1) interval
                                (schedule time_list j)) (seq i k) ++
               take 2 (frame_calls c (x0, x1, y0, y1) interval
                         (schedule time_list (i + k))) ∧
    params w' !! PARAM_EXP_RES = params w !! PARAM_EXP_RES.
Proof.
  induction n as [|n IH]; intros k i t w e rest Hk Hfw Hit; [lia|].
  destruct k as [|k].
  - destruct (vtm_iteration_fault n t i w e rest Hit Hfw)
      as (w' & Hrun & Hc & Hp).
    exists w'. split; [done|]. split; [|done].
    by rewrite Hc, Nat.add_0_r.
  - replace (2 * S k + 1)%nat with (2 + (2 * k + 1))%nat in Hfw by lia.
    rewrite replicate_add, <- app_assoc in Hfw.
    destruct (vtm_iteration_quiet n t i w Hit)
      as (t' & f & w1 & -> & Hit' & Hc1 & Hp1 & Hf1).
    { rewrite Hfw. apply (quiet_replicate 2). }
    rewrite Hfw in Hf1. cbn [replicate app drop] in Hf1.
    destruct (IH k (S i) t' w1 e rest ltac:(lia) Hf1 Hit')
      as (w2 & Hrun2 & Hc2 & Hp2).
    rewrite (bind_Raise _ _ _ _ _ Hrun2).
    exists w2. split; [done|]. split.
    + rewrite Hc2, Hc1. cbn [seq flat_map].
      rewrite <- !app_assoc. by rewrite Nat.add_succ_comm.
    + by rewrite Hp2, Hp1.
Qed.
End vtm_run.

Section vtm_sequence.
Context (exp_resolutions : gmap string Z).

Lemma set_exp_res_eq value :
  set_exp_res exp_resolutions value
  = match mode_value exp_resolutions value with
    | None => raise ValueError
    | Some v => set_param PARAM_EXP_RES v
    end.
Proof. by destruct value. Qed.

Lemma mode_value_PInt_inv v v' :
  mode_value exp_resolutions (PInt v) = Some v' → v' = v.
Proof. cbn. by destruct (bool_decide _); intros [=]. Qed.

Lemma mode_value_PInt v :
  v ∈ (map_img exp_resolutions : gset Z) →
  mode_value exp_resolutions (PInt v) = Some v.
Proof. intros Hv. cbn. by rewrite bool_decide_eq_true_2. Qed.

Lemma np_empty_bind {B} dims (g : unit → Py B) s :
  Forall (λ d, 0 ≤ d) dims → (np_empty dims ≫= g) s = g () s.
Proof.
  intros Hd. unfold np_empty.
  assert (forallb (Z.leb 0) dims = true) as ->; [|done].
  apply forallb_forall. intros d Hin. apply Z.leb_le.
  by eapply (proj1 (Forall_forall _ _) Hd), list_elem_of_In.
Qed.

(** The schedule under a driver that accepts every call: for a non-empty
    list of valid times and [n] frames, on a camera whose region and shape
    are set, the call returns [n] frames and the calls it has issued are:
    the requested resolution; then for each frame [i] in order the exposure
    time [time_list[i mod len(time_list)]] followed by the capture of
    that frame (and the sleep, when an interval is given); then the
    resolution found on entry. *)
Theorem vtm_exposure_schedule time_list res num_frames interval c w
    roi sh old v :
  time_list ≠ [] → valid_times time_list → valid_interval interval →
  __roi c = Some roi → __shape c = Some sh → 0 ≤ sh.1 → 0 ≤ sh.2 →
  0 ≤ num_frames →
  params w !! PARAM_EXP_RES = Some old →
  old ∈ (map_img exp_resolutions : gset Z) →
  mode_value exp_resolutions res = Some v →
  faults w = [] →
  ∃ frames w',
    get_vtm_sequence exp_resolutions time_list res num_frames interval (c, w)
    = (Return frames, (c, w')) ∧
    length frames = Z.to_nat num_frames ∧
    calls w' = calls w ++
               [Call_set_param (__handle c) PARAM_EXP_RES v] ++
               flat_map (λ i, frame_calls c roi interval
                                (schedule time_list i))
                        (seq 0 (Z.to_nat num_frames)) ++
               [Call_set_param (__handle c) PARAM_EXP_RES old].
Proof.
  intros Hne Hvalid Hint Hroi Hshape Hs1 Hs2 Hn Hold Holdv Hv Hf.
  destruct roi as [[[x0 x1] y0] y1]. unfold get_vtm_sequence.
  rewrite (bind_Return _ _ _ _ _ (check_times_valid _ _ Hvalid)).
  rewrite bind_self, Hroi, bind_or_raise_Some. cbv beta iota.
  unfold exp_res.
  rewrite (bind_Return _ _ _ _ _ (get_param_Some _ _ _ _ Hold)).
  rewrite (set_exp_res_eq res), Hv.
  destruct (set_param_quiet PARAM_EXP_RES v c w 0) as (w1 & Hrun1 & Hc1 & Hp1 & Hf1).
  { rewrite Hf. apply quiet_nil. }
  rewrite (bind_Return _ _ _ _ _ Hrun1).
  rewrite bind_self, Hshape, bind_or_raise_Some.
  rewrite np_empty_bind by (repeat constructor; done).
  rewrite Hf in Hf1. cbn [drop] in Hf1.
  destruct (vtm_loop_quiet time_list interval c x0 x1 y0 y1 sh Hne Hvalid
              Hshape Hint (Z.to_nat num_frames) 0%nat time_list w1)
    as (frames & w2 & Hrun2 & Hlen & Hc2 & Hp2 & Hf2).
  { apply iter_ok_start. }
  { rewrite Hf1. apply quiet_nil. }
  rewrite (bind_Return _ _ _ _ _ Hrun2).
  rewrite (set_exp_res_eq (PInt old)), (mode_value_PInt _ Holdv).
  destruct (set_param_quiet PARAM_EXP_RES old c w2 0) as (w3 & Hrun3 & Hc3 & Hp3 & Hf3).
  { rewrite Hf2, Hf1, drop_nil. apply quiet_nil. }
  rewrite (bind_Return _ _ _ _ _ Hrun3).
  exists frames, w3. split; [done|]. split; [done|].
  rewrite Hc3, Hc2, Hc1. by rewrite <- !app_assoc.
Qed.

Lemma set_exp_res_Return_inv value c w c' w' :
  set_exp_res exp_resolutions value (c, w) = (Return (), (c', w')) →
  ∃ v, mode_value exp_resolutions value = Some v ∧ c' = c ∧
    calls w' = calls w ++ [Call_set_param (__handle c) PARAM_EXP_RES v] ∧
    params w' = <[PARAM_EXP_RES := v]> (params w).
Proof.
  rewrite set_exp_res_eq.
  destruct (mode_value exp_resolutions value) as [v|]; [|done].
  intros (-> & Hc & Hp)%set_param_Return_inv. by exists v.
Qed.

Lemma np_empty_inv dims s r s' : np_empty dims s = (r, s') → s' = s.
Proof. unfold np_empty. by destruct (forallb _ _); intros [= <- <-]. Qed.

(** When the call returns, the requested resolution was the first call
    issued, the resolution found on entry was the last, and the driver
    holds the resolution found on entry: whatever the fault script. *)
Lemma vtm_resolution_restored time_list res num_frames interval c w
    frames c' w' :
  get_vtm_sequence exp_resolutions time_list res num_frames interval (c, w)
  = (Return frames, (c', w')) →
  ∃ old v l,
    params w !! PARAM_EXP_RES = Some old ∧
    mode_value exp_resolutions res = Some v ∧
    calls w' = calls w ++ [Call_set_param (__handle c) PARAM_EXP_RES v] ++
               l ++ [Call_set_param (__handle c) PARAM_EXP_RES old] ∧
    params w' !! PARAM_EXP_RES = Some old.
Proof.
  unfold get_vtm_sequence. intros H.
  apply bind_inv in H as [(u & s1 & H1 & H) | (e & _ & [=])].
  apply check_times_inv in H1 as [-> _].
  rewrite bind_self in H.
  destruct (__roi c) as [[[[x0 x1] y0] y1]|]; [|done].
  rewrite bind_or_raise_Some in H. cbv beta iota in H.
  apply bind_inv in H as [(old & s1 & H1 & H) | (e & _ & [=])].
  apply get_param_inv in H1 as [-> [[=] | (old' & Hold & [= <-])]].
  apply bind_inv in H as [([] & [c1 w1] & H1 & H) | (e & _ & [=])].
  apply set_exp_res_Return_inv in H1 as (v & Hv & -> & Hc1 & Hp1).
  rewrite bind_self in H. destruct (__shape c) as [sh|]; [|done].
  rewrite bind_or_raise_Some in H.
  apply bind_inv in H as [([] & s2 & H2 & H) | (e & _ & [=])].
  apply np_empty_inv in H2 as ->.
  apply bind_inv in H as [(stack & [c3 w3] & H3 & H) | (e & _ & [=])].
  apply keeps_vtm_loop in H3 as [-> [Hp3 [l Hl]]].
  apply bind_inv in H as [([] & [c4 w4] & H4 & H) | (e & _ & [=])].
  apply set_exp_res_Return_inv in H4 as (v' & Hv' & -> & Hc4 & Hp4).
  apply mode_value_PInt_inv in Hv' as ->.
  injection H as <- <- <-.
  exists old, v, l. repeat split; try done.
  - rewrite Hc4, Hl, Hc1. by rewrite <- !app_assoc.
  - by rewrite Hp4, lookup_insert_eq.
Qed.

(** When the capture of frame [k] is the first call to fail, its
    exception leaves [get_vtm_sequence]: the last call issued is that
    capture, and the driver holds the requested resolution. *)
Lemma vtm_capture_fault time_list res num_frames interval c w roi sh old v
    k e rest :
  time_list ≠ [] → valid_times time_list → valid_interval interval →
  __roi c = Some roi → __shape c = Some sh → 0 ≤ sh.1 → 0 ≤ sh.2 →
  0 ≤ num_frames → (k < Z.to_nat num_frames)%nat →
  params w !! PARAM_EXP_RES = Some old →
  mode_value exp_resolutions res = Some v →
  faults w = replicate (2 + 2 * k) None ++ Some e :: rest →
  ∃ w',
    get_vtm_sequence exp_resolutions time_list res num_frames interval (c, w)
    = (Raise e, (c, w')) ∧
    params w' !! PARAM_EXP_RES = Some v ∧
    calls w' = calls w ++
               [Call_set_param (__handle c) PARAM_EXP_RES v] ++
               flat_map (λ i, frame_calls c roi interval
                                (schedule time_list i)) (seq 0 k) ++
               take 2 (frame_calls c roi interval (schedule time_list k)).
Proof.
  intros Hne Hvalid Hint Hroi Hshape Hs1 Hs2 Hn Hk Hold Hv Hf.
  destruct roi as [[[x0 x1] y0] y1]. unfold get_vtm_sequence.
  rewrite (bind_Return _ _ _ _ _ (check_times_valid _ _ Hvalid)).
  rewrite bind_self, Hroi, bind_or_raise_Some. cbv beta iota.
  unfold exp_res.
  rewrite (bind_Return _ _ _ _ _ (get_param_Some _ _ _ _ Hold)).
  rewrite (set_exp_res_eq res), Hv.
  destruct (set_param_quiet PARAM_EXP_RES v c w 0)
    as (w1 & Hrun1 & Hc1 & Hp1 & Hf1).
  { rewrite Hf. apply (quiet_le (2 + 2 * k)); [lia|apply quiet_replicate]. }
  rewrite (bind_Return _ _ _ _ _ Hrun1).
  rewrite bind_self, Hshape, bind_or_raise_Some.
  rewrite np_empty_bind by (repeat constructor; done).
  rewrite Hf in Hf1.
  replace (2 + 2 * k)%nat with (S (2 * k + 1)) in Hf1 by lia.
  cbn [replicate app drop] in Hf1.
  destruct (vtm_loop_capture_fault time_list interval c x0 x1 y0 y1 sh Hne
              Hvalid Hshape Hint (Z.to_nat num_frames) k 0%nat time_list w1
              e rest Hk Hf1 (iter_ok_start _))
    as (w2 & Hrun2 & Hc2 & Hp2).
  rewrite (bind_Raise _ _ _ _ _ Hrun2).
  exists w2. split; [done|]. split.
  - by rewrite Hp2, Hp1, lookup_insert_eq.
  - rewrite Hc2, Hc1. by rewrite <- !app_assoc.
Qed.
End vtm_sequence.

Example vtm_demo_run :
  get_vtm_sequence demo_exp_resolutions [10; 20; 30] (PInt 1) 7 PNone
    (demo_camera, demo_world)
  = (Return [2; 4; 6; 8; 10; 12; 14]%nat, (demo_camera, vtm_demo_world)).
Proof. vm_compute. reflexivity. Qed.

Lemma vtm_exposure_schedule_witness :
  ∃ frames w',
    get_vtm_sequence demo_exp_resolutions [10; 20; 30] (PInt 1) 7 PNone
      (demo_camera, demo_world)
    = (Return frames, (demo_camera, w')) ∧
    length frames = 7%nat ∧
    calls w' = vtm_demo_calls.
Proof.
  destruct (vtm_exposure_schedule demo_exp_resolutions [10; 20; 30] (PInt 1)
              7 PNone demo_camera demo_world (0, 2048, 0, 2048) (2048, 2048)
              0 1)
    as (frames & w' & Hrun & Hlen & Hcalls).
  - done.
  - repeat constructor; lia.
  - intros ms [=].
  - reflexivity.
  - reflexivity.
  - cbn; lia.
  - cbn; lia.
  - lia.
  - reflexivity.
  - apply elem_of_map_img. exists "One Millisecond"%string. reflexivity.
  - reflexivity.
  - reflexivity.
  - exists frames, w'. split; [exact Hrun|]. split; [exact Hlen|exact Hcalls].
Defined.

(** C8: the failing input.  [get_vtm_sequence([10, 20, 30], 1, 4)] on the
    demo camera, with a driver that raises RuntimeError on the exposure-time
    write of frame 1.  The [except:] clause that restarts the iterator at
    the end of the list catches that exception as well: the call returns
    four frames, taken with the times 10, 10, 20, 30 and not 10, 20, 30, 10,
    and the caller never sees the driver's error. *)
Theorem vtm_schedule_failing_write :
  ∃ frames w',
    get_vtm_sequence demo_exp_resolutions [10; 20; 30] (PInt 1) 4 PNone
      (demo_camera,
       with_faults [None; None; None; Some RuntimeError] demo_world)
    = (Return frames, (demo_camera, w')) ∧
    length frames = 4%nat ∧
    calls w' = [Call_set_param 0 PARAM_EXP_RES 1;
                Call_set_param 0 PARAM_EXP_TIME 10;
                Call_get_frame 0 0 2047 1 0 2047 1 10 (Some 0);
                Call_set_param 0 PARAM_EXP_TIME 20;
                Call_set_param 0 PARAM_EXP_TIME 10;
                Call_get_frame 0 0 2047 1 0 2047 1 10 (Some 0);
                Call_set_param 0 PARAM_EXP_TIME 20;
                Call_get_frame 0 0 2047 1 0 2047 1 10 (Some 0);
                Call_set_param 0 PARAM_EXP_TIME 30;
                Call_get_frame 0 0 2047 1 0 2047 1 10 (Some 0);
                Call_set_param 0 PARAM_EXP_RES 0] ∧
    calls w' ≠ calls demo_world ++
               [Call_set_param 0 PARAM_EXP_RES 1] ++
               flat_map (λ i, frame_calls demo_camera (0, 2048, 0, 2048)
                                PNone (schedule [10; 20; 30] i)) (seq 0 4) ++
               [Call_set_param 0 PARAM_EXP_RES 0].
Proof.
  eexists _, _. split; [vm_compute; reflexivity|].
  split; [reflexivity|]. split; [reflexivity|]. by vm_compute.
Qed.

(** C7, as stated, fails: when the second capture raises, the call exits
    with the driver at the requested resolution 1, not at the resolution 0
    found on entry. *)
Lemma vtm_resolution_counterexample :
  ¬ (∀ exp_resolutions time_list res num_frames interval c w r c' w',
       valid_times time_list →
       get_vtm_sequence exp_resolutions time_list res num_frames interval
         (c, w) = (r, (c', w')) →
       params w' !! PARAM_EXP_RES = params w !! PARAM_EXP_RES).
Proof.
  intros H.
  destruct (get_vtm_sequence demo_exp_resolutions [10; 20; 30] (PInt 1) 7
              PNone (demo_camera, faulty_world)) as [r [c' w']] eqn:Hrun.
  assert (valid_times [10; 20; 30]) as Hvalid by (repeat constructor; lia).
  pose proof (H _ _ _ _ _ _ _ _ _ _ Hvalid Hrun) as Hp.
  vm_compute in Hrun. injection Hrun as <- <- <-.
  vm_compute in Hp. discriminate Hp.
Qed.

(** C7 (amended): [get_vtm_sequence] sets the requested resolution as its
    first call.  When it returns, its last call has set the resolution
    found on entry again and the driver holds it.  When the capture of a
    frame is the first call to fail, the exception leaves the method at
    once: no further call is issued and the driver is left at the
    requested resolution. *)
Theorem vtm_resolution exp_resolutions time_list res num_frames interval
    c w r c' w' :
  get_vtm_sequence exp_resolutions time_list res num_frames interval (c, w)
  = (r, (c', w')) →
  (∀ frames, r = Return frames →
     ∃ old v l,
       params w !! PARAM_EXP_RES = Some old ∧
       mode_value exp_resolutions res = Some v ∧
       calls w' = calls w ++ [Call_set_param (__handle c) PARAM_EXP_RES v] ++
                  l ++ [Call_set_param (__handle c) PARAM_EXP_RES old] ∧
       params w' !! PARAM_EXP_RES = Some old) ∧
  (∀ roi sh old v k e rest,
     time_list ≠ [] → valid_times time_list → valid_interval interval →
     __roi c = Some roi → __shape c = Some sh → 0 ≤ sh.1 → 0 ≤ sh.2 →
     0 ≤ num_frames → (k < Z.to_nat num_frames)%nat →
     params w !! PARAM_EXP_RES = Some old →
     mode_value exp_resolutions res = Some v →
     faults w = replicate (2 + 2 * k) None ++ Some e :: rest →
     r = Raise e ∧ c' = c ∧
     params w' !! PARAM_EXP_RES = Some v ∧
     calls w' = calls w ++
                [Call_set_param (__handle c) PARAM_EXP_RES v] ++
                flat_map (λ i, frame_calls c roi interval
                                 (schedule time_list i)) (seq 0 k) ++
                take 2 (frame_calls c roi interval (schedule time_list k))).
Proof.
  intros H. split.
  - intros frames ->. by eapply vtm_resolution_restored.
  - intros roi sh old v k e rest Hne Hvalid Hint Hroi Hshape Hs1 Hs2 Hn Hk
      Hold Hv Hf.
    destruct (vtm_capture_fault exp_resolutions time_list res num_frames
                interval c w roi sh old v k e rest)
      as (w2 & Hrun & Hp & Hc); try done.
    rewrite Hrun in H. by injection H as <- <- <-.
Qed.

Lemma vtm_resolution_witness :
  ∃ old v l,
    params demo_world !! PARAM_EXP_RES = Some old ∧
    mode_value demo_exp_resolutions (PInt 1) = Some v ∧
    calls vtm_demo_world
    = calls demo_world ++ [Call_set_param (__handle demo_camera) PARAM_EXP_RES v] ++
      l ++ [Call_set_param (__handle demo_camera) PARAM_EXP_RES old] ∧
    params vtm_demo_world !! PARAM_EXP_RES = Some old.
Proof.
  apply (proj1 (vtm_resolution demo_exp_resolutions [10; 20; 30] (PInt 1) 7
                  PNone demo_camera demo_world
                  (Return [2; 4; 6; 8; 10; 12; 14]%nat)
                  demo_camera vtm_demo_world
                  ltac:(vm_compute; reflexivity))
               [2; 4; 6; 8; 10; 12; 14]%nat eq_refl).
Defined.

(** * Further properties *)

(** ** Geometry: rejection, invariants, the joint forms *)

Lemma mapM_as_int_inv items l :
  mapM as_int items = Some l → items = PInt <$> l.
Proof.
  rewrite mapM_Some. induction 1 as [|x y items l Hx _ IH]; [done|].
  destruct x; try done. cbn in Hx. injection Hx as ->. by rewrite IH.
Qed.

Lemma roi_tuple_Some_inv value a b c d :
  roi_tuple value = Some (a, b, c, d) →
  value = PTuple [PInt a; PInt b; PInt c; PInt d].
Proof.
  destruct value as [| | |items]; try done. cbn [roi_tuple].
  destruct (mapM as_int items) as [l|] eqn:E; [|done].
  apply mapM_as_int_inv in E as ->.
  destruct l as [|? [|? [|? [|? [|? ?]]]]]; try done.
  by intros [= -> -> -> ->].
Qed.

Lemma in_values_Some value d v :
  in_values value d = Some v → value = PInt v ∧ v ∈ (map_img d : gset Z).
Proof.
  destruct value as [|z| |]; try done. cbn.
  destruct (bool_decide (z ∈ map_img d)) eqn:E; [|done].
  intros [= <-]. by apply bool_decide_eq_true_1 in E.
Qed.

Lemma in_values_PInt v d :
  v ∈ (map_img d : gset Z) → in_values (PInt v) d = Some v.
Proof. intros Hv. cbn. by rewrite bool_decide_eq_true_2. Qed.

Lemma in_values_PInt_None v d :
  v ∉ (map_img d : gset Z) → in_values (PInt v) d = None.
Proof. intros Hv. cbn. by rewrite bool_decide_eq_false_2. Qed.

(** [calculate_reshape] raises only for a missing region or a binning
    factor 0. *)
Lemma calculate_reshape_Raise_inv c w e s' :
  calculate_reshape (c, w) = (Raise e, s') →
  s' = (c, w) ∧
  (__roi c = None ∨ (__binning c).1 = 0 ∨ (__binning c).2 = 0).
Proof.
  intros H. destruct s' as [c' w']. pose proof H as H'.
  apply calculate_reshape_inv in H' as [-> [([=] & _) | (e' & _ & _ & ->)]].
  split; [done|].
  destruct (__roi c) as [roi|] eqn:Hroi; [|by left]. right.
  destruct (decide ((__binning c).1 = 0)) as [|Hx]; [by left|].
  destruct (decide ((__binning c).2 = 0)) as [|Hy]; [by right|].
  by rewrite (calculate_reshape_Return _ _ _ Hroi Hx Hy) in H.
Qed.

(** Every outcome of the [roi] setter: nothing has changed and it raised;
    or the region passed the tests and was stored, and then either the
    shape was recomputed, or the recomputation raised on a binning
    factor 0. *)
Lemma set_roi_inv value c w r c' w' :
  set_roi value (c, w) = (r, (c', w')) →
  w' = w ∧
  ((c' = c ∧ ∃ e, r = Raise e) ∨
   ∃ roi sw sh,
     roi_tuple value = Some roi ∧
     params w !! PARAM_SER_SIZE = Some sw ∧
     params w !! PARAM_PAR_SIZE = Some sh ∧
     roi_inside roi sw sh = true ∧
     ((r = Return () ∧ (__binning c).1 ≠ 0 ∧ (__binning c).2 ≠ 0 ∧
       c' = with_shape (Some (shape_of roi (__binning c)))
              (with_roi (Some roi) c)) ∨
      (∃ e, r = Raise e ∧ c' = with_roi (Some roi) c ∧
            ((__binning c).1 = 0 ∨ (__binning c).2 = 0)))).
Proof.
  unfold set_roi.
  destruct (roi_tuple value) as [[[[v0 v1] v2] v3]|] eqn:Ht; cycle 1.
  { intros [= <- <- <-]. split; [done|]. left. split; [done|]. by eexists. }
  intros H. apply bind_inv in H as [(b & s1 & H1 & H) | (e & H1 & ->)].
  - apply inside_sensor_inv in H1
      as [-> [[=] | [[= ->] | (sw & sh & Hsw & Hsh & Hin & [= ->])]]].
    { injection H as <- <- <-. split; [done|]. left. split; [done|].
      by eexists. }
    apply bind_inv in H as [([] & [c1 w1] & H1 & H) | (e & [=] & _)].
    injection H1 as <- <-. destruct r as [[]|e].
    + apply calculate_reshape_inv in H
        as [-> [(_ & Hx & Hy & roi & Hroi & ->) | (e & [=] & _)]].
      cbn in Hroi. injection Hroi as <-. split; [done|]. right.
      exists (v0, v1, v2, v3), sw, sh. repeat split; try done. by left.
    + apply calculate_reshape_Raise_inv in H as [[= -> ->] Hz].
      split; [done|]. right. exists (v0, v1, v2, v3), sw, sh.
      repeat split; try done. right. exists e. repeat split; try done.
      by destruct Hz as [[=]|Hz].
  - apply inside_sensor_inv in H1 as [[= -> ->] _].
    split; [done|]. left. split; [done|]. by eexists.
Qed.

(** Every outcome of a scalar binning setter. *)
Lemma axis_setter_outcome chk msg upd value c w r c' w' :
  axis_setter chk msg upd value (c, w) = (r, (c', w')) →
  w' = w ∧
  ((c' = c ∧ ∃ e, r = Raise e) ∨
   ∃ d v, enums w !! chk = Some d ∧ in_values value d = Some v ∧
     ((r = Return () ∧ ∃ roi, __roi c = Some roi ∧
         (upd v (__binning c)).1 ≠ 0 ∧ (upd v (__binning c)).2 ≠ 0 ∧
         c' = with_shape (Some (shape_of roi (upd v (__binning c))))
                (with_binning (upd v (__binning c)) c)) ∨
      (∃ e, r = Raise e ∧ c' = with_binning (upd v (__binning c)) c ∧
            (__roi c = None ∨ (upd v (__binning c)).1 = 0 ∨
             (upd v (__binning c)).2 = 0)))).
Proof.
  unfold axis_setter. intros H.
  apply bind_inv in H as [(d & s1 & H1 & H) | (e & H1 & ->)]; cycle 1.
  { apply read_enum_inv in H1 as [[= -> ->] _]. split; [done|]. left.
    split; [done|]. by eexists. }
  apply read_enum_inv in H1 as [-> [[=] | (d' & Hd & [= <-])]].
  destruct (in_values value d) as [v|] eqn:Hv.
  - rewrite bind_self in H.
    apply bind_inv in H as [([] & [c1 w1] & H1 & H) | (e & [=] & _)].
    injection H1 as <- <-. destruct r as [[]|e].
    + apply calculate_reshape_inv in H
        as [-> [(_ & Hx & Hy & roi & Hroi & ->) | (e & [=] & _)]].
      split; [done|]. right. exists d, v. repeat split; try done. left.
      split; [done|]. by exists roi.
    + apply calculate_reshape_Raise_inv in H as [[= -> ->] Hz].
      split; [done|]. right. exists d, v. repeat split; try done. right.
      by exists e.
  - apply bind_inv in H as [(d2 & s2 & H2 & H) | (e & H2 & ->)].
    + apply read_enum_inv in H2 as [-> _]. injection H as <- <- <-.
      split; [done|]. left. split; [done|]. by eexists.
    + apply read_enum_inv in H2 as [[= -> ->] _]. split; [done|]. left.
      split; [done|]. by eexists.
Qed.

Lemma axis_setter_accept chk msg upd value c w d v roi :
  enums w !! chk = Some d → in_values value d = Some v →
  __roi c = Some roi →
  (upd v (__binning c)).1 ≠ 0 → (upd v (__binning c)).2 ≠ 0 →
  axis_setter chk msg upd value (c, w)
  = (Return (), (with_shape (Some (shape_of roi (upd v (__binning c))))
                   (with_binning (upd v (__binning c)) c), w)).
Proof.
  intros Hd Hv Hroi Hx Hy. unfold axis_setter.
  rewrite (bind_Return _ _ _ _ _ (read_enum_Some _ _ _ _ Hd)), Hv.
  rewrite bind_self.
  by rewrite (bind_Return (assign _) _ (c, w) ()
                (with_binning (upd v (__binning c)) c, w) eq_refl),
    (calculate_reshape_Return _ _ roi).
Qed.

Lemma axis_setter_reject chk msg upd value c w d d' :
  enums w !! chk = Some d → in_values value d = None →
  enums w !! msg = Some d' →
  axis_setter chk msg upd value (c, w) = (Raise ValueError, (c, w)).
Proof.
  intros Hd Hv Hd'. unfold axis_setter.
  rewrite (bind_Return _ _ _ _ _ (read_enum_Some _ _ _ _ Hd)), Hv.
  by rewrite (bind_Return _ _ _ _ _ (read_enum_Some _ _ _ _ Hd')).
Qed.

Lemma set_bin_x_accept v c w d roi :
  enums w !! PARAM_BINNING_SER = Some d → v ∈ (map_img d : gset Z) →
  v ≠ 0 → __roi c = Some roi → (__binning c).2 ≠ 0 →
  set_bin_x (PInt v) (c, w)
  = (Return (), (with_shape (Some (shape_of roi (v, (__binning c).2)))
                   (with_binning (v, (__binning c).2) c), w)).
Proof.
  intros Hd Hin Hv Hroi Hy. rewrite set_bin_x_axis.
  by rewrite (axis_setter_accept _ _ (λ v b, (v, b.2)) _ _ _ d v roi Hd
                (in_values_PInt _ _ Hin) Hroi).
Qed.

(** The joint setter on a tuple, step by step. *)
Lemma set_binning_tuple_steps items c w r c' w' :
  set_binning (PTuple items) (c, w) = (r, (c', w')) →
  (items = [] ∧ r = Raise IndexError ∧ c' = c ∧ w' = w) ∨
  ∃ v0, items !! 0%nat = Some v0 ∧
    ((∃ e, set_bin_x v0 (c, w) = (Raise e, (c', w')) ∧ r = Raise e) ∨
     ∃ c1, set_bin_x v0 (c, w) = (Return (), (c1, w)) ∧
       ((items !! 1%nat = None ∧ r = Raise IndexError ∧ c' = c1 ∧ w' = w) ∨
        ∃ v1, items !! 1%nat = Some v1 ∧
              set_bin_y v1 (c1, w) = (r, (c', w')))).
Proof.
  cbn [set_binning]. intros H.
  apply bind_inv in H as [(v0 & s1 & H0 & H) | (e & H0 & ->)]; cycle 1.
  { apply subscript_inv in H0 as [[= -> ->] [[[= ->] Hnone]|(? & ? & [=])]].
    left. by destruct items. }
  apply subscript_inv in H0 as [-> [[[=] _]|(? & Hv0 & [= <-])]].
  right. exists v0. split; [done|].
  apply bind_inv in H as [([] & [c1 w1] & H0 & H) | (e & H0 & ->)]; cycle 1.
  { left. by exists e. }
  right. pose proof H0 as H0'. rewrite set_bin_x_axis in H0'.
  apply axis_setter_inv in H0' as [-> _]. exists c1. split; [done|].
  apply bind_inv in H as [(v1 & s1 & H1 & H) | (e & H1 & ->)]; cycle 1.
  { apply subscript_inv in H1 as [[= -> ->] [[[= ->] Hnone]|(? & ? & [=])]].
    by left. }
  apply subscript_inv in H1 as [-> [[[=] _]|(? & Hv1 & [= <-])]].
  right. by exists v1.
Qed.

(** A property of the object that every outcome of the two axis setters
    keeps is kept by every outcome of the joint setter on a tuple. *)
Lemma set_binning_tuple_preserves (P : Camera → Prop) items c w r c' w' :
  (∀ value c r c' w', P c → set_bin_x value (c, w) = (r, (c', w')) → P c') →
  (∀ value c r c' w', P c → set_bin_y value (c, w) = (r, (c', w')) → P c') →
  P c → set_binning (PTuple items) (c, w) = (r, (c', w')) → P c'.
Proof.
  intros Hx Hy HP H. apply set_binning_tuple_steps in H
    as [(_ & _ & -> & _) | (v0 & _ & [(e & H0 & _) | (c1 & H0 & H)])];
    [done|by eapply Hx|].
  apply (Hx _ _ _ _ _ HP) in H0.
  destruct H as [(_ & _ & -> & _) | (v1 & _ & H1)]; [done|by eapply Hy].
Qed.

Lemma axis_setter_Return_inv chk msg upd value c w c' w' :
  axis_setter chk msg upd value (c, w) = (Return (), (c', w')) →
  w' = w ∧
  ∃ d v roi, enums w !! chk = Some d ∧ in_values value d = Some v ∧
    __roi c = Some roi ∧
    c' = with_shape (Some (shape_of roi (upd v (__binning c))))
           (with_binning (upd v (__binning c)) c).
Proof.
  intros H. apply axis_setter_outcome in H
    as [-> [[_ [e [=]]] | (d & v & Hd & Hv & [(_ & roi & Hroi & _ & _ & ->)
                                           | (e & [=] & _)])]].
  split; [done|]. by exists d, v, roi.
Qed.

(** A scalar binning setter that raises ValueError has refused the value
    and changed nothing. *)
Lemma axis_setter_ValueError chk msg upd value c w c' w' :
  axis_setter chk msg upd value (c, w) = (Raise ValueError, (c', w')) →
  w' = w ∧ c' = c ∧ ∃ d, enums w !! chk = Some d ∧ in_values value d = None.
Proof.
  intros H. apply axis_setter_inv in H
    as [-> [(? & ? & ? & _ & _ & [=] & _)
           | [(d & Hd & Hv & _ & ->) | (e & [= <-] & He)]]]; [|done].
  repeat split; try done. by exists d.
Qed.

(** C9 (amended).  A per-axis binning setter, and the joint setter on a
    value that is not a tuple, that raises ValueError has changed nothing.
    The joint setter on a tuple runs the [bin_x] setter and then the
    [bin_y] setter, with no rollback: when the first component is not in
    the serial enumeration it raises ValueError and nothing has changed;
    when the first component is legal and the second is not in the
    parallel enumeration, it raises ValueError after the x binning was
    stored and the shape recomputed from it, the y binning being as it
    was.  A ValueError of the tuple form arises in one of these two ways. *)
Theorem binning_setter_ValueError :
  (∀ k c w c' w',
     binning_call k = true → (∀ items, k ≠ Set_binning (PTuple items)) →
     run_geometry k (c, w) = (Raise ValueError, (c', w')) →
     c' = c ∧ w' = w) ∧
  (∀ u items c w ds,
     enums w !! PARAM_BINNING_SER = Some ds → in_values u ds = None →
     set_binning (PTuple (u :: items)) (c, w) = (Raise ValueError, (c, w))) ∧
  (∀ v0 v1 items c w ds dp x roi,
     enums w !! PARAM_BINNING_SER = Some ds →
     enums w !! PARAM_BINNING_PAR = Some dp →
     in_values v0 ds = Some x → in_values v1 dp = None →
     __roi c = Some roi → x ≠ 0 → (__binning c).2 ≠ 0 →
     set_binning (PTuple (v0 :: v1 :: items)) (c, w)
     = (Raise ValueError,
        (with_shape (Some (shape_of roi (x, (__binning c).2)))
           (with_binning (x, (__binning c).2) c), w))) ∧
  (∀ items c w c' w',
     set_binning (PTuple items) (c, w) = (Raise ValueError, (c', w')) →
     w' = w ∧
     ((c' = c ∧ ∃ u ds, items !! 0%nat = Some u ∧
                        enums w !! PARAM_BINNING_SER = Some ds ∧
                        in_values u ds = None) ∨
      ∃ v0 v1 ds dp x roi,
        items !! 0%nat = Some v0 ∧ items !! 1%nat = Some v1 ∧
        enums w !! PARAM_BINNING_SER = Some ds ∧
        enums w !! PARAM_BINNING_PAR = Some dp ∧
        in_values v0 ds = Some x ∧ in_values v1 dp = None ∧
        __roi c = Some roi ∧
        c' = with_shape (Some (shape_of roi (x, (__binning c).2)))
               (with_binning (x, (__binning c).2) c))).
Proof.
  split; [|split; [|split]].
  - intros k c w c' w' Hk Hnt H.
    destruct k as [value|value|value|value]; cbn [run_geometry] in H; [done| | |].
    + destruct (tuple_or_not value) as [[items ->] | Hnt'];
        [by destruct (Hnt items)|].
      rewrite (set_binning_scalar _ Hnt') in H.
      by apply axis_setter_ValueError in H as (-> & -> & _).
    + rewrite set_bin_x_axis in H.
      by apply axis_setter_ValueError in H as (-> & -> & _).
    + rewrite set_bin_y_axis in H.
      by apply axis_setter_ValueError in H as (-> & -> & _).
  - intros u items c w ds Hds Hu. cbn [set_binning]. unfold subscript.
    change ((u :: items) !! 0%nat) with (Some u).
    rewrite bind_or_raise_Some. apply bind_Raise. rewrite set_bin_x_axis.
    by apply (axis_setter_reject _ _ _ _ _ _ ds ds).
  - intros v0 v1 items c w ds dp x roi Hds Hdp Hv0 Hv1 Hroi Hx Hy.
    apply in_values_Some in Hv0 as [-> Hin].
    cbn [set_binning]. unfold subscript.
    change ((PInt x :: v1 :: items) !! 0%nat) with (Some (PInt x)).
    change ((PInt x :: v1 :: items) !! 1%nat) with (Some v1).
    rewrite bind_or_raise_Some.
    rewrite (bind_Return (set_bin_x (PInt x)) _ _ _ _
               (set_bin_x_accept x c w ds roi Hds Hin Hx Hroi Hy)).
    rewrite bind_or_raise_Some, set_bin_y_axis.
    by apply (axis_setter_reject _ _ _ _ _ _ dp ds).
  - intros items c w c' w' H.
    apply set_binning_tuple_steps in H
      as [(_ & [=] & _) | (v0 & Hv0 & [(e & H0 & [= <-]) | (c1 & H0 & H)])].
    + rewrite set_bin_x_axis in H0.
      apply axis_setter_ValueError in H0 as (-> & -> & ds & Hds & Hu).
      split; [done|]. left. split; [done|]. by exists v0, ds.
    + destruct H as [(_ & [=] & _) | (v1 & Hv1 & H1)].
      rewrite set_bin_x_axis in H0. rewrite set_bin_y_axis in H1.
      apply axis_setter_Return_inv in H0
        as (_ & ds & x & roi & Hds & Hx & Hroi & ->).
      apply axis_setter_ValueError in H1 as (-> & -> & dp & Hdp & Hv).
      split; [done|]. right. by exists v0, v1, ds, dp, x, roi.
Qed.

(** [binning = (2, 3)] on the demo camera, whose two enumerations are
    {1, 2}: ValueError, with the binning (2, 1) and the shape (1024, 2048)
    stored. *)
Lemma binning_setter_ValueError_witness :
  set_binning (PTuple [PInt 2; PInt 3]) (demo_camera, demo_world)
  = (Raise ValueError,
     (with_shape (Some (shape_of (0, 2048, 0, 2048)
                          (2, (__binning demo_camera).2)))
        (with_binning (2, (__binning demo_camera).2) demo_camera),
      demo_world)).
Proof.
  apply (proj1 (proj2 (proj2 binning_setter_ValueError))
           (PInt 2) (PInt 3) [] demo_camera demo_world
           (<["1x1" := 1]> (<["2x2" := 2]> ∅))
           (<["1x1" := 1]> (<["2x2" := 2]> ∅)) 2 (0, 2048, 0, 2048)).
  - reflexivity.
  - reflexivity.
  - apply in_values_PInt. apply elem_of_map_img. exists "2x2"%string.
    reflexivity.
  - apply in_values_PInt_None. rewrite elem_of_map_img. intros [i Hi].
    revert Hi. rewrite !lookup_insert_Some, lookup_empty.
    by intros [[_ [=]] | [_ [[_ [=]] | [_ [=]]]]].
  - reflexivity.
  - lia.
  - cbn. lia.
Defined.

(** X1.  A value that is not a tuple of exactly four integers makes the
    [roi] setter raise ValueError at once: nothing is read from the driver
    and nothing has changed. *)
Theorem roi_malformed_rejected value s :
  (∀ a b c d, value ≠ PTuple [PInt a; PInt b; PInt c; PInt d]) →
  set_roi value s = (Raise ValueError, s).
Proof.
  intros Hne. unfold set_roi.
  destruct (roi_tuple value) as [[[[a b] c] d]|] eqn:E; [|done].
  apply roi_tuple_Some_inv in E. by destruct (Hne a b c d).
Qed.

Lemma roi_malformed_rejected_witness :
  set_roi (PTuple [PInt 0; PInt 16; PStr "0"; PInt 16])
    (init "cam0", demo_world)
  = (Raise ValueError, (init "cam0", demo_world)).
Proof.
  apply (roi_malformed_rejected
           (PTuple [PInt 0; PInt 16; PStr "0"; PInt 16])
           (init "cam0", demo_world)).
  intros a b c d [=].
Defined.

(** X2.  The stored region never leaves the sensor: whatever a ROI or
    binning setter call does, returning or raising, a stored region that
    was inside the sensor reported by the driver is still inside it, and the
    world is as it was. *)
Theorem roi_stays_in_sensor k c w r c' w' :
  roi_in_sensor c w →
  run_geometry k (c, w) = (r, (c', w')) →
  roi_in_sensor c' w' ∧ w' = w.
Proof.
  intros Hin H.
  assert (∀ chk msg upd value c r c' w',
            roi_in_sensor c w →
            axis_setter chk msg upd value (c, w) = (r, (c', w')) →
            roi_in_sensor c' w) as Haxis.
  { intros chk msg upd value c0 r0 c0' w0' Hin0 H0.
    apply axis_setter_outcome in H0
      as [-> [[-> _] | (d & v & _ & _ & [(_ & roi & _ & _ & _ & ->)
                                        | (e & _ & -> & _)])]]; done. }
  assert (w' = w) as ->.
  { destruct k as [value|value|value|value]; cbn [run_geometry] in H.
    - by apply set_roi_inv in H as [-> _].
    - destruct (tuple_or_not value) as [[items ->] | Hnt].
      + apply set_binning_tuple_steps in H
          as [(_ & _ & _ & ->) | (v0 & _ & [(e & H0 & _) | (c1 & H0 & H)])];
          [done| |].
        * rewrite set_bin_x_axis in H0. by apply axis_setter_outcome in H0 as [-> _].
        * destruct H as [(_ & _ & _ & ->) | (v1 & _ & H1)]; [done|].
          rewrite set_bin_y_axis in H1.
          by apply axis_setter_outcome in H1 as [-> _].
      + rewrite (set_binning_scalar _ Hnt) in H.
        by apply axis_setter_outcome in H as [-> _].
    - rewrite set_bin_x_axis in H. by apply axis_setter_outcome in H as [-> _].
    - rewrite set_bin_y_axis in H. by apply axis_setter_outcome in H as [-> _]. }
  split; [|done].
  destruct k as [value|value|value|value]; cbn [run_geometry] in H.
  - apply set_roi_inv in H
      as [_ [[-> _] | (roi & sw & sh & _ & Hsw & Hsh & Hroi & Hc)]]; [done|].
    assert (__roi c' = Some roi) as Hr
      by (destruct Hc as [(_ & _ & _ & ->) | (e & _ & -> & _)]; done).
    intros roi'. rewrite Hr. intros [= <-]. by exists sw, sh.
  - destruct (tuple_or_not value) as [[items ->] | Hnt].
    + eapply (set_binning_tuple_preserves (λ c, roi_in_sensor c w));
        [| |exact Hin|exact H].
      * intros value c0 r0 c0' w0' ?. rewrite set_bin_x_axis. by apply Haxis.
      * intros value c0 r0 c0' w0' ?. rewrite set_bin_y_axis. by apply Haxis.
    + rewrite (set_binning_scalar _ Hnt) in H. by eapply Haxis.
  - rewrite set_bin_x_axis in H. by eapply Haxis.
  - rewrite set_bin_y_axis in H. by eapply Haxis.
Qed.

Lemma roi_stays_in_sensor_witness :
  roi_in_sensor (with_shape (Some (1024, 2048)) (with_binning (2, 1) demo_camera))
    demo_world ∧ demo_world = demo_world.
Proof.
  apply (roi_stays_in_sensor (Set_binning (PTuple [PInt 2; PInt 3]))
           demo_camera demo_world (Raise ValueError)).
  - intros roi [= <-]. by exists 2048, 2048.
  - reflexivity.
Defined.

Lemma axis_setter_geometry_ok chk msg upd value c w r c' w' :
  chk = PARAM_BINNING_SER ∨ chk = PARAM_BINNING_PAR →
  (∀ v b, v ≠ 0 → b.1 ≠ 0 → b.2 ≠ 0 → (upd v b).1 ≠ 0 ∧ (upd v b).2 ≠ 0) →
  no_zero_binning w → geometry_ok c →
  axis_setter chk msg upd value (c, w) = (r, (c', w')) →
  geometry_ok c'.
Proof.
  intros Hchk Hupd Hnz ([roi [Hroi Hsh]] & Hx & Hy) H.
  apply axis_setter_outcome in H as [-> [[-> _] | (d & v & Hd & Hv & Hc)]].
  { split; [by exists roi|done]. }
  apply in_values_Some in Hv as [-> Hv].
  assert (v ≠ 0) as Hv0 by (intros ->; by apply (Hnz chk d)).
  destruct (Hupd v (__binning c) Hv0 Hx Hy) as [Hx' Hy'].
  destruct Hc as [(_ & roi' & Hroi' & _ & _ & ->) | (e & _ & _ & Hz)].
  - split; [by exists roi'|done].
  - rewrite Hroi in Hz. by destruct Hz as [[=] | [? | ?]].
Qed.

(** X3.  With a driver that enumerates no binning factor 0, the geometry
    stays consistent through every ROI and binning setter call, whatever
    its outcome: if the binning factors were not zero and the stored shape
    was the one derived from the stored region and binning, the same holds
    after the call, also when the call raised half-way through. *)
Theorem geometry_stays_consistent k c w r c' w' :
  no_zero_binning w → geometry_ok c →
  run_geometry k (c, w) = (r, (c', w')) →
  geometry_ok c'.
Proof.
  intros Hnz Hok H.
  assert (∀ value c r c' w', geometry_ok c →
            set_bin_x value (c, w) = (r, (c', w')) → geometry_ok c') as Hbx.
  { intros value c0 r0 c0' w0' Hok0. rewrite set_bin_x_axis. intros H0.
    eapply axis_setter_geometry_ok; [by left| |exact Hnz|exact Hok0|exact H0].
    by intros v [b1 b2] ? ? ?. }
  assert (∀ value c r c' w', geometry_ok c →
            set_bin_y value (c, w) = (r, (c', w')) → geometry_ok c') as Hby.
  { intros value c0 r0 c0' w0' Hok0. rewrite set_bin_y_axis. intros H0.
    eapply axis_setter_geometry_ok; [by right| |exact Hnz|exact Hok0|exact H0].
    by intros v [b1 b2] ? ? ?. }
  destruct k as [value|value|value|value]; cbn [run_geometry] in H.
  - destruct Hok as ([roi0 [Hroi0 Hsh0]] & Hx & Hy).
    apply set_roi_inv in H
      as [_ [[-> _] | (roi & sw & sh & _ & _ & _ & _ & Hc)]].
    { split; [by exists roi0|done]. }
    destruct Hc as [(_ & _ & _ & ->) | (e & _ & _ & [?|?])]; try done.
    split; [by exists roi|done].
  - destruct (tuple_or_not value) as [[items ->] | Hnt].
    + by eapply (set_binning_tuple_preserves geometry_ok).
    + rewrite (set_binning_scalar _ Hnt) in H.
      eapply axis_setter_geometry_ok; [by left| |exact Hnz|exact Hok|exact H].
      by intros v [b1 b2] ? ? ?.
  - by eapply Hbx.
  - by eapply Hby.
Qed.

Lemma geometry_stays_consistent_witness :
  geometry_ok
    (with_shape (Some (1024, 2048)) (with_binning (2, 1) demo_camera)).
Proof.
  apply (geometry_stays_consistent (Set_binning (PTuple [PInt 2; PInt 3]))
           demo_camera demo_world (Raise ValueError) _ demo_world).
  - intros id d Hid Hd.
    assert (d = <["1x1" := 1]> (<["2x2" := 2]> ∅)) as ->
      by (destruct Hid as [-> | ->]; by injection Hd as <-).
    rewrite elem_of_map_img. intros [i Hi]. revert Hi.
    rewrite !lookup_insert_Some, lookup_empty.
    by intros [[_ [=]] | [_ [[_ [=]] | [_ [=]]]]].
  - split; [by exists (0, 2048, 0, 2048)|done].
  - reflexivity.
Defined.

(** X4.  The scalar form of the joint binning setter consults the serial
    enumeration only.  For a factor that the serial enumeration has and the
    parallel one has not, [binning = v] succeeds and stores (v, v), while
    [binning = (v, v)] raises ValueError, after the x binning was stored
    and the shape recomputed. *)
Theorem binning_scalar_skips_parallel v c w ds dp roi :
  enums w !! PARAM_BINNING_SER = Some ds →
  enums w !! PARAM_BINNING_PAR = Some dp →
  v ∈ (map_img ds : gset Z) → v ∉ (map_img dp : gset Z) → v ≠ 0 →
  __roi c = Some roi → (__binning c).2 ≠ 0 →
  set_binning (PInt v) (c, w)
  = (Return (), (with_shape (Some (shape_of roi (v, v)))
                   (with_binning (v, v) c), w)) ∧
  set_binning (PTuple [PInt v; PInt v]) (c, w)
  = (Raise ValueError,
     (with_shape (Some (shape_of roi (v, (__binning c).2)))
        (with_binning (v, (__binning c).2) c), w)).
Proof.
  intros Hds Hdp Hin Hout Hv Hroi Hy. split.
  - rewrite set_binning_scalar by done.
    by rewrite (axis_setter_accept _ _ (λ v _, (v, v)) _ _ _ ds v roi Hds
                  (in_values_PInt _ _ Hin) Hroi).
  - cbn [set_binning]. unfold subscript.
    change ([PInt v; PInt v] !! 0%nat) with (Some (PInt v)).
    change ([PInt v; PInt v] !! 1%nat) with (Some (PInt v)).
    rewrite bind_or_raise_Some.
    rewrite (bind_Return (set_bin_x (PInt v)) _ _ _ _
               (set_bin_x_accept v c w ds roi Hds Hin Hv Hroi Hy)).
    rewrite bind_or_raise_Some, set_bin_y_axis.
    by apply (axis_setter_reject _ _ _ _ _ _ dp ds);
      [|apply in_values_PInt_None|].
Qed.

Lemma binning_scalar_skips_parallel_witness :
  set_binning (PInt 4) (demo_camera, wide_serial_world)
  = (Return (), (with_shape (Some (512, 512))
                   (with_binning (4, 4) demo_camera), wide_serial_world)) ∧
  set_binning (PTuple [PInt 4; PInt 4]) (demo_camera, wide_serial_world)
  = (Raise ValueError,
     (with_shape (Some (512, 2048))
        (with_binning (4, 1) demo_camera), wide_serial_world)).
Proof.
  apply (binning_scalar_skips_parallel 4 demo_camera wide_serial_world
           (<["1x1" := 1]> (<["2x2" := 2]> (<["4x4" := 4]> ∅)))
           (<["1x1" := 1]> (<["2x2" := 2]> ∅)) (0, 2048, 0, 2048)).
  - reflexivity.
  - reflexivity.
  - apply elem_of_map_img. exists "4x4"%string. reflexivity.
  - rewrite elem_of_map_img. intros [i Hi]. revert Hi.
    rewrite !lookup_insert_Some, lookup_empty.
    by intros [[_ [=]] | [_ [[_ [=]] | [_ [=]]]]].
  - lia.
  - reflexivity.
  - cbn. lia.
Defined.

(** X5.  A tuple with fewer than two items never sets the binning as a
    whole: the empty tuple raises IndexError with nothing changed, and a
    one-item tuple with a legal serial factor raises IndexError after the
    x binning was stored and the shape recomputed. *)
Theorem binning_short_tuple v c w d roi :
  enums w !! PARAM_BINNING_SER = Some d →
  v ∈ (map_img d : gset Z) → v ≠ 0 →
  __roi c = Some roi → (__binning c).2 ≠ 0 →
  set_binning (PTuple []) (c, w) = (Raise IndexError, (c, w)) ∧
  set_binning (PTuple [PInt v]) (c, w)
  = (Raise IndexError,
     (with_shape (Some (shape_of roi (v, (__binning c).2)))
        (with_binning (v, (__binning c).2) c), w)).
Proof.
  intros Hd Hin Hv Hroi Hy. split; [done|].
  cbn [set_binning]. unfold subscript.
  change ([PInt v] !! 0%nat) with (Some (PInt v)).
  change ([PInt v] !! 1%nat) with (@None pyobj).
  rewrite bind_or_raise_Some.
  by rewrite (bind_Return (set_bin_x (PInt v)) _ _ _ _
                (set_bin_x_accept v c w d roi Hd Hin Hv Hroi Hy)).
Qed.

Lemma binning_short_tuple_witness :
  set_binning (PTuple []) (demo_camera, demo_world)
  = (Raise IndexError, (demo_camera, demo_world)) ∧
  set_binning (PTuple [PInt 2]) (demo_camera, demo_world)
  = (Raise IndexError,
     (with_shape (Some (1024, 2048))
        (with_binning (2, 1) demo_camera), demo_world)).
Proof.
  apply (binning_short_tuple 2 demo_camera demo_world
           (<["1x1" := 1]> (<["2x2" := 2]> ∅)) (0, 2048, 0, 2048)).
  - reflexivity.
  - apply elem_of_map_img. exists "2x2"%string. reflexivity.
  - lia.
  - reflexivity.
  - cbn. lia.
Defined.

(** ** Modes: names and values, the driver's refusal *)

Lemma mode_value_name_value (table : gmap string Z) name v :
  table !! name = Some v →
  mode_value table (PStr name) = Some v ∧ mode_value table (PInt v) = Some v.
Proof.
  intros Hv. split; [done|]. cbn [mode_value]. apply in_values_PInt.
  apply elem_of_map_img. by exists name.
Qed.

(** Every outcome of [update_mode]: a sub-mode is missing and nothing has
    changed; or the composed mode was stored and the one driver call was
    issued, which returned or raised. *)
Lemma update_mode_outcome c w r c' w' :
  update_mode (c, w) = (r, (c', w')) →
  (c' = c ∧ w' = w ∧ r = Raise AttributeError ∧
   (__exp_mode c = None ∨ __exp_out_mode c = None)) ∨
  ∃ em eom, __exp_mode c = Some em ∧ __exp_out_mode c = Some eom ∧
    c' = with_mode (Some (Z.lor em eom)) c ∧
    ((r = Return () ∧
      ∃ fs, w' = called (Call_set_exp_modes (__handle c) (Z.lor em eom)) id fs w) ∨
     (∃ e fs, r = Raise e ∧ faults w = Some e :: fs ∧
        w' = called (Call_set_exp_modes (__handle c) (Z.lor em eom)) id fs w)).
Proof.
  unfold update_mode, pvc_set_exp_modes. py_step.
  destruct (__exp_mode c) as [em|]; cbn -[Z.lor]; cycle 1.
  { intros [= <- <- <-]. left. repeat split; by left. }
  destruct (__exp_out_mode c) as [eom|]; cbn -[Z.lor]; cycle 1.
  { intros [= <- <- <-]. left. repeat split; by right. }
  intros H. right. exists em, eom. do 2 (split; [done|]).
  apply external_inv in H
    as [-> [(-> & fs & -> & _) | (e & fs & -> & Hf & ->)]].
  - split; [done|]. left. split; [done|]. by exists fs.
  - split; [done|]. right. by exists e, fs.
Qed.

Section mode_setters.
Context (exp_resolutions exp_modes exp_out_modes : gmap string Z).

(** X6.  A name and the value it stands for are interchangeable as the
    argument of the [exp_mode], [exp_out_mode] and [exp_res] setters: the
    two calls behave alike in every state. *)
Theorem setters_name_value_agree n1 v1 n2 v2 n3 v3 s :
  exp_modes !! n1 = Some v1 →
  exp_out_modes !! n2 = Some v2 →
  exp_resolutions !! n3 = Some v3 →
  set_exp_mode exp_modes (PStr n1) s = set_exp_mode exp_modes (PInt v1) s ∧
  set_exp_out_mode exp_out_modes (PStr n2) s
  = set_exp_out_mode exp_out_modes (PInt v2) s ∧
  set_exp_res exp_resolutions (PStr n3) s
  = set_exp_res exp_resolutions (PInt v3) s.
Proof.
  intros [H1 H1']%mode_value_name_value [H2 H2']%mode_value_name_value
    [H3 H3']%mode_value_name_value.
  rewrite !set_exp_mode_eq, !set_exp_out_mode_eq, !set_exp_res_eq.
  by rewrite H1, H1', H2, H2', H3, H3'.
Qed.

(** X7.  The mode stays composed through the two mode setters.  On a
    camera whose stored sub-modes are ints and whose stored mode is their
    bitwise or, a setter call with an argument that is a string, an int,
    None or a tuple (the objects of the model, which has no float) leaves
    the stored mode the bitwise or of the stored sub-modes, whatever the
    outcome of the call: value refused, driver raising, or success.  The
    log has grown by at most the one [set_exp_modes] call, with the stored
    mode. *)
Theorem mode_stays_composed k c w r c' w' :
  mode_consistent c →
  run_mode exp_modes exp_out_modes k (c, w) = (r, (c', w')) →
  mode_consistent c' ∧
  (calls w' = calls w ∨
   ∃ m, __mode c' = Some m ∧
        calls w' = calls w ++ [Call_set_exp_modes (__handle c) m]).
Proof.
  intros (em0 & eom0 & Hem0 & Heom0 & Hm0) H.
  assert (∀ upd : Camera → Camera,
            (∀ c, __handle (upd c) = __handle c) →
            (assign upd ≫= λ _, update_mode) (c, w) = (r, (c', w')) →
            is_Some (__exp_mode (upd c)) →
            is_Some (__exp_out_mode (upd c)) →
            mode_consistent c' ∧
            (calls w' = calls w ∨
             ∃ m, __mode c' = Some m ∧
                  calls w' = calls w ++ [Call_set_exp_modes (__handle c) m]))
    as Hstep.
  { intros upd Hh Hrun [em Hem] [eom Heom].
    unfold mbind at 1, Py_bind at 1, assign at 1 in Hrun. cbn [fst snd] in Hrun.
    apply update_mode_outcome in Hrun
      as [(_ & _ & _ & [Hn | Hn]) | (em' & eom' & Hem' & Heom' & -> & Hw)].
    { by rewrite Hem in Hn. }
    { by rewrite Heom in Hn. }
    rewrite Hh in Hw. split; [by exists em', eom'|].
    destruct Hw as [(_ & fs & ->) | (e & fs & _ & _ & ->)];
      right; by exists (Z.lor em' eom'). }
  destruct k as [value|value]; cbn [run_mode] in H.
  - rewrite set_exp_mode_eq in H.
    destruct (mode_value exp_modes value) as [v|].
    + apply (Hstep (with_exp_mode (Some v)) (λ _, eq_refl) H); cbn;
        [by eexists|by rewrite Heom0].
    + injection H as <- <- <-. split; [by exists em0, eom0|]. by left.
  - rewrite set_exp_out_mode_eq in H.
    destruct (mode_value exp_out_modes value) as [v|].
    + apply (Hstep (with_exp_out_mode (Some v)) (λ _, eq_refl) H); cbn;
        [by rewrite Hem0|by eexists].
    + injection H as <- <- <-. split; [by exists em0, eom0|]. by left.
Qed.

(** X8.  A mode that the driver refuses is not rolled back: when
    [set_exp_modes] raises, the setter raises the same exception, and the
    object keeps the new sub-mode and the mode composed with it. *)
Theorem mode_refused_not_rolled_back k v c w e fs em eom :
  faults w = Some e :: fs →
  match k with
  | Set_exp_mode value =>
      mode_value exp_modes value = Some v ∧ em = v ∧
      __exp_out_mode c = Some eom
  | Set_exp_out_mode value =>
      mode_value exp_out_modes value = Some v ∧ eom = v ∧
      __exp_mode c = Some em
  end →
  run_mode exp_modes exp_out_modes k (c, w)
  = (Raise e,
     (with_mode (Some (Z.lor em eom))
        (match k with
         | Set_exp_mode _ => with_exp_mode (Some v) c
         | Set_exp_out_mode _ => with_exp_out_mode (Some v) c
         end),
      called (Call_set_exp_modes (__handle c) (Z.lor em eom)) id fs w)).
Proof.
  intros Hf Hk.
  destruct k as [value|value]; cbn [run_mode]; destruct Hk as (Hv & -> & Hs).
  - rewrite set_exp_mode_eq, Hv.
    unfold mbind at 1, Py_bind at 1, assign at 1. cbn [fst snd].
    unfold update_mode, pvc_set_exp_modes. py_step. rewrite Hs. cbn -[Z.lor].
    by rewrite (external_fault _ _ _ _ e fs Hf).
  - rewrite set_exp_out_mode_eq, Hv.
    unfold mbind at 1, Py_bind at 1, assign at 1. cbn [fst snd].
    unfold update_mode, pvc_set_exp_modes. py_step. rewrite Hs. cbn -[Z.lor].
    by rewrite (external_fault _ _ _ _ e fs Hf).
Qed.

End mode_setters.

Lemma setters_name_value_agree_witness :
  set_exp_mode demo_exp_modes (PStr "Timed") (demo_camera, demo_world)
  = set_exp_mode demo_exp_modes (PInt 1792) (demo_camera, demo_world) ∧
  set_exp_out_mode demo_exp_out_modes (PStr "All Rows")
    (demo_camera, demo_world)
  = set_exp_out_mode demo_exp_out_modes (PInt 1) (demo_camera, demo_world) ∧
  set_exp_res demo_exp_resolutions (PStr "One Microsecond")
    (demo_camera, demo_world)
  = set_exp_res demo_exp_resolutions (PInt 1) (demo_camera, demo_world).
Proof.
  apply (setters_name_value_agree demo_exp_resolutions demo_exp_modes
           demo_exp_out_modes "Timed" 1792 "All Rows" 1 "One Microsecond" 1
           (demo_camera, demo_world)); reflexivity.
Defined.

Lemma mode_stays_composed_witness :
  mode_consistent
    (with_mode (Some 1793)
       (with_exp_out_mode (Some 1) (with_exp_mode (Some 1792) demo_camera))) ∧
  (calls (with_calls [Call_set_exp_modes 0 1793] demo_world)
   = calls demo_world ∨
   ∃ m, __mode (with_mode (Some 1793)
                  (with_exp_out_mode (Some 1)
                     (with_exp_mode (Some 1792) demo_camera))) = Some m ∧
        calls (with_calls [Call_set_exp_modes 0 1793] demo_world)
        = calls demo_world ++ [Call_set_exp_modes (__handle
             (with_mode (Some 1792) (with_exp_mode (Some 1792) demo_camera))) m]).
Proof.
  apply (mode_stays_composed demo_exp_modes demo_exp_out_modes
           (Set_exp_out_mode (PStr "All Rows"))
           (with_mode (Some 1792) (with_exp_mode (Some 1792) demo_camera))
           demo_world (Return ())).
  - exists 1792, 0. repeat split; reflexivity.
  - vm_compute. reflexivity.
Defined.

Lemma mode_refused_not_rolled_back_witness :
  set_exp_mode demo_exp_modes (PStr "Timed")
    (demo_camera, with_faults [Some RuntimeError] demo_world)
  = (Raise RuntimeError,
     (with_mode (Some 1792) (with_exp_mode (Some 1792) demo_camera),
      with_calls [Call_set_exp_modes 0 1792] demo_world)).
Proof.
  apply (mode_refused_not_rolled_back demo_exp_modes demo_exp_out_modes
           (Set_exp_mode (PStr "Timed")) 1792 demo_camera
           (with_faults [Some RuntimeError] demo_world) RuntimeError []
           1792 0).
  - reflexivity.
  - repeat split; reflexivity.
Defined.

(** ** Captures: what they leave alone *)

Lemma unchanged_but_refl ids w : unchanged_but ids w w.
Proof. repeat split; try done. exists []. by rewrite app_nil_r. Qed.

Lemma unchanged_but_trans ids w1 w2 w3 :
  unchanged_but ids w1 w2 → unchanged_but ids w2 w3 → unchanged_but ids w1 w3.
Proof.
  intros (Hp1 & He1 & Hg1 & Hd1 & l1 & Hl1) (Hp2 & He2 & Hg2 & Hd2 & l2 & Hl2).
  split; [|split; [|split; [|split]]]; try congruence.
  - intros id Hid. by rewrite Hp2, Hp1.
  - exists (l1 ++ l2). by rewrite Hl2, Hl1, <- app_assoc.
Qed.

Lemma touches_pure {A} ids (m : Py A) :
  (∀ s, ∃ r, m s = (r, s)) → touches_only ids m.
Proof.
  intros Hm c w r c' w' H. destruct (Hm (c, w)) as [r' Hr]. rewrite Hr in H.
  injection H as <- <- <-. split; [done|apply unchanged_but_refl].
Qed.

Lemma touches_ret {A} ids (a : A) : touches_only ids (mret a).
Proof. apply touches_pure. intros s. by eexists. Qed.

Lemma touches_raise {A} ids e : touches_only ids (raise (A:=A) e).
Proof. apply touches_pure. intros s. by eexists. Qed.

Lemma touches_self {A} ids (f : Camera → A) : touches_only ids (self f).
Proof. apply touches_pure. intros s. by eexists. Qed.

Lemma touches_or_raise {A} ids e (o : option A) :
  touches_only ids (or_raise e o).
Proof. destruct o; [apply touches_ret|apply touches_raise]. Qed.

Lemma touches_bind {A B} ids (m : Py A) (f : A → Py B) :
  touches_only ids m → (∀ a, touches_only ids (f a)) →
  touches_only ids (m ≫= f).
Proof.
  intros Hm Hf c w r c' w' H.
  apply bind_inv in H as [(a & [c1 w1] & H1 & H2) | (e & H1 & ->)].
  - apply Hm in H1 as [-> Hw1]. apply Hf in H2 as [-> Hw2].
    split; [done|by eapply unchanged_but_trans].
  - by apply Hm in H1.
Qed.

Lemma touches_try_except {A} ids (body handler : Py A) :
  touches_only ids body → touches_only ids handler →
  touches_only ids (try_except body handler).
Proof.
  intros Hb Hh c w r c' w'. unfold try_except.
  destruct (body (c, w)) as [[a|e] [c1 w1]] eqn:E.
  - intros [= <- <- <-]. by apply Hb in E.
  - intros H. apply Hb in E as [-> Hw1]. apply Hh in H as [-> Hw2].
    split; [done|by eapply unchanged_but_trans].
Qed.

Lemma touches_external ids k effect :
  (∀ w, unchanged_but ids w (effect w) ∧ calls (effect w) = calls w) →
  touches_only ids (external k effect).
Proof.
  intros Heff c w r c' w' H.
  assert (∀ fs, unchanged_but ids w (called k effect fs w)) as Hcalled.
  { intros fs. unfold called.
    destruct (Heff (with_faults fs (with_calls (calls w ++ [k]) w)))
      as [(Hp & He & Hg & Hd & _) Hc].
    split; [done|]. do 3 (split; [done|]). exists [k]. by rewrite Hc. }
  apply external_inv in H
    as [-> [(_ & fs & -> & _) | (e & fs & _ & _ & ->)]]; split; try done.
  unfold called. repeat split; try done. by exists [k].
Qed.

Lemma touches_set_param ids id v :
  id ∈ ids → touches_only ids (set_param id v).
Proof.
  intros Hid. unfold set_param, pvc_set_param.
  apply touches_bind; [apply touches_self|]. intros h.
  apply touches_external. intros w. split; [|done].
  split; [|by repeat split; try exists []; rewrite ?app_nil_r].
  intros id' Hid'. cbn. rewrite lookup_insert_ne; [done|]. by intros ->.
Qed.

Lemma touches_get_param ids id : touches_only ids (get_param id).
Proof.
  apply touches_pure. intros [c w].
  destruct (get_param id (c, w)) as [r s'] eqn:E.
  apply get_param_inv in E as [-> _]. by eexists.
Qed.

Lemma touches_pvc_get_frame ids h x0 x1 bx y0 y1 by_ exp mode :
  touches_only ids (pvc_get_frame h x0 x1 bx y0 y1 by_ exp mode).
Proof.
  unfold pvc_get_frame. apply touches_bind.
  { apply touches_pure. intros s. by eexists. }
  intros n. apply touches_bind; [|intros _; apply touches_ret].
  apply touches_external. intros w. split; [apply unchanged_but_refl|done].
Qed.

Lemma touches_time_sleep ids ms : touches_only ids (time_sleep ms).
Proof.
  intros c w r c' w'. unfold time_sleep. destruct (ms <? 0).
  - intros [= <- <- <-]. split; [done|apply unchanged_but_refl].
  - intros [= <- <- <-]. split; [done|]. repeat split; try done. by eexists.
Qed.

Lemma touches_check_times ids time_list :
  touches_only ids (check_times time_list).
Proof.
  apply touches_pure. intros s.
  destruct (check_times time_list s) as [r s'] eqn:E.
  apply check_times_inv in E as [-> _]. by eexists.
Qed.

Lemma touches_np_empty ids dims : touches_only ids (np_empty dims).
Proof.
  apply touches_pure. intros s. unfold np_empty.
  destruct (forallb _ _); by eexists.
Qed.

Lemma touches_set_vtm_exp_time ids v :
  PARAM_EXP_TIME ∈ ids → touches_only ids (set_vtm_exp_time v).
Proof.
  intros Hid. unfold set_vtm_exp_time. destruct (in_range _ _ _);
    [by apply touches_set_param|apply touches_raise].
Qed.

Lemma touches_next_exposure ids t :
  PARAM_EXP_TIME ∈ ids → touches_only ids (next_exposure t).
Proof.
  intros Hid. destruct t as [|v rest]; cbn [next_exposure];
    [apply touches_raise|].
  apply touches_bind; [by apply touches_set_vtm_exp_time|].
  intros _. apply touches_ret.
Qed.

Lemma touches_set_exp_res ids exp_resolutions value :
  PARAM_EXP_RES ∈ ids → touches_only ids (set_exp_res exp_resolutions value).
Proof.
  intros Hid. rewrite set_exp_res_eq.
  destruct (mode_value _ _); [by apply touches_set_param|apply touches_raise].
Qed.

Ltac touches_tac :=
  lazymatch goal with
  | |- touches_only _ (_ ≫= _) =>
      apply touches_bind; [touches_tac | intros ?; touches_tac]
  | |- touches_only _ (match ?x with _ => _ end) => destruct x; touches_tac
  | |- _ =>
      first [ apply touches_self | apply touches_pvc_get_frame
            | apply touches_or_raise | apply touches_ret
            | apply touches_raise | apply touches_time_sleep
            | apply touches_get_param | apply touches_check_times
            | apply touches_np_empty
            | match goal with
              | H : ∀ t, touches_only _ _ |- _ => apply H
              end ]
  end.

Lemma touches_vtm_loop ids time_list x0 x1 y0 y1 interval n :
  PARAM_EXP_TIME ∈ ids →
  ∀ t, touches_only ids (vtm_loop time_list x0 x1 y0 y1 interval n t).
Proof.
  intros Hid.
  induction n as [|n IH]; intros t; cbn [vtm_loop]; [apply touches_ret|].
  apply touches_bind.
  { apply touches_try_except; by apply touches_next_exposure. }
  intros t'. unfold bin_x, bin_y. touches_tac.
Qed.

(** X9.  [get_frame] is an observation: whatever its outcome and whatever
    the driver does, the object and the driver parameters are as they were.
    Without a stored region it raises TypeError before any driver call; with
    one, the one call it issues is the capture of that region, with the last
    column and row given inclusively, at the exposure time passed, or at the
    stored one when none is passed. *)
Theorem get_frame_observes exp_time c w r c' w' :
  get_frame exp_time (c, w) = (r, (c', w')) →
  c' = c ∧ params w' = params w ∧ enums w' = enums w ∧
  match __roi c with
  | None => r = Raise TypeError ∧ calls w' = calls w
  | Some roi =>
      calls w' = calls w ++ [capture_call c roi (frame_exposure c exp_time)]
  end.
Proof.
  unfold get_frame. intros H. rewrite bind_self in H.
  destruct (__roi c) as [[[[x0 x1] y0] y1]|]; cycle 1.
  { by injection H as <- <- <-. }
  rewrite bind_or_raise_Some in H. cbv beta iota in H.
  assert ((exp ← match exp_time with
                 | PInt t => mret t
                 | _ => self __exp_time
                 end; h ← self __handle; bx ← bin_x; by_ ← bin_y;
           mode ← self __mode;
           f ← pvc_get_frame h x0 (x1 - 1) bx y0 (y1 - 1) by_ exp mode;
           sh ← self __shape; or_raise TypeError sh;; mret f) (c, w)
          = (f ← pvc_get_frame (__handle c) x0 (x1 - 1) (__binning c).1 y0
                   (y1 - 1) (__binning c).2 (frame_exposure c exp_time)
                   (__mode c);
             sh ← self __shape; or_raise TypeError sh;; mret f) (c, w)) as Heq
    by (by destruct exp_time).
  rewrite Heq in H. clear Heq.
  apply bind_inv in H as [(f & [c1 w1] & H1 & H) | (e & H1 & ->)].
  - unfold pvc_get_frame in H1. py_step.
    apply bind_inv in H1 as [([] & [c2 w2] & H1 & H2) | (e & _ & [=])].
    injection H2 as <- <- <-.
    apply external_inv in H1
      as [-> [(_ & fs & -> & _) | (e & fs & [=] & _)]].
    destruct (__shape c); by injection H as <- <- <-.
  - unfold pvc_get_frame in H1. py_step.
    apply bind_inv in H1 as [([] & [c2 w2] & _ & [=]) | (e' & H1 & _)].
    by apply external_inv in H1
      as [-> [([=] & _) | (e2 & fs & _ & _ & ->)]].
Qed.

Lemma get_frame_observes_witness :
  demo_camera = demo_camera ∧
  params (with_calls [Call_get_frame 0 0 2047 1 0 2047 1 25 (Some 0)]
            demo_world) = params demo_world ∧
  enums (with_calls [Call_get_frame 0 0 2047 1 0 2047 1 25 (Some 0)]
           demo_world) = enums demo_world ∧
  calls (with_calls [Call_get_frame 0 0 2047 1 0 2047 1 25 (Some 0)]
           demo_world)
  = calls demo_world ++
    [capture_call demo_camera (0, 2048, 0, 2048)
       (frame_exposure demo_camera (PInt 25))].
Proof.
  apply (get_frame_observes (PInt 25) demo_camera demo_world (Return 0%nat)).
  vm_compute. reflexivity.
Defined.

(** ** The VTM sequence: refusals, the empty list, a failing write *)

Lemma check_times_invalid time_list t s :
  t ∈ time_list → ¬ (0 ≤ t < 2 ^ 16) →
  check_times time_list s = (Raise ValueError, s).
Proof.
  intros Hin Ht. induction Hin as [t rest | t t' rest Hin IH];
    cbn [check_times].
  - destruct (in_range t 0 (2 ^ 16)) eqn:E; [|done].
    by apply in_range_spec in E.
  - destruct (in_range t' 0 (2 ^ 16)); [by apply IH|done].
Qed.

(** The tail of an iteration, once the exposure time is set: the capture,
    the sleep, then the rest of the loop. *)
Lemma vtm_iteration_tail time_list interval c x0 x1 y0 y1 sh n t t' w w1 :
  __shape c = Some sh → valid_interval interval →
  try_except (next_exposure t) (next_exposure time_list) (c, w)
  = (Return t', (c, w1)) →
  quiet 1 (faults w1) →
  ∃ f w',
    vtm_loop time_list x0 x1 y0 y1 interval (S n) t (c, w)
    = (vtm_loop time_list x0 x1 y0 y1 interval n t'
         ≫= λ stack, mret (f :: stack)) (c, w') ∧
    calls w' = calls w1 ++
               drop 1 (frame_calls c (x0, x1, y0, y1) interval 0) ∧
    params w' !! PARAM_EXP_RES = params w1 !! PARAM_EXP_RES ∧
    faults w' = drop 1 (faults w1).
Proof.
  intros Hshape Hint Hrun1 Hq. cbn [vtm_loop].
  rewrite (bind_Return _ _ _ _ _ Hrun1).
  rewrite bind_self, bin_x_bind, bin_y_bind, !bind_self.
  destruct (get_frame_quiet (__handle c) x0 (x1 - 1) (__binning c).1
              y0 (y1 - 1) (__binning c).2 (__exp_time c) (__mode c)
              c w1 _ Hq) as (w2 & Hrun2 & Hc2 & Hp2 & Hf2).
  rewrite (bind_Return _ _ _ _ _ Hrun2).
  rewrite bind_self, Hshape, bind_or_raise_Some.
  destruct (sleep_step interval c w2 Hint) as (w3 & Hrun3 & Hc3 & Hp3 & Hf3).
  rewrite (bind_Return _ _ _ _ _ Hrun3).
  exists (length (calls w1)), w3. split; [done|]. split; [|split].
  - rewrite Hc3, Hc2. cbn [frame_calls drop app]. by rewrite <- !app_assoc.
  - by rewrite Hp3, Hp2.
  - by rewrite Hf3, Hf2.
Qed.

Section vtm_retry.
Context (time_list : list Z) (interval : pyobj) (c : Camera).
Context (x0 x1 y0 y1 : Z) (sh : Z * Z).
Hypothesis Hvalid : valid_times time_list.
Hypothesis Hshape : __shape c = Some sh.
Hypothesis Hint : valid_interval interval.

Lemma schedule_lookup i :
  (i < length time_list)%nat →
  time_list !! i = Some (schedule time_list i) ∧
  schedule time_list i ∈ time_list.
Proof.
  intros Hi. destruct (lookup_lt_is_Some_2 _ _ Hi) as [v Hv].
  unfold schedule. rewrite Nat.mod_small, Hv by done.
  split; [done|]. by eapply list_elem_of_lookup_2.
Qed.

Lemma time_list_nonempty i : (i < length time_list)%nat → time_list ≠ [].
Proof. intros Hi ->. cbn in Hi. lia. Qed.

(** An iteration of the first pass over the list, with no fault. *)
Lemma vtm_iteration_first_pass n i w :
  (i < length time_list)%nat → quiet 2 (faults w) →
  ∃ f w',
    vtm_loop time_list x0 x1 y0 y1 interval (S n) (drop i time_list) (c, w)
    = (vtm_loop time_list x0 x1 y0 y1 interval n (drop (S i) time_list)
         ≫= λ stack, mret (f :: stack)) (c, w') ∧
    calls w' = calls w ++ frame_calls c (x0, x1, y0, y1) interval
                            (schedule time_list i) ∧
    params w' !! PARAM_EXP_RES = params w !! PARAM_EXP_RES ∧
    faults w' = drop 2 (faults w).
Proof.
  intros Hi Hq. destruct (schedule_lookup i Hi) as [Hv Hin].
  destruct (set_vtm_exp_time_quiet time_list c Hvalid _ w 1 Hin Hq)
    as (w1 & Hrun1 & Hc1 & Hp1 & Hf1).
  assert (try_except (next_exposure (drop i time_list))
            (next_exposure time_list) (c, w)
          = (Return (drop (S i) time_list), (c, w1))) as Hnext.
  { rewrite (drop_S _ _ _ Hv). unfold try_except. cbn [next_exposure].
    by rewrite (bind_Return _ _ _ _ _ Hrun1). }
  apply quiet_S in Hq as [_ Hq]. rewrite <- Hf1 in Hq.
  destruct (vtm_iteration_tail time_list interval c x0 x1 y0 y1 sh n _ _ w w1
              Hshape Hint Hnext Hq) as (f & w' & Hrun & Hc & Hp & Hf).
  exists f, w'. split; [done|]. split; [|split].
  - rewrite Hc, Hc1. cbn [frame_calls drop app]. by rewrite <- !app_assoc.
  - by rewrite Hp, Hp1.
  - by rewrite Hf, Hf1, drop_drop.
Qed.

(** An iteration of the first pass whose exposure-time write fails: the
    bare [except] clause swallows the exception, the iterator starts anew
    and the frame is taken with the first time of the list. *)
Lemma vtm_iteration_retry n i w e rest :
  (i < length time_list)%nat → faults w = Some e :: rest → quiet 2 rest →
  ∃ f w',
    vtm_loop time_list x0 x1 y0 y1 interval (S n) (drop i time_list) (c, w)
    = (vtm_loop time_list x0 x1 y0 y1 interval n (drop 1 time_list)
         ≫= λ stack, mret (f :: stack)) (c, w') ∧
    calls w' = calls w ++
               [Call_set_param (__handle c) PARAM_EXP_TIME
                  (schedule time_list i)] ++
               frame_calls c (x0, x1, y0, y1) interval (schedule time_list 0) ∧
    params w' !! PARAM_EXP_RES = params w !! PARAM_EXP_RES ∧
    faults w' = drop 2 rest.
Proof.
  intros Hi Hfw Hq. destruct (schedule_lookup i Hi) as [Hv Hin].
  assert (0 < length time_list)%nat as H0 by lia.
  destruct (schedule_lookup 0 H0) as [Hv0 Hin0].
  set (w0 := called (Call_set_param (__handle c) PARAM_EXP_TIME
                       (schedule time_list i)) id rest w).
  assert (next_exposure (drop i time_list) (c, w) = (Raise e, (c, w0)))
    as Hfail.
  { rewrite (drop_S _ _ _ Hv). cbn [next_exposure].
    apply bind_Raise. unfold set_vtm_exp_time.
    assert (in_range (schedule time_list i) 0 (2 ^ 16) = true) as ->.
    { apply in_range_spec. by eapply (proj1 (Forall_forall _ _) Hvalid). }
    unfold set_param, pvc_set_param. rewrite bind_self.
    by rewrite (external_fault _ _ _ _ e rest Hfw). }
  assert (quiet 2 (faults w0)) as Hq0 by done.
  destruct (set_vtm_exp_time_quiet time_list c Hvalid _ w0 1 Hin0 Hq0)
    as (w1 & Hrun1 & Hc1 & Hp1 & Hf1).
  assert (try_except (next_exposure (drop i time_list))
            (next_exposure time_list) (c, w)
          = (Return (drop 1 time_list), (c, w1))) as Hnext.
  { unfold try_except. rewrite Hfail.
    rewrite (next_exposure_lookup _ _ Hv0).
    by rewrite (bind_Return _ _ _ _ _ Hrun1). }
  apply quiet_S in Hq0 as [_ Hq0]. rewrite <- Hf1 in Hq0.
  destruct (vtm_iteration_tail time_list interval c x0 x1 y0 y1 sh n _ _ w w1
              Hshape Hint Hnext Hq0) as (f & w' & Hrun & Hc & Hp & Hf).
  exists f, w'. split; [done|]. split; [|split].
  - rewrite Hc, Hc1. cbn [frame_calls drop app calls w0 called with_calls
                            with_faults id].
    subst w0. unfold called. cbn. by rewrite <- !app_assoc.
  - rewrite Hp, Hp1. by subst w0.
  - rewrite Hf, Hf1. subst w0. unfold called. cbn. by rewrite drop_drop.
Qed.

(** The loop when the exposure-time write of frame [i + k], in the first
    pass over the list, is the one call to fail. *)
Lemma vtm_loop_write_fault n : ∀ k i w e,
  (k < n)%nat → (i + k < length time_list)%nat →
  faults w = replicate (2 * k) None ++ [Some e] →
  ∃ frames w',
    vtm_loop time_list x0 x1 y0 y1 interval n (drop i time_list) (c, w)
    = (Return frames, (c, w')) ∧
    length frames = n ∧
    calls w' = calls w ++
               flat_map (λ j, frame_calls c (x0, x1, y0, y1) interval
                                (schedule time_list j)) (seq i k) ++
               [Call_set_param (__handle c) PARAM_EXP_TIME
                  (schedule time_list (i + k))] ++
               flat_map (λ j, frame_calls c (x0, x1, y0, y1) interval
                                (schedule time_list j)) (seq 0 (n - k)) ∧
    params w' !! PARAM_EXP_RES = params w !! PARAM_EXP_RES ∧
    faults w' = [].
Proof.
  induction n as [|n IH]; intros k i w e Hk Hi Hfw; [lia|].
  destruct k as [|k].
  - cbn [replicate Nat.mul app] in Hfw.
    destruct (vtm_iteration_retry n i w e [] ltac:(lia) Hfw (quiet_nil _))
      as (f & w1 & -> & Hc1 & Hp1 & Hf1).
    assert (time_list ≠ []) as Hne by (apply (time_list_nonempty i); lia).
    destruct (vtm_loop_quiet time_list interval c x0 x1 y0 y1 sh Hne Hvalid
                Hshape Hint n 1%nat (drop 1 time_list) w1)
      as (frames & w2 & Hrun2 & Hlen & Hc2 & Hp2 & Hf2).
    { exists 1%nat. split; [done|]. split; [lia|done]. }
    { rewrite Hf1. apply quiet_nil. }
    rewrite (bind_Return _ _ _ _ _ Hrun2).
    exists (f :: frames), w2. split; [done|].
    split; [by rewrite length_cons, Hlen|]. split; [|split].
    + rewrite Hc2, Hc1, Nat.add_0_r, Nat.sub_0_r.
      cbn [seq flat_map app]. by rewrite <- !app_assoc.
    + by rewrite Hp2, Hp1.
    + by rewrite Hf2, Hf1, !drop_nil.
  - replace (2 * S k)%nat with (2 + 2 * k)%nat in Hfw by lia.
    rewrite replicate_add, <- app_assoc in Hfw.
    destruct (vtm_iteration_first_pass n i w)
      as (f & w1 & -> & Hc1 & Hp1 & Hf1); [lia| |].
    { rewrite Hfw. apply (quiet_replicate 2). }
    rewrite Hfw in Hf1. cbn [replicate app drop] in Hf1.
    destruct (IH k (S i) w1 e ltac:(lia) ltac:(lia) Hf1)
      as (frames & w2 & Hrun2 & Hlen & Hc2 & Hp2 & Hf2).
    rewrite (bind_Return _ _ _ _ _ Hrun2).
    exists (f :: frames), w2. split; [done|].
    split; [by rewrite length_cons, Hlen|]. split; [|split].
    + rewrite Hc2, Hc1. cbn [seq flat_map].
      rewrite <- !app_assoc. rewrite Nat.add_succ_comm.
      by replace (S n - S k)%nat with (n - k)%nat by lia.
    + by rewrite Hp2, Hp1.
    + done.
Qed.
End vtm_retry.

Section vtm_edges.
Context (exp_resolutions : gmap string Z).

(** X10.  A time outside 0..65535 anywhere in the list makes
    [get_vtm_sequence] raise ValueError before it touches anything: the
    object, the driver parameters and the log are as they were. *)
Theorem vtm_invalid_time_rejected time_list res num_frames interval t s :
  t ∈ time_list → ¬ (0 ≤ t < 2 ^ 16) →
  get_vtm_sequence exp_resolutions time_list res num_frames interval s
  = (Raise ValueError, s).
Proof.
  intros Hin Ht. unfold get_vtm_sequence.
  by rewrite (bind_Raise _ _ _ _ _ (check_times_invalid _ _ s Hin Ht)).
Qed.

(** X11.  With the empty list of times and at least one frame asked for,
    the call raises StopIteration: the restart in the [except] clause has
    nothing to produce.  By then the requested resolution was written, and
    it stays; no frame was captured. *)
Theorem vtm_empty_time_list res num_frames interval c w roi sh old v :
  0 < num_frames →
  __roi c = Some roi → __shape c = Some sh → 0 ≤ sh.1 → 0 ≤ sh.2 →
  params w !! PARAM_EXP_RES = Some old →
  mode_value exp_resolutions res = Some v →
  quiet 1 (faults w) →
  ∃ w',
    get_vtm_sequence exp_resolutions [] res num_frames interval (c, w)
    = (Raise StopIteration, (c, w')) ∧
    calls w' = calls w ++ [Call_set_param (__handle c) PARAM_EXP_RES v] ∧
    params w' !! PARAM_EXP_RES = Some v.
Proof.
  intros Hn Hroi Hshape Hs1 Hs2 Hold Hv Hq.
  destruct roi as [[[x0 x1] y0] y1]. unfold get_vtm_sequence.
  cbn [check_times]. rewrite (bind_Return (mret ()) _ (c, w) () (c, w) eq_refl).
  rewrite bind_self, Hroi, bind_or_raise_Some. cbv beta iota.
  unfold exp_res.
  rewrite (bind_Return _ _ _ _ _ (get_param_Some _ _ _ _ Hold)).
  rewrite (set_exp_res_eq exp_resolutions res), Hv.
  destruct (set_param_quiet PARAM_EXP_RES v c w 0 Hq)
    as (w1 & Hrun1 & Hc1 & Hp1 & Hf1).
  rewrite (bind_Return _ _ _ _ _ Hrun1).
  rewrite bind_self, Hshape, bind_or_raise_Some.
  rewrite np_empty_bind by (repeat constructor; lia).
  destruct (Z.to_nat num_frames) as [|n] eqn:En; [lia|].
  exists w1. split; [done|]. split; [done|].
  by rewrite Hp1, lookup_insert_eq.
Qed.

(** X12.  [get_vtm_sequence] never writes the camera object, and in the
    driver it writes no parameter other than the exposure resolution and
    the exposure time: whatever its outcome and whatever fails, the
    enumerations and every other parameter are as they were, and the log
    has only grown. *)
Theorem vtm_sequence_leaves_alone time_list res num_frames interval
    c w r c' w' :
  get_vtm_sequence exp_resolutions time_list res num_frames interval (c, w)
  = (r, (c', w')) →
  c' = c ∧ unchanged_but [PARAM_EXP_RES; PARAM_EXP_TIME] w w'.
Proof.
  revert c w r c' w'.
  change (touches_only [PARAM_EXP_RES; PARAM_EXP_TIME]
            (get_vtm_sequence exp_resolutions time_list res num_frames
               interval)).
  assert (PARAM_EXP_RES ∈ [PARAM_EXP_RES; PARAM_EXP_TIME]) as Hres
    by (by left).
  assert (PARAM_EXP_TIME ∈ [PARAM_EXP_RES; PARAM_EXP_TIME]) as Htime
    by (right; by left).
  unfold get_vtm_sequence, exp_res.
  apply touches_bind; [apply touches_check_times|]. intros _.
  apply touches_bind; [apply touches_self|]. intros r.
  apply touches_bind; [apply touches_or_raise|]. intros [[[x0 x1] y0] y1].
  apply touches_bind; [apply touches_get_param|]. intros old.
  apply touches_bind; [by apply touches_set_exp_res|]. intros _.
  apply touches_bind; [apply touches_self|]. intros sh.
  apply touches_bind; [apply touches_or_raise|]. intros sh'.
  apply touches_bind; [apply touches_np_empty|]. intros _.
  apply touches_bind; [by apply touches_vtm_loop|]. intros stack.
  apply touches_bind; [by apply touches_set_exp_res|]. intros _.
  apply touches_ret.
Qed.

(** X13.  A failing exposure-time write is swallowed.  When the write for
    frame [k] of the first pass over the list is the one driver call to
    fail, the bare [except] clause catches its exception whatever it is,
    the iterator starts anew, and the call returns all the frames: frame
    [k] is taken with [time_list[0]], the frames after it follow the
    schedule from its start, and the resolution found on entry is
    restored. *)
Theorem vtm_write_fault_restarts time_list res num_frames interval c w
    roi sh old v k e :
  valid_times time_list → valid_interval interval →
  __roi c = Some roi → __shape c = Some sh → 0 ≤ sh.1 → 0 ≤ sh.2 →
  (k < Z.to_nat num_frames)%nat → (k < length time_list)%nat →
  params w !! PARAM_EXP_RES = Some old →
  old ∈ (map_img exp_resolutions : gset Z) →
  mode_value exp_resolutions res = Some v →
  faults w = replicate (1 + 2 * k) None ++ [Some e] →
  ∃ frames w',
    get_vtm_sequence exp_resolutions time_list res num_frames interval (c, w)
    = (Return frames, (c, w')) ∧
    length frames = Z.to_nat num_frames ∧
    calls w' = calls w ++
               [Call_set_param (__handle c) PARAM_EXP_RES v] ++
               flat_map (λ i, frame_calls c roi interval
                                (schedule time_list i)) (seq 0 k) ++
               [Call_set_param (__handle c) PARAM_EXP_TIME
                  (schedule time_list k)] ++
               flat_map (λ i, frame_calls c roi interval
                                (schedule time_list i))
                        (seq 0 (Z.to_nat num_frames - k)) ++
               [Call_set_param (__handle c) PARAM_EXP_RES old].
Proof.
  intros Hvalid Hint Hroi Hshape Hs1 Hs2 Hk Hlen Hold Holdv Hv Hf.
  assert (0 ≤ num_frames) as Hn by lia.
  destruct roi as [[[x0 x1] y0] y1]. unfold get_vtm_sequence.
  rewrite (bind_Return _ _ _ _ _ (check_times_valid _ _ Hvalid)).
  rewrite bind_self, Hroi, bind_or_raise_Some. cbv beta iota.
  unfold exp_res.
  rewrite (bind_Return _ _ _ _ _ (get_param_Some _ _ _ _ Hold)).
  rewrite (set_exp_res_eq exp_resolutions res), Hv.
  destruct (set_param_quiet PARAM_EXP_RES v c w 0)
    as (w1 & Hrun1 & Hc1 & Hp1 & Hf1).
  { rewrite Hf. apply (quiet_le (1 + 2 * k)); [lia|apply quiet_replicate]. }
  rewrite (bind_Return _ _ _ _ _ Hrun1).
  rewrite bind_self, Hshape, bind_or_raise_Some.
  rewrite np_empty_bind by (repeat constructor; done).
  rewrite Hf in Hf1. cbn [Nat.add replicate app drop] in Hf1.
  destruct (vtm_loop_write_fault time_list interval c x0 x1 y0 y1 sh Hvalid
              Hshape Hint (Z.to_nat num_frames) k 0%nat w1 e Hk
              ltac:(lia) Hf1)
    as (frames & w2 & Hrun2 & Hlen2 & Hc2 & Hp2 & Hf2).
  change (drop 0 time_list) with time_list in Hrun2.
  rewrite (bind_Return _ _ _ _ _ Hrun2).
  rewrite (set_exp_res_eq exp_resolutions (PInt old)),
    (mode_value_PInt _ _ Holdv).
  destruct (set_param_quiet PARAM_EXP_RES old c w2 0)
    as (w3 & Hrun3 & Hc3 & Hp3 & Hf3).
  { rewrite Hf2. apply quiet_nil. }
  rewrite (bind_Return _ _ _ _ _ Hrun3).
  exists frames, w3. split; [done|]. split; [done|].
  rewrite Hc3, Hc2, Hc1. by rewrite <- !app_assoc.
Qed.
End vtm_edges.

Lemma vtm_invalid_time_rejected_witness :
  get_vtm_sequence demo_exp_resolutions [10; 65536; 30] (PInt 1) 7 PNone
    (demo_camera, demo_world)
  = (Raise ValueError, (demo_camera, demo_world)).
Proof.
  apply (vtm_invalid_time_rejected demo_exp_resolutions [10; 65536; 30]
           (PInt 1) 7 PNone 65536 (demo_camera, demo_world)).
  - right. left.
  - lia.
Defined.

Lemma vtm_sequence_leaves_alone_witness :
  demo_camera = demo_camera ∧
  unchanged_but [PARAM_EXP_RES; PARAM_EXP_TIME] demo_world vtm_demo_world.
Proof.
  apply (vtm_sequence_leaves_alone demo_exp_resolutions [10; 20; 30] (PInt 1)
           7 PNone demo_camera demo_world
           (Return [2; 4; 6; 8; 10; 12; 14]%nat)).
  vm_compute. reflexivity.
Defined.

Lemma vtm_empty_time_list_witness :
  ∃ w',
    get_vtm_sequence demo_exp_resolutions [] (PInt 1) 3 PNone
      (demo_camera, demo_world)
    = (Raise StopIteration, (demo_camera, w')) ∧
    calls w' = calls demo_world ++
               [Call_set_param (__handle demo_camera) PARAM_EXP_RES 1] ∧
    params w' !! PARAM_EXP_RES = Some 1.
Proof.
  apply (vtm_empty_time_list demo_exp_resolutions (PInt 1) 3 PNone
           demo_camera demo_world (0, 2048, 0, 2048) (2048, 2048) 0 1).
  - lia.
  - reflexivity.
  - reflexivity.
  - cbn. lia.
  - cbn. lia.
  - reflexivity.
  - apply mode_value_PInt. apply elem_of_map_img.
    exists "One Microsecond"%string. reflexivity.
  - apply quiet_nil.
Defined.

Lemma vtm_write_fault_restarts_witness :
  ∃ frames w',
    get_vtm_sequence demo_exp_resolutions [10; 20; 30] (PInt 1) 4 PNone
      (demo_camera,
       with_faults [None; None; None; Some RuntimeError] demo_world)
    = (Return frames, (demo_camera, w')) ∧
    length frames = Z.to_nat 4 ∧
    calls w' = calls demo_world ++
               [Call_set_param 0 PARAM_EXP_RES 1] ++
               flat_map (λ i, frame_calls demo_camera (0, 2048, 0, 2048)
                                PNone (schedule [10; 20; 30] i)) (seq 0 1) ++
               [Call_set_param 0 PARAM_EXP_TIME (schedule [10; 20; 30] 1)] ++
               flat_map (λ i, frame_calls demo_camera (0, 2048, 0, 2048)
                                PNone (schedule [10; 20; 30] i))
                        (seq 0 (Z.to_nat 4 - 1)) ++
               [Call_set_param 0 PARAM_EXP_RES 0].
Proof.
  apply (vtm_write_fault_restarts demo_exp_resolutions [10; 20; 30] (PInt 1)
           4 PNone demo_camera
           (with_faults [None; None; None; Some RuntimeError] demo_world)
           (0, 2048, 0, 2048) (2048, 2048) 0 1 1%nat RuntimeError).
  - repeat constructor; lia.
  - intros ms [=].
  - reflexivity.
  - reflexivity.
  - cbn. lia.
  - cbn. lia.
  - cbn. lia.
  - cbn. lia.
  - reflexivity.
  - apply elem_of_map_img. exists "One Millisecond"%string. reflexivity.
  - apply mode_value_PInt. apply elem_of_map_img.
    exists "One Microsecond"%string. reflexivity.
  - reflexivity.
Defined.

(** ** The session: abort, join, stop *)

Lemma the_stream_saver_inv c w r s' :
  the_stream_saver (c, w) = (r, s') →
  s' = (c, w) ∧
  ((r = Raise AttributeError ∧ __stream_saver c = None) ∨
   ∃ s, __stream_saver c = Some s ∧ r = Return s).
Proof.
  unfold the_stream_saver. rewrite bind_self.
  destruct (__stream_saver c) as [s|]; intros [= <- <-]; (split; [done|]);
    [right; by exists s|by left].
Qed.

Lemma abort_acquisition_session c w m s :
  __stream_mode c = Some m → __stream_saver c = Some s →
  abort_acquisition (c, w) = external (Call_abort_acquisition s) id (c, w).
Proof.
  intros Hm Hs. unfold abort_acquisition, the_stream_saver,
    saver_abort_acquisition. py_step. rewrite Hm. cbn. by rewrite Hs.
Qed.

Lemma join_acquisition_session c w m s :
  __stream_mode c = Some m → __stream_saver c = Some s →
  join_acquisition (c, w)
  = (external (Call_join_acquisition s) (set_active s false)
       ≫= λ _, assign (with_stream_mode None)) (c, w).
Proof.
  intros Hm Hs. unfold join_acquisition, the_stream_saver,
    saver_join_acquisition. py_step. rewrite Hm. cbn. by rewrite Hs.
Qed.

Lemma session_call_idle c w :
  __stream_mode c = None →
  check_acquisition (c, w) = (Return false, (c, w)) ∧
  abort_acquisition (c, w) = (Raise RuntimeError, (c, w)) ∧
  join_acquisition (c, w) = (Raise RuntimeError, (c, w)).
Proof.
  intros Hm. unfold check_acquisition, abort_acquisition, join_acquisition.
  by rewrite !bind_self, Hm.
Qed.

(** X14.  [abort_acquisition] during a session only passes the request on:
    whatever the engine answers, the object is as it was, state tag
    included, the one call issued is the abort on the attached engine, and
    the driver parameters are as they were.  The session is still there for
    a [join_acquisition]. *)
Theorem abort_keeps_session c w m s r c' w' :
  __stream_mode c = Some m → __stream_saver c = Some s →
  abort_acquisition (c, w) = (r, (c', w')) →
  c' = c ∧ calls w' = calls w ++ [Call_abort_acquisition s] ∧
  params w' = params w ∧ engines w' = engines w ∧
  (r = Return () ∨ ∃ e fs, r = Raise e ∧ faults w = Some e :: fs).
Proof.
  intros Hm Hs. rewrite (abort_acquisition_session c w m s Hm Hs).
  intros [-> [(-> & fs & -> & _) | (e & fs & -> & Hf & ->)]]%external_inv.
  - repeat split; try done. by left.
  - repeat split; try done. right. by exists e, fs.
Qed.

Lemma abort_keeps_session_witness :
  live_camera = live_camera ∧
  calls (with_calls (live_calls ++ [Call_abort_acquisition (Saver 0)])
           live_world)
  = calls live_world ++ [Call_abort_acquisition (Saver 0)] ∧
  params (with_calls (live_calls ++ [Call_abort_acquisition (Saver 0)])
            live_world) = params live_world ∧
  engines (with_calls (live_calls ++ [Call_abort_acquisition (Saver 0)])
             live_world) = engines live_world ∧
  (Return () = Return () ∨
   ∃ e fs, Return () = Raise e ∧ faults live_world = Some e :: fs).
Proof.
  apply (abort_keeps_session live_camera live_world "live" (Saver 0)
           (Return ()) live_camera).
  - reflexivity.
  - reflexivity.
  - vm_compute. reflexivity.
Defined.

(** X15.  [join_acquisition] ends the session: when the engine's join
    returns, the state tag is cleared, and from then on
    [check_acquisition] answers False without asking the engine, and a
    further abort or join raises RuntimeError.  When the engine's join
    raises, the tag is not cleared. *)
Theorem join_ends_session c w m s r c' w' :
  __stream_mode c = Some m → __stream_saver c = Some s →
  join_acquisition (c, w) = (r, (c', w')) →
  calls w' = calls w ++ [Call_join_acquisition s] ∧
  match r with
  | Return _ =>
      c' = with_stream_mode None c ∧
      check_acquisition (c', w') = (Return false, (c', w')) ∧
      abort_acquisition (c', w') = (Raise RuntimeError, (c', w')) ∧
      join_acquisition (c', w') = (Raise RuntimeError, (c', w'))
  | Raise e => c' = c ∧ ∃ fs, faults w = Some e :: fs
  end.
Proof.
  intros Hm Hs. rewrite (join_acquisition_session c w m s Hm Hs).
  intros H. apply bind_inv in H as [([] & [c1 w1] & H1 & H) | (e & H1 & ->)].
  - apply external_inv in H1
      as [-> [(_ & fs & -> & _) | (e & fs & [=] & _)]].
    injection H as <- <- <-. split; [done|]. split; [done|].
    by apply session_call_idle.
  - apply external_inv in H1
      as [-> [([=] & _) | (e' & fs & [= <-] & Hf & ->)]].
    split; [done|]. split; [done|]. by exists fs.
Qed.

Lemma join_ends_session_witness :
  calls stopped_world
  = calls (with_calls (live_calls ++ [Call_abort_acquisition (Saver 0)])
             live_world) ++ [Call_join_acquisition (Saver 0)] ∧
  stopped_camera = with_stream_mode None live_camera ∧
  check_acquisition (stopped_camera, stopped_world)
  = (Return false, (stopped_camera, stopped_world)) ∧
  abort_acquisition (stopped_camera, stopped_world)
  = (Raise RuntimeError, (stopped_camera, stopped_world)) ∧
  join_acquisition (stopped_camera, stopped_world)
  = (Raise RuntimeError, (stopped_camera, stopped_world)).
Proof.
  apply (join_ends_session live_camera
           (with_calls (live_calls ++ [Call_abort_acquisition (Saver 0)])
              live_world) "live" (Saver 0) (Return ())
           stopped_camera stopped_world).
  - reflexivity.
  - reflexivity.
  - vm_compute. reflexivity.
Defined.

(** X16.  [stop_live] is best effort.  In a live session, when the
    engine's abort raises, a RuntimeError is swallowed and any other
    exception passes through; either way the join is not issued and the
    object is as it was: after a [stop_live] that returned, the state tag
    can still be "live". *)
Theorem stop_live_swallows_RuntimeError c w s e fs :
  __stream_mode c = Some "live"%string → __stream_saver c = Some s →
  faults w = Some e :: fs →
  stop_live (c, w)
  = (if decide (e = RuntimeError) then Return () else Raise e,
     (c, called (Call_abort_acquisition s) id fs w)).
Proof.
  intros Hm Hs Hf. unfold stop_live. rewrite bind_self, Hm.
  destruct (decide (Some "live"%string ≠ Some "live"%string)) as [?|_];
    [done|].
  unfold try_except_on.
  rewrite (bind_Raise abort_acquisition _ (c, w) e
             (c, called (Call_abort_acquisition s) id fs w)).
  - by destruct (decide (e = RuntimeError)).
  - rewrite (abort_acquisition_session c w _ s Hm Hs).
    by apply external_fault.
Qed.

Lemma stop_live_swallows_RuntimeError_witness :
  stop_live (live_camera, with_faults [Some RuntimeError] live_world)
  = (Return (),
     (live_camera,
      with_calls (live_calls ++ [Call_abort_acquisition (Saver 0)])
        live_world)).
Proof.
  apply (stop_live_swallows_RuntimeError live_camera
           (with_faults [Some RuntimeError] live_world) (Saver 0)
           RuntimeError []).
  - reflexivity.
  - reflexivity.
  - reflexivity.
Defined.

(** [stop_live] in a live session whose engine answers the two calls. *)
Lemma stop_live_session c w s :
  __stream_mode c = Some "live"%string → __stream_saver c = Some s →
  quiet 2 (faults w) →
  stop_live (c, w)
  = (Return (),
     (with_stream_mode None c,
      called (Call_join_acquisition s) (set_active s false)
        (drop 2 (faults w))
        (called (Call_abort_acquisition s) id (drop 1 (faults w)) w))).
Proof.
  intros Hm Hs Hq. unfold stop_live. rewrite bind_self.
  destruct (decide (__stream_mode c ≠ Some "live"%string)) as [Hm'|_];
    [done|].
  unfold try_except_on.
  pose proof (external_quiet (Call_abort_acquisition s) id c w 1 Hq) as H1.
  rewrite <- (abort_acquisition_session c w _ s Hm Hs) in H1.
  rewrite (bind_Return _ _ _ _ _ H1).
  apply quiet_S in Hq as [_ Hq].
  set (w1 := called (Call_abort_acquisition s) id (drop 1 (faults w)) w).
  pose proof (external_quiet (Call_join_acquisition s) (set_active s false)
                c w1 0 Hq) as H2.
  rewrite (join_acquisition_session c w1 _ s Hm Hs).
  rewrite (bind_Return _ _ _ _ _ H2).
  unfold assign. cbn [fst snd]. do 3 f_equal.
  unfold w1, called. cbn. by rewrite drop_drop.
Qed.

(** X17.  [stop_live] by state.  Outside a live session it does nothing,
    a sequence session included.  In a live session whose engine answers
    the two calls, it issues the abort and then the join on the attached
    engine and clears the state tag; the engine stays attached. *)
Theorem stop_live_by_state c w s :
  (__stream_mode c = Some "live"%string →
   __stream_saver c = Some s ∧ quiet 2 (faults w)) →
  stop_live (c, w)
  = (Return (),
     if decide (__stream_mode c = Some "live"%string)
     then (with_stream_mode None c,
           called (Call_join_acquisition s) (set_active s false)
             (drop 2 (faults w))
             (called (Call_abort_acquisition s) id (drop 1 (faults w)) w))
     else (c, w)).
Proof.
  intros Hlive.
  destruct (decide (__stream_mode c = Some "live"%string)) as [Hm|Hm].
  - destruct (Hlive Hm) as [Hs Hq]. by apply stop_live_session.
  - unfold stop_live. rewrite bind_self.
    by destruct (decide (__stream_mode c ≠ Some "live"%string)).
Qed.

Lemma stop_live_by_state_witness :
  stop_live (live_camera, live_world)
  = (Return (),
     if decide (__stream_mode live_camera = Some "live"%string)
     then (with_stream_mode None live_camera,
           called (Call_join_acquisition (Saver 0))
             (set_active (Saver 0) false) (drop 2 (faults live_world))
             (called (Call_abort_acquisition (Saver 0)) id
                (drop 1 (faults live_world)) live_world))
     else (live_camera, live_world)).
Proof.
  apply (stop_live_by_state live_camera live_world (Saver 0)).
  intros _. split; [reflexivity|apply quiet_nil].
Defined.

(** ** Closing *)

(** X18.  Whatever exception the driver raises on [close_camera], [close]
    raises RuntimeError in its place, and the object is as it was: the
    handle, the open flag and the engine reference are kept. *)
Theorem close_failure c w e fs :
  faults w = Some e :: fs →
  close (c, w)
  = (Raise RuntimeError,
     (c, called (Call_close_camera (__handle c)) id fs w)).
Proof.
  intros Hf. unfold close, try_except, pvc_close_camera.
  rewrite bind_self.
  by rewrite (bind_Raise _ _ _ _ _ (external_fault _ _ _ _ e fs Hf)).
Qed.

Lemma close_failure_witness :
  close (live_camera, with_faults [Some OSError] live_world)
  = (Raise RuntimeError,
     (live_camera,
      with_calls (live_calls ++ [Call_close_camera 0]) live_world)).
Proof.
  apply (close_failure live_camera (with_faults [Some OSError] live_world)
           OSError []).
  reflexivity.
Defined.

(** X19.  Closing the camera during a session leaves a state tag without
    an engine, and the session calls then fail on the missing engine:
    after such a [close], in whatever world, [check_acquisition],
    [start_live], [abort_acquisition] and [join_acquisition] each raise
    AttributeError and change nothing. *)
Theorem session_calls_after_close c w c' w' w'' :
  __stream_mode c ≠ None →
  close (c, w) = (Return (), (c', w')) →
  check_acquisition (c', w'') = (Raise AttributeError, (c', w'')) ∧
  start_live (c', w'') = (Raise AttributeError, (c', w'')) ∧
  abort_acquisition (c', w'') = (Raise AttributeError, (c', w'')) ∧
  join_acquisition (c', w'') = (Raise AttributeError, (c', w'')).
Proof.
  intros Hm H.
  assert (__stream_mode c' = __stream_mode c ∧ __stream_saver c' = None)
    as [Hm' Hs'].
  { unfold close, try_except, pvc_close_camera in H. rewrite bind_self in H.
    destruct (external (Call_close_camera (__handle c)) id (c, w))
      as [[[]|e] [c1 w1]] eqn:Hc.
    - rewrite (bind_Return _ _ _ _ _ Hc) in H.
      apply external_inv in Hc as [-> _]. by injection H as <- <-.
    - by rewrite (bind_Raise _ _ _ _ _ Hc) in H. }
  destruct (__stream_mode c) as [m|] eqn:Hmc; [|done].
  unfold start_live, check_acquisition, abort_acquisition, join_acquisition,
    the_stream_saver.
  py_step. rewrite Hm'. cbn. by rewrite Hs'.
Qed.

Lemma session_calls_after_close_witness :
  check_acquisition (closed_camera, closed_world)
  = (Raise AttributeError, (closed_camera, closed_world)) ∧
  start_live (closed_camera, closed_world)
  = (Raise AttributeError, (closed_camera, closed_world)) ∧
  abort_acquisition (closed_camera, closed_world)
  = (Raise AttributeError, (closed_camera, closed_world)) ∧
  join_acquisition (closed_camera, closed_world)
  = (Raise AttributeError, (closed_camera, closed_world)).
Proof.
  apply (session_calls_after_close sequence_camera sequence_world
           closed_camera closed_world closed_world).
  - discriminate.
  - vm_compute. reflexivity.
Defined.

(** ** The engine through the session calls *)

Lemma engine_kept_refl c : engine_kept c c.
Proof. split; [done|by left]. Qed.

Lemma engine_kept_trans c1 c2 c3 :
  engine_kept c1 c2 → engine_kept c2 c3 → engine_kept c1 c3.
Proof.
  intros [Hs1 Hm1] [Hs2 Hm2]. split; [by intros s ?%Hs1%Hs2|].
  destruct Hm2 as [Hm2 | [Hm2 | Hm2]]; [|by right; left|by right; right].
  rewrite Hm2. destruct Hm1 as [Hm1 | [Hm1 | [s Hm1]]];
    [by left|by right; left|right; right].
  exists s. by apply Hs2.
Qed.

Lemma engine_kept_attached c c' :
  engine_kept c c' → attached_when_active c → attached_when_active c'.
Proof.
  intros [Hs [Hm | [Hm | Hm]]] Ha Hne; [|done..].
  rewrite Hm in Hne. destruct (Ha Hne) as [s Hsv]. exists s. by apply Hs.
Qed.

Lemma keeps_engine_same {A} (m : Py A) :
  (∀ c w r c' w', m (c, w) = (r, (c', w')) → c' = c) → keeps_engine m.
Proof. intros Hm c w r c' w' ->%Hm. apply engine_kept_refl. Qed.

Lemma keeps_engine_ret {A} (a : A) : keeps_engine (mret a).
Proof. apply keeps_engine_same. by intros c w r c' w' [= _ <- _]. Qed.

Lemma keeps_engine_raise {A} e : keeps_engine (raise (A:=A) e).
Proof. apply keeps_engine_same. by intros c w r c' w' [= _ <- _]. Qed.

Lemma keeps_engine_self {A} (f : Camera → A) : keeps_engine (self f).
Proof. apply keeps_engine_same. by intros c w r c' w' [= _ <- _]. Qed.

Lemma keeps_engine_world {A} (f : World → A) : keeps_engine (world f).
Proof. apply keeps_engine_same. by intros c w r c' w' [= _ <- _]. Qed.

Lemma keeps_engine_or_raise {A} e (o : option A) : keeps_engine (or_raise e o).
Proof. destruct o; [apply keeps_engine_ret|apply keeps_engine_raise]. Qed.

Lemma keeps_engine_external k effect : keeps_engine (external k effect).
Proof.
  apply keeps_engine_same. by intros c w r c' w' [-> _]%external_inv.
Qed.

Lemma keeps_engine_bind {A B} (m : Py A) (f : A → Py B) :
  keeps_engine m → (∀ a, keeps_engine (f a)) → keeps_engine (m ≫= f).
Proof.
  intros Hm Hf c w r c' w' H.
  apply bind_inv in H as [(a & [c1 w1] & H1 & H2) | (e & H1 & ->)].
  - eapply engine_kept_trans; [by eapply Hm|by eapply Hf].
  - by eapply Hm.
Qed.

Lemma keeps_engine_try_except_on {A} E (body handler : Py A) :
  keeps_engine body → keeps_engine handler →
  keeps_engine (try_except_on E body handler).
Proof.
  intros Hb Hh c w r c' w'. unfold try_except_on.
  destruct (body (c, w)) as [[a|e] [c1 w1]] eqn:Hbody.
  - intros [= <- <- <-]. by eapply Hb.
  - destruct (decide (e = E)).
    + intros H. eapply engine_kept_trans; [by eapply Hb|by eapply Hh].
    + intros [= <- <- <-]. by eapply Hb.
Qed.

Lemma keeps_engine_the_stream_saver : keeps_engine the_stream_saver.
Proof.
  apply keeps_engine_same. by intros c w r c' w' [[= <- <-] _]%the_stream_saver_inv.
Qed.

Ltac keeps_engine_tac :=
  first
    [ assumption
    | apply keeps_engine_the_stream_saver
    | lazymatch goal with
      | |- keeps_engine (_ ≫= _) =>
          apply keeps_engine_bind;
          [keeps_engine_tac | intros ?; keeps_engine_tac]
      | |- keeps_engine (match ?x with _ => _ end) =>
          destruct x; keeps_engine_tac
      | |- _ =>
          first [ apply keeps_engine_self | apply keeps_engine_world
                | apply keeps_engine_or_raise | apply keeps_engine_ret
                | apply keeps_engine_raise | apply keeps_engine_external ]
      end ].

Lemma keeps_engine_abort : keeps_engine abort_acquisition.
Proof.
  unfold abort_acquisition, saver_abort_acquisition.
  keeps_engine_tac.
Qed.

(** The tail of a session call once the engine was retrieved and used:
    the state tag is written with an engine attached. *)
Lemma keeps_engine_tag {A} (m : StreamSaver → Py A) tag :
  (∀ s, keeps_engine (m s)) →
  keeps_engine (s ← the_stream_saver; m s;; assign (with_stream_mode tag)).
Proof.
  intros Hm c w r c' w' H.
  apply bind_inv in H as [(s & s1 & H1 & H) | (e & H1 & ->)].
  - apply the_stream_saver_inv in H1 as [-> [[[=] _] | (s' & Hs & [= <-])]].
    apply bind_inv in H as [(a & [c1 w1] & H1 & H) | (e & H1 & ->)].
    + injection H as <- <- <-. apply Hm in H1 as [Hs1 Hm1].
      split; [done|]. right. right. exists s. by apply Hs1.
    + by eapply Hm.
  - apply the_stream_saver_inv in H1 as [[= <- <-] _]. apply engine_kept_refl.
Qed.

Lemma keeps_engine_join : keeps_engine join_acquisition.
Proof.
  unfold join_acquisition.
  apply keeps_engine_bind; [apply keeps_engine_self|]. intros [m|];
    [|apply keeps_engine_raise].
  apply (keeps_engine_tag saver_join_acquisition). intros s.
  apply keeps_engine_external.
Qed.

Lemma keeps_engine_stop_live : keeps_engine stop_live.
Proof.
  unfold stop_live.
  apply keeps_engine_bind; [apply keeps_engine_self|]. intros m.
  destruct (decide _); [apply keeps_engine_ret|].
  apply keeps_engine_try_except_on; [|apply keeps_engine_ret].
  apply keeps_engine_bind; [apply keeps_engine_abort|]. intros _.
  apply keeps_engine_join.
Qed.

Lemma object_kept_bind {A B} (m : Py A) (f : A → Py B) :
  object_kept m → (∀ a, object_kept (f a)) → object_kept (m ≫= f).
Proof.
  intros Hm Hf c w r c' w' H.
  apply bind_inv in H as [(a & [c1 w1] & H1 & H2) | (e & H1 & ->)].
  - apply Hm in H1 as ->. by apply Hf in H2.
  - by apply Hm in H1.
Qed.

Lemma object_kept_external k effect : object_kept (external k effect).
Proof. by intros c w r c' w' [-> _]%external_inv. Qed.

Lemma object_kept_pure {A} (m : Py A) :
  (∀ s, ∃ r, m s = (r, s)) → object_kept m.
Proof.
  intros Hm c w r c' w' H. destruct (Hm (c, w)) as [r' Hr]. rewrite Hr in H.
  by injection H as <- <- <-.
Qed.

Lemma object_kept_or_raise {A} e (o : option A) : object_kept (or_raise e o).
Proof. apply object_kept_pure. intros s. destruct o; by eexists. Qed.

Ltac object_kept_tac :=
  lazymatch goal with
  | |- object_kept (_ ≫= _) =>
      apply object_kept_bind; [object_kept_tac | intros ?; object_kept_tac]
  | |- _ =>
      first [ apply object_kept_external | apply object_kept_or_raise
            | apply object_kept_pure; intros ?; by eexists ]
  end.

(** Every outcome of the creation of an engine: the object is as it was,
    or it holds a new engine. *)
Lemma create_stream_saver_inv c w r c' w' :
  create_stream_saver (c, w) = (r, (c', w')) →
  c' = c ∨ ∃ s, c' = with_stream_saver (Some s) c.
Proof.
  unfold create_stream_saver. intros H.
  apply bind_inv in H as [(s & [c1 w1] & H1 & H) | (e & H1 & ->)].
  - assert (object_kept new_StreamSaver) as Hnew
      by (unfold new_StreamSaver; object_kept_tac).
    apply Hnew in H1 as ->.
    unfold mbind at 1, Py_bind at 1, assign at 1 in H. cbn [fst snd] in H.
    assert (object_kept (pvc_uninit_pvcam;; s ← the_stream_saver;
                         name ← self __name; saver_attach_camera s name))
      as Hrest.
    { unfold pvc_uninit_pvcam, the_stream_saver, saver_attach_camera.
      object_kept_tac. }
    apply Hrest in H as ->. right. by exists s.
  - assert (object_kept new_StreamSaver) as Hnew
      by (unfold new_StreamSaver; object_kept_tac).
    apply Hnew in H1 as ->. by left.
Qed.

(** The engine is created only where none is attached. *)
Lemma keeps_engine_create c w r c' w' :
  __stream_saver c = None →
  create_stream_saver (c, w) = (r, (c', w')) → engine_kept c c'.
Proof.
  intros Hs [-> | [s ->]]%create_stream_saver_inv; [apply engine_kept_refl|].
  split; [|by left]. intros s0. by rewrite Hs.
Qed.

Lemma keeps_engine_start_live_acquisition : keeps_engine start_live_acquisition.
Proof.
  intros c w r c' w'. unfold start_live_acquisition. rewrite bind_self.
  destruct (__roi c) as [[[[x0 x1] y0] y1]|];
    [|intros [= <- <- <-]; apply engine_kept_refl].
  rewrite bind_or_raise_Some. cbv beta iota. rewrite bind_self.
  assert (keeps_engine
            (s ← the_stream_saver; exp ← self __exp_time; bx ← bin_x;
             by_ ← bin_y;
             saver_setup_live s exp 0 x0 (x1 - 1) bx y0 (y1 - 1) by_;;
             s0 ← the_stream_saver; saver_start_acquisition s0;;
             assign (with_stream_mode (Some "live"%string)))) as Hrest.
  { unfold bin_x, bin_y, saver_setup_live.
    pose proof (keeps_engine_tag saver_start_acquisition
                  (Some "live"%string)
                  (λ s, keeps_engine_external _ _)) as Htag.
    keeps_engine_tac. }
  intros H. apply bind_inv in H as [([] & [c1 w1] & H1 & H) | (e & H1 & ->)].
  - apply Hrest in H. eapply engine_kept_trans; [|done].
    destruct (__stream_saver c) eqn:Hs.
    + injection H1 as <- <-. apply engine_kept_refl.
    + by eapply keeps_engine_create.
  - destruct (__stream_saver c) eqn:Hs; [done|]. by eapply keeps_engine_create.
Qed.

Lemma keeps_engine_check : keeps_engine check_acquisition.
Proof.
  unfold check_acquisition, saver_acquisition_status.
  keeps_engine_tac.
Qed.

Lemma keeps_engine_start_live : keeps_engine start_live.
Proof.
  unfold start_live.
  apply keeps_engine_bind; [apply keeps_engine_check|]. intros [|];
    [apply keeps_engine_ret|apply keeps_engine_start_live_acquisition].
Qed.

Lemma keeps_engine_start_acquisition num_frames outdir :
  keeps_engine (start_acquisition num_frames outdir).
Proof.
  intros c w r c' w'. unfold start_acquisition. intros H.
  apply bind_inv in H as [(isdir & s1 & H1 & H) | (e & [=] & _)].
  injection H1 as <- <-.
  apply bind_inv in H as [([] & [c1 w1] & H1 & H) | (e & H1 & ->)]; cycle 1.
  { destruct (bool_decide _); [done|].
    apply external_inv in H1 as [-> _]. apply engine_kept_refl. }
  assert (c1 = c) as ->.
  { destruct (bool_decide _); [by injection H1|].
    by apply external_inv in H1 as [-> _]. }
  rewrite bind_self in H.
  destruct (__roi c) as [[[[x0 x1] y0] y1]|];
    [|injection H as <- <- <-; apply engine_kept_refl].
  rewrite bind_or_raise_Some in H. cbv beta iota in H.
  rewrite !bind_self in H.
  assert (keeps_engine
            (s ← the_stream_saver; exp ← self __exp_time; bx ← bin_x;
             by_ ← bin_y;
             saver_setup_acquisition s num_frames exp 0 x0 (x1 - 1) bx y0
               (y1 - 1) by_ outdir;;
             s0 ← the_stream_saver; saver_start_acquisition s0;;
             assign (with_stream_mode (Some "acquisition"%string))))
    as Hrest.
  { unfold bin_x, bin_y, saver_setup_acquisition.
    pose proof (keeps_engine_tag saver_start_acquisition
                  (Some "acquisition"%string)
                  (λ s, keeps_engine_external _ _)) as Htag.
    keeps_engine_tac. }
  assert (∀ r1 c2 w2,
            match __stream_saver c with
            | Some _ =>
                if decide (__stream_mode c = Some "live"%string)
                then stop_live
                else if decide (__stream_mode c ≠ None)
                     then raise RuntimeError else mret ()
            | None => create_stream_saver
            end (c, w1) = (r1, (c2, w2)) → engine_kept c c2) as Hfirst.
  { intros r1 c2 w2. destruct (__stream_saver c) eqn:Hs;
      [|by apply keeps_engine_create].
    destruct (decide _); [apply keeps_engine_stop_live|].
    destruct (decide _); [apply keeps_engine_raise|apply keeps_engine_ret]. }
  apply bind_inv in H as [([] & [c2 w2] & H1' & H) | (e & H1' & ->)].
  - eapply engine_kept_trans; [by eapply Hfirst|by eapply Hrest].
  - by eapply Hfirst.
Qed.

(** X20.  The session calls never detach or replace an attached engine,
    and never leave a state tag without an engine: whatever a start, stop,
    abort or join call does, returning or raising, an engine that was
    attached is still the one attached, and if every named session had an
    engine before the call, it has one after it.  ([close] is the call
    that breaks this.) *)
Theorem session_calls_keep_engine k c w r c' w' :
  run_lifecycle k (c, w) = (r, (c', w')) →
  (∀ s, __stream_saver c = Some s → __stream_saver c' = Some s) ∧
  (attached_when_active c → attached_when_active c').
Proof.
  intros H. assert (engine_kept c c') as Hk.
  { destruct k; cbn [run_lifecycle] in H.
    - by eapply keeps_engine_start_live.
    - by eapply keeps_engine_start_acquisition.
    - by eapply keeps_engine_stop_live.
    - by eapply keeps_engine_abort.
    - by eapply keeps_engine_join. }
  split; [apply Hk|by apply engine_kept_attached].
Qed.

Lemma session_calls_keep_engine_witness :
  (∀ s, __stream_saver live_camera = Some s →
        __stream_saver stopped_camera = Some s) ∧
  (attached_when_active live_camera → attached_when_active stopped_camera).
Proof.
  apply (session_calls_keep_engine Stop_live live_camera live_world
           (Return ()) stopped_camera stopped_world).
  vm_compute. reflexivity.
Defined.

(** ** Starting a live session *)

(** [start_live_acquisition] when every call succeeds. *)
Lemma start_live_acquisition_quiet c w roi :
  faults w = [] → __roi c = Some roi →
  ∃ s w',
    start_live_acquisition (c, w)
    = (Return (), (with_stream_mode (Some "live"%string)
                     (with_stream_saver (Some s) c), w')) ∧
    calls w' = calls w ++ creation_calls c s ++
               [live_setup_call s c roi; Call_start_acquisition s] ∧
    (∀ s0, __stream_saver c = Some s0 → s = s0) ∧
    engines w' !! saver_id s = Some true ∧
    faults w' = [].
Proof.
  intros Hf Hroi.
  destruct c as [name h op mode exp [bx by_] r0 sh sv sm em eom].
  destruct w as [ps es eng ds fs cl].
  cbn in Hf, Hroi. subst fs r0. destruct roi as [[[x0 x1] y0] y1].
  unfold start_live_acquisition, creation_calls, live_setup_call,
    create_stream_saver, new_StreamSaver, the_stream_saver, saver_setup_live,
    saver_start_acquisition, saver_attach_camera, pvc_uninit_pvcam, bin_x,
    bin_y, external, set_active.
  py_step. destruct sv as [s|]; py_step.
  - exists s. eexists. split; [done|]. cbn. rewrite <- !app_assoc.
    repeat split; try done; [by intros ? [= ->]|apply lookup_insert_eq].
  - exists (Saver (fresh (dom eng))). eexists. split; [done|]. cbn.
    rewrite <- !app_assoc.
    repeat split; try done. apply lookup_insert_eq.
Qed.

(** [start_live_acquisition], when it returns, has left a live session
    with an active engine: whatever the fault script. *)
Lemma start_live_acquisition_Return_inv c w c' w' :
  start_live_acquisition (c, w) = (Return (), (c', w')) →
  ∃ s, __stream_mode c' = Some "live"%string ∧ __stream_saver c' = Some s ∧
       engines w' !! saver_id s = Some true.
Proof.
  unfold start_live_acquisition. rewrite bind_self.
  destruct (__roi c) as [[[[x0 x1] y0] y1]|]; [|done].
  rewrite bind_or_raise_Some. cbv beta iota. rewrite bind_self. intros H.
  apply bind_inv in H as [([] & [c1 w1] & _ & H) | (e & _ & [=])].
  apply bind_inv in H as [(s & s1 & H1 & H) | (e & _ & [=])].
  apply the_stream_saver_inv in H1 as [-> [[[=] _] | (s' & Hs & [= <-])]].
  rewrite bind_self, bin_x_bind, bin_y_bind in H.
  apply bind_inv in H as [([] & [c2 w2] & H1 & H) | (e & _ & [=])].
  apply external_inv in H1 as [-> _].
  apply bind_inv in H as [(s2 & s1 & H1 & H) | (e & _ & [=])].
  apply the_stream_saver_inv in H1 as [-> [[[=] _] | (s' & Hs' & [= <-])]].
  rewrite Hs in Hs'. injection Hs' as <-.
  apply bind_inv in H as [([] & [c3 w3] & H1 & H) | (e & _ & [=])].
  apply external_inv in H1
    as [-> [(_ & fs & -> & _) | (e & fs & [=] & _)]].
  injection H as <- <-. exists s. split; [done|]. split; [done|].
  apply lookup_insert_eq.
Qed.

Lemma check_acquisition_inv c w r s' :
  check_acquisition (c, w) = (r, s') → s' = (c, w).
Proof.
  unfold check_acquisition, the_stream_saver, saver_acquisition_status.
  py_step. destruct (__stream_mode c); cbn; [|by intros [= _ <-]].
  destruct (__stream_saver c); cbn; by intros [= _ <-].
Qed.

(** X21.  [start_live] where no acquisition is active, with the region set
    and every call succeeding: it leaves a live session.  The engine is
    the attached one, or a new one, created and attached to the camera by
    its name, when none was; the calls issued on it are the setup of the
    live capture over the stored region, with the last column and row
    given inclusively, and the start.  A state tag left by a finished
    sequence is overwritten. *)
Theorem start_live_when_inactive c w roi :
  faults w = [] → __roi c = Some roi →
  check_acquisition (c, w) = (Return false, (c, w)) →
  ∃ s w',
    start_live (c, w)
    = (Return (), (with_stream_mode (Some "live"%string)
                     (with_stream_saver (Some s) c), w')) ∧
    calls w' = calls w ++ creation_calls c s ++
               [live_setup_call s c roi; Call_start_acquisition s] ∧
    (∀ s0, __stream_saver c = Some s0 → s = s0) ∧
    engines w' !! saver_id s = Some true.
Proof.
  intros Hf Hroi Hchk. unfold start_live.
  rewrite (bind_Return _ _ _ _ _ Hchk).
  destruct (start_live_acquisition_quiet c w roi Hf Hroi)
    as (s & w' & Hrun & Hc & Hs & He & _).
  by exists s, w'.
Qed.

Lemma start_live_when_inactive_witness :
  ∃ s w',
    start_live (demo_camera, demo_world)
    = (Return (), (with_stream_mode (Some "live"%string)
                     (with_stream_saver (Some s) demo_camera), w')) ∧
    calls w' = calls demo_world ++ creation_calls demo_camera s ++
               [live_setup_call s demo_camera (0, 2048, 0, 2048);
                Call_start_acquisition s] ∧
    (∀ s0, __stream_saver demo_camera = Some s0 → s = s0) ∧
    engines w' !! saver_id s = Some true.
Proof.
  apply (start_live_when_inactive demo_camera demo_world (0, 2048, 0, 2048));
    reflexivity.
Defined.

(** X22.  [start_live] is idempotent: after a [start_live] that returned,
    a second one does nothing, whatever the first one did and whatever the
    fault script. *)
Theorem start_live_idempotent c w c' w' :
  start_live (c, w) = (Return (), (c', w')) →
  start_live (c', w') = (Return (), (c', w')).
Proof.
  unfold start_live. intros H.
  apply bind_inv in H as [(b & s1 & H1 & H) | (e & _ & [=])].
  pose proof (check_acquisition_inv _ _ _ _ H1) as ->.
  destruct b.
  - injection H as <- <-. by rewrite (bind_Return _ _ _ _ _ H1).
  - apply start_live_acquisition_Return_inv in H as (s & Hm & Hs & He).
    assert (check_acquisition (c', w') = (Return true, (c', w'))) as Hchk.
    { unfold check_acquisition, the_stream_saver, saver_acquisition_status.
      py_step. rewrite Hm. cbn. rewrite Hs. cbn. by rewrite He. }
    by rewrite (bind_Return _ _ _ _ _ Hchk).
Qed.

Lemma start_live_idempotent_witness :
  start_live (live_camera, live_world)
  = (Return (), (live_camera, live_world)).
Proof.
  apply (start_live_idempotent demo_camera demo_world live_camera live_world).
  vm_compute. reflexivity.
Defined.

(** X23.  A live session started from the idle state and stopped again
    leaves the camera idle with its engine attached and inactive: the
    object is as on entry but for the engine, and the calls issued are the
    creation of the engine when none was attached, then setup, start,
    abort and join on that engine. *)
Theorem live_round_trip c w roi :
  faults w = [] → __roi c = Some roi → __stream_mode c = None →
  ∃ s w',
    (start_live;; stop_live) (c, w)
    = (Return (), (with_stream_mode None (with_stream_saver (Some s) c), w')) ∧
    calls w' = calls w ++ creation_calls c s ++
               [live_setup_call s c roi; Call_start_acquisition s;
                Call_abort_acquisition s; Call_join_acquisition s] ∧
    (∀ s0, __stream_saver c = Some s0 → s = s0) ∧
    engines w' !! saver_id s = Some false.
Proof.
  intros Hf Hroi Hm.
  destruct (start_live_acquisition_quiet c w roi Hf Hroi)
    as (s & w1 & Hrun & Hc & Hs & He & Hf1).
  assert (start_live (c, w)
          = (Return (), (with_stream_mode (Some "live"%string)
                           (with_stream_saver (Some s) c), w1))) as Hstart.
  { unfold start_live.
    by rewrite (bind_Return _ _ _ _ _ (proj1 (session_call_idle c w Hm))). }
  rewrite (bind_Return _ _ _ _ _ Hstart).
  rewrite (stop_live_session
             (with_stream_mode (Some "live"%string)
                (with_stream_saver (Some s) c)) w1 s eq_refl eq_refl)
    by (rewrite Hf1; apply quiet_nil).
  eexists s, _. split; [done|]. split; [|split; [done|]].
  - unfold called. cbn. rewrite Hc. by rewrite <- !app_assoc.
  - unfold called, set_active. cbn. apply lookup_insert_eq.
Qed.

Lemma live_round_trip_witness :
  ∃ s w',
    (start_live;; stop_live) (demo_camera, demo_world)
    = (Return (), (with_stream_mode None
                     (with_stream_saver (Some s) demo_camera), w')) ∧
    calls w' = calls demo_world ++ creation_calls demo_camera s ++
               [live_setup_call s demo_camera (0, 2048, 0, 2048);
                Call_start_acquisition s;
                Call_abort_acquisition s; Call_join_acquisition s] ∧
    (∀ s0, __stream_saver demo_camera = Some s0 → s = s0) ∧
    engines w' !! saver_id s = Some false.
Proof.
  apply (live_round_trip demo_camera demo_world (0, 2048, 0, 2048));
    reflexivity.
Defined.

(** X24.  A bounded capture can start on an engine that was never joined.
    In a live session, when the engine's abort raises RuntimeError inside
    [stop_live], [start_acquisition] goes on: it sets up and starts the
    bounded capture on the same engine and sets the state tag to
    "acquisition"; no join was issued. *)
Theorem start_acquisition_after_failed_stop num_frames outdir c w s roi :
  __stream_mode c = Some "live"%string → __stream_saver c = Some s →
  __roi c = Some roi → outdir ∈ dirs w →
  faults w = [Some RuntimeError] →
  ∃ w',
    start_acquisition num_frames outdir (c, w)
    = (Return (), (with_stream_mode (Some "acquisition"%string) c, w')) ∧
    calls w' = calls w ++
               [Call_abort_acquisition s;
                setup_call s num_frames outdir c roi;
                Call_start_acquisition s] ∧
    engines w' = <[saver_id s := true]> (engines w).
Proof.
  intros Hm Hs Hroi Hd Hf.
  destruct c as [name h op mode exp [bx by_] r0 sh sv sm em eom].
  destruct w as [ps es eng ds fs cl].
  cbn in Hm, Hs, Hroi, Hd, Hf. subst fs r0 sv sm.
  destruct roi as [[[x0 x1] y0] y1].
  unfold start_acquisition, setup_call, os_path_isdir, os_mkdir,
    stop_live, abort_acquisition, join_acquisition, the_stream_saver,
    saver_setup_acquisition, saver_start_acquisition, saver_abort_acquisition,
    saver_join_acquisition, bin_x, bin_y, external, set_active.
  py_step. rewrite bool_decide_eq_true_2 by done. py_step.
  eexists. split; [done|]. cbn. by rewrite <- !app_assoc.
Qed.

Lemma start_acquisition_after_failed_stop_witness :
  ∃ w',
    start_acquisition 100 "/tmp/out"
      (live_camera,
       with_faults [Some RuntimeError]
         (with_dirs {["/tmp/out"%string]} live_world))
    = (Return (), (with_stream_mode (Some "acquisition"%string) live_camera,
                   w')) ∧
    calls w' = calls (with_faults [Some RuntimeError]
                        (with_dirs {["/tmp/out"%string]} live_world)) ++
               [Call_abort_acquisition (Saver 0);
                setup_call (Saver 0) 100 "/tmp/out" live_camera
                  (0, 2048, 0, 2048);
                Call_start_acquisition (Saver 0)] ∧
    engines w' = <[saver_id (Saver 0) := true]>
                   (engines (with_faults [Some RuntimeError]
                               (with_dirs {["/tmp/out"%string]} live_world))).
Proof.
  apply (start_acquisition_after_failed_stop 100 "/tmp/out" live_camera
           (with_faults [Some RuntimeError]
              (with_dirs {["/tmp/out"%string]} live_world))
           (Saver 0) (0, 2048, 0, 2048)).
  - reflexivity.
  - reflexivity.
  - reflexivity.
  - cbn [dirs with_faults with_dirs]. apply elem_of_singleton_2. reflexivity.
  - reflexivity.
Defined.

(** ** Properties read back from the driver *)

Section readback.
Context (exp_resolutions : gmap string Z).

(** X25.  What is written through the [vtm_exp_time] and [exp_res]
    setters is what the getters read back.  A time in 0..65535, and a
    resolution of the table given by name or by value, is written with one
    [set_param] call and read back; any other value raises ValueError
    before any call to the driver. *)
Theorem setters_read_back v value c w :
  quiet 1 (faults w) →
  (set_vtm_exp_time v;; vtm_exp_time) (c, w)
  = (if decide (0 ≤ v < 2 ^ 16)
     then (Return v,
           (c, called (Call_set_param (__handle c) PARAM_EXP_TIME v)
                 (λ w, with_params (<[PARAM_EXP_TIME := v]> (params w)) w)
                 (drop 1 (faults w)) w))
     else (Raise ValueError, (c, w))) ∧
  (set_exp_res exp_resolutions value;; exp_res) (c, w)
  = match mode_value exp_resolutions value with
    | Some r =>
        (Return r,
         (c, called (Call_set_param (__handle c) PARAM_EXP_RES r)
               (λ w, with_params (<[PARAM_EXP_RES := r]> (params w)) w)
               (drop 1 (faults w)) w))
    | None => (Raise ValueError, (c, w))
    end.
Proof.
  intros Hq.
  assert (∀ id x,
            (set_param id x;; get_param id) (c, w)
            = (Return x,
               (c, called (Call_set_param (__handle c) id x)
                     (λ w, with_params (<[id := x]> (params w)) w)
                     (drop 1 (faults w)) w))) as Hrt.
  { intros id x.
    assert (set_param id x (c, w)
            = (Return (),
               (c, called (Call_set_param (__handle c) id x)
                     (λ w, with_params (<[id := x]> (params w)) w)
                     (drop 1 (faults w)) w))) as Hset.
    { unfold set_param, pvc_set_param. rewrite bind_self.
      by apply (external_quiet _ _ _ _ 0). }
    rewrite (bind_Return _ _ _ _ _ Hset). apply get_param_Some.
    unfold called. cbn. apply lookup_insert_eq. }
  split.
  - unfold set_vtm_exp_time, vtm_exp_time.
    destruct (decide (0 ≤ v < 2 ^ 16)) as [Hv|Hv].
    + apply in_range_spec in Hv. rewrite Hv. apply Hrt.
    + destruct (in_range v 0 (2 ^ 16)) eqn:E; [|done].
      by apply in_range_spec in E.
  - rewrite set_exp_res_eq. unfold exp_res.
    destruct (mode_value exp_resolutions value); [apply Hrt|done].
Qed.
End readback.

Lemma setters_read_back_witness :
  (set_vtm_exp_time 65536;; vtm_exp_time) (demo_camera, demo_world)
  = (if decide (0 ≤ 65536 < 2 ^ 16)
     then (Return 65536,
           (demo_camera,
            called (Call_set_param (__handle demo_camera) PARAM_EXP_TIME 65536)
              (λ w, with_params (<[PARAM_EXP_TIME := 65536]> (params w)) w)
              (drop 1 (faults demo_world)) demo_world))
     else (Raise ValueError, (demo_camera, demo_world))) ∧
  (set_exp_res demo_exp_resolutions (PStr "One Microsecond");; exp_res)
    (demo_camera, demo_world)
  = match mode_value demo_exp_resolutions (PStr "One Microsecond") with
    | Some r =>
        (Return r,
         (demo_camera,
          called (Call_set_param (__handle demo_camera) PARAM_EXP_RES r)
            (λ w, with_params (<[PARAM_EXP_RES := r]> (params w)) w)
            (drop 1 (faults demo_world)) demo_world))
    | None => (Raise ValueError, (demo_camera, demo_world))
    end.
Proof.
  apply (setters_read_back demo_exp_resolutions 65536
           (PStr "One Microsecond") demo_camera demo_world).
  apply quiet_nil.
Defined.

(** ** The driver version string *)

Lemma land_low_bits a n : 0 ≤ n → Z.land a (2 ^ n - 1) = a mod 2 ^ n.
Proof.
  intros Hn. rewrite <- Z.land_ones by done. by rewrite Z.ones_equiv, Z.sub_1_r.
Qed.

(** X26.  The version string does not show the major version.  For a
    driver value made of the major version in the high byte, the minor
    version in bits 4-7 and the build in bits 0-3, the three numbers
    printed are the whole low byte, the build, and the build again: the
    shifts apply to the masks, not to the value. *)
Theorem driver_version_fields major minor build :
  0 ≤ major → 0 ≤ minor < 16 → 0 ≤ build < 16 →
  driver_version (major * 256 + minor * 16 + build)
  = pretty (minor * 16 + build) +:+ "." +:+ pretty build +:+ "." +:+
    pretty build.
Proof.
  intros Hmaj Hmin Hb. unfold driver_version.
  change (Z.shiftr 0xff00 8) with (2 ^ 8 - 1).
  change (Z.shiftr 0x00f0 4) with (2 ^ 4 - 1).
  change 0x000f with (2 ^ 4 - 1).
  rewrite !land_low_bits by lia.
  assert ((major * 256 + minor * 16 + build) mod 2 ^ 8 = minor * 16 + build)
    as ->.
  { symmetry. apply (Z.mod_unique_pos _ _ major); lia. }
  assert ((major * 256 + minor * 16 + build) mod 2 ^ 4 = build) as ->.
  { symmetry. apply (Z.mod_unique_pos _ _ (major * 16 + minor)); lia. }
  done.
Qed.

Lemma driver_version_fields_witness :
  driver_version (3 * 256 + 1 * 16 + 2)
  = pretty (1 * 16 + 2) +:+ "." +:+ pretty 2 +:+ "." +:+ pretty 2.
Proof. apply (driver_version_fields 3 1 2); lia. Defined.

(** ** The order of the geometry setters *)

(** The binning that a scalar setter stores depends on the object through
    the stored binning only. *)
Lemma axis_setter_binning_agree chk msg upd value c1 c2 w c1' c2' w1 w2 :
  __binning c1 = __binning c2 →
  axis_setter chk msg upd value (c1, w) = (Return (), (c1', w1)) →
  axis_setter chk msg upd value (c2, w) = (Return (), (c2', w2)) →
  __binning c1' = __binning c2'.
Proof.
  intros Hb (_ & d1 & v1 & roi1 & Hd1 & Hv1 & _ & ->)%axis_setter_Return_inv
    (_ & d2 & v2 & roi2 & Hd2 & Hv2 & _ & ->)%axis_setter_Return_inv.
  rewrite Hd1 in Hd2. injection Hd2 as <-.
  rewrite Hv1 in Hv2. injection Hv2 as <-. cbn. by rewrite Hb.
Qed.

(** The joint setter, when it returns, has stored a binning and the shape
    derived from the stored region and that binning. *)
Lemma set_binning_Return_inv value c w c' w' :
  set_binning value (c, w) = (Return (), (c', w')) →
  w' = w ∧
  ∃ roi, __roi c = Some roi ∧
    c' = with_shape (Some (shape_of roi (__binning c')))
           (with_binning (__binning c') c).
Proof.
  intros H. destruct (tuple_or_not value) as [[items ->] | Hnt].
  - apply set_binning_tuple_steps in H
      as [(_ & [=] & _) | (v0 & _ & [(e & _ & [=]) | (c1 & H0 & H)])].
    destruct H as [(_ & [=] & _) | (v1 & _ & H1)].
    rewrite set_bin_x_axis in H0. rewrite set_bin_y_axis in H1.
    apply axis_setter_Return_inv in H0
      as (_ & d0 & x & roi & _ & _ & Hroi & ->).
    apply axis_setter_Return_inv in H1
      as (-> & d1 & y & roi' & _ & _ & Hroi' & ->).
    cbn in Hroi'. rewrite Hroi in Hroi'. injection Hroi' as <-.
    split; [done|]. by exists roi.
  - rewrite (set_binning_scalar _ Hnt) in H.
    apply axis_setter_Return_inv in H
      as (-> & d & v & roi & _ & _ & Hroi & ->).
    split; [done|]. by exists roi.
Qed.

Lemma set_binning_binning_agree value c1 c2 w c1' c2' w1 w2 :
  __binning c1 = __binning c2 →
  set_binning value (c1, w) = (Return (), (c1', w1)) →
  set_binning value (c2, w) = (Return (), (c2', w2)) →
  __binning c1' = __binning c2'.
Proof.
  intros Hb H1 H2. destruct (tuple_or_not value) as [[items ->] | Hnt].
  - apply set_binning_tuple_steps in H1
      as [(_ & [=] & _) | (v0 & Hv0 & [(e & _ & [=]) | (c1a & H1x & H1)])].
    destruct H1 as [(_ & [=] & _) | (v1 & Hv1 & H1y)].
    apply set_binning_tuple_steps in H2
      as [(_ & [=] & _) | (v0' & Hv0' & [(e & _ & [=]) | (c2a & H2x & H2)])].
    destruct H2 as [(_ & [=] & _) | (v1' & Hv1' & H2y)].
    rewrite Hv0 in Hv0'. injection Hv0' as <-.
    rewrite Hv1 in Hv1'. injection Hv1' as <-.
    rewrite set_bin_x_axis in H1x, H2x. rewrite set_bin_y_axis in H1y, H2y.
    pose proof (axis_setter_binning_agree _ _ _ _ _ _ _ _ _ _ _ Hb H1x H2x)
      as Hb'.
    by eapply (axis_setter_binning_agree _ _ _ _ _ _ _ _ _ _ _ Hb' H1y H2y).
  - rewrite (set_binning_scalar _ Hnt) in H1, H2.
    by eapply (axis_setter_binning_agree _ _ _ _ _ _ _ _ _ _ _ Hb H1 H2).
Qed.

(** X27.  The region and the binning can be set in either order: when the
    two setter calls succeed in both orders, both orders end in the same
    object and the same world. *)
Theorem geometry_setters_commute roi_value bin_value s s1 s2 :
  (set_roi roi_value;; set_binning bin_value) s = (Return (), s1) →
  (set_binning bin_value;; set_roi roi_value) s = (Return (), s2) →
  s1 = s2.
Proof.
  destruct s as [c w], s1 as [c1 w1], s2 as [c2 w2]. intros H1 H2.
  apply bind_inv in H1 as [([] & [ca wa] & H1r & H1b) | (e & _ & [=])].
  apply bind_inv in H2 as [([] & [cb wb] & H2b & H2r) | (e & _ & [=])].
  apply set_roi_Return_inv in H1r
    as (-> & _ & _ & v0 & v1 & v2 & v3 & sw & sh & Ht & _ & _ & _ & ->).
  pose proof (set_binning_Return_inv _ _ _ _ _ H2b) as (-> & roi0 & Hroi0 & Hcb).
  apply set_roi_Return_inv in H2r
    as (-> & _ & _ & v0' & v1' & v2' & v3' & sw' & sh' & Ht' & _ & _ & _ & ->).
  rewrite Ht in Ht'. injection Ht' as <- <- <- <-.
  pose proof (set_binning_binning_agree bin_value
                (with_shape (Some (shape_of (v0, v1, v2, v3) (__binning c)))
                   (with_roi (Some (v0, v1, v2, v3)) c))
                c w c1 cb w1 w eq_refl H1b H2b) as Hb.
  apply set_binning_Return_inv in H1b as (-> & roi & Hroi & ->).
  cbn in Hroi. injection Hroi as <-.
  rewrite Hb, Hcb. reflexivity.
Qed.

Lemma geometry_setters_commute_witness :
  (with_shape (Some (512, 512))
     (with_binning (2, 2)
        (with_roi (Some (0, 1024, 0, 1024)) demo_camera)), demo_world)
  = (with_shape (Some (512, 512))
       (with_roi (Some (0, 1024, 0, 1024))
          (with_binning (2, 2) demo_camera)), demo_world).
Proof.
  apply (geometry_setters_commute
           (PTuple [PInt 0; PInt 1024; PInt 0; PInt 1024])
           (PTuple [PInt 2; PInt 2]) (demo_camera, demo_world)).
  - vm_compute. reflexivity.
  - vm_compute. reflexivity.
Defined.
